(** * proj2_nps: national sites, nearby places and the JSON file cache

    A shallow embedding of [proj2_nps.py].

    Python values are modelled as follows.
    - [str] is [string]; every character is read as the code point of the
      same number, so the strings of this development are the Python strings
      over code points below 256.
    - The values that travel through the cache (page texts, parsed API
      answers) are [json] values; a Python [dict] is an association list in
      insertion order, updated in place by [dict_set].  Numbers are integers:
      a text that denotes a float, like one that escapes a code point above
      255, is outside these values and [loads] answers [Unmodelled] for it.
    - A call that may raise returns a [result]; effectful code runs in the
      monad [M], a state monad over [world] with exceptions, in which a
      raised exception keeps the effects that happened before it.
    - The outside world is explicit: the cache file is a field of [world],
      every observable action is appended to [trace], and the web, the
      HTML selectors of BeautifulSoup and the API key are section
      variables. *)

From Stdlib Require Import Bool Arith ZArith NArith Lia List Ascii String.
From Stdlib Require Import Decimal DecimalString DecimalN DecimalFacts.
Import ListNotations.

Local Open Scope list_scope.
Local Open Scope string_scope.

(** ** Exceptions and results *)

Inductive exn : Type :=
| FileNotFoundError
| PermissionError
| JSONDecodeError
| KeyError
| TypeError
| AttributeError
| ValueError
| IndexError
| ConnectionError
| MissingSchema
| EOFError
| Unmodelled      (* the text escapes a code point above 255 *)
| OutOfFuel.      (* a recursion bound was reached *)

Inductive result (A : Type) : Type :=
| Ok (a : A)
| Raise (e : exn).
Arguments Ok {A} a.
Arguments Raise {A} e.

Definition is_ok {A} (r : result A) : bool :=
  match r with Ok _ => true | Raise _ => false end.

(** [try: ... except: ...] with a bare [except]. *)
Definition try_except {A} (body : result A) (handler : result A) : result A :=
  match body with
  | Ok a => Ok a
  | Raise _ => handler
  end.

Definition rbind {A B} (r : result A) (k : A -> result B) : result B :=
  match r with
  | Ok a => k a
  | Raise e => Raise e
  end.

(** ** Strings *)

Definition nl : string := String "010"%char "".
Definition dquote : ascii := "034"%char.
Definition backslash : ascii := "092"%char.

Definition code (c : ascii) : N := N_of_ascii c.

Definition in_range (lo hi : N) (c : ascii) : bool :=
  (lo <=? code c)%N && (code c <=? hi)%N.

(** Characters for which [str.isspace] holds, below code point 256. *)
Definition is_space (c : ascii) : bool :=
  in_range 9 13 c || in_range 28 32 c
  || (code c =? 133)%N || (code c =? 160)%N.

(** Characters for which [str.isnumeric] holds, below code point 256:
    the ASCII digits, superscript 1-3 and the vulgar fractions. *)
Definition is_numeric_char (c : ascii) : bool :=
  in_range 48 57 c
  || (code c =? 178)%N || (code c =? 179)%N || (code c =? 185)%N
  || in_range 188 190 c.

Definition is_digit (c : ascii) : bool := in_range 48 57 c.

Fixpoint string_forall (p : ascii -> bool) (s : string) : bool :=
  match s with
  | EmptyString => true
  | String c s' => p c && string_forall p s'
  end.

Definition is_empty (s : string) : bool :=
  match s with EmptyString => true | _ => false end.

(** [str.isnumeric()]: at least one character, all numeric. *)
Definition isnumeric (s : string) : bool :=
  negb (is_empty s) && string_forall is_numeric_char s.

Definition lower_char (c : ascii) : ascii :=
  if in_range 65 90 c
     || (in_range 192 222 c && negb (code c =? 215)%N)
  then ascii_of_N (code c + 32)
  else c.

Fixpoint lower (s : string) : string :=
  match s with
  | EmptyString => EmptyString
  | String c s' => String (lower_char c) (lower s')
  end.

Fixpoint lstrip (p : ascii -> bool) (s : string) : string :=
  match s with
  | EmptyString => EmptyString
  | String c s' => if p c then lstrip p s' else s
  end.

Fixpoint rstrip (p : ascii -> bool) (s : string) : string :=
  match s with
  | EmptyString => EmptyString
  | String c s' =>
      let r := rstrip p s' in
      if is_empty r && p c then EmptyString else String c r
  end.

(** [s.strip(chars)] and [s.strip()]. *)
Definition strip_chars (p : ascii -> bool) (s : string) : string :=
  rstrip p (lstrip p s).

Definition strip (s : string) : string := strip_chars is_space s.

Definition is_newline (c : ascii) : bool := (code c =? 10)%N.

Fixpoint repeat_string (s : string) (n : nat) : string :=
  match n with
  | O => EmptyString
  | S n' => s ++ repeat_string s n'
  end.

Fixpoint last_char (s : string) : option ascii :=
  match s with
  | EmptyString => None
  | String c EmptyString => Some c
  | String _ s' => last_char s'
  end.

Definition first_char (s : string) : option ascii :=
  match s with
  | EmptyString => None
  | String c _ => Some c
  end.

(** [s.startswith(p)]. *)
Fixpoint starts_with (p s : string) : bool :=
  match p with
  | EmptyString => true
  | String a p' =>
      match s with
      | String b s' => Ascii.eqb a b && starts_with p' s'
      | EmptyString => false
      end
  end.

(** [needle in haystack] for two strings. *)
Fixpoint is_substring (needle hay : string) : bool :=
  starts_with needle hay
  || match hay with
     | EmptyString => false
     | String _ hay' => is_substring needle hay'
     end.

(** [str(n)] for a natural number and [int(s)] for a string that passed
    [isnumeric]: [int] accepts decimal digits only, so the other numeric
    characters raise [ValueError]. *)
Definition str_of_nat (n : nat) : string :=
  NilEmpty.string_of_uint (N.to_uint (N.of_nat n)).

Definition int_of_numeric (s : string) : result Z :=
  if string_forall is_digit s && negb (is_empty s) then
    match NilEmpty.uint_of_string s with
    | Some d => Ok (Z.of_N (N.of_uint d))
    | None => Raise ValueError
    end
  else Raise ValueError.

(** [s[:n]] and [s[n:]]. *)
Fixpoint take (n : nat) (s : string) : string :=
  match n, s with
  | S n', String c s' => String c (take n' s')
  | _, _ => EmptyString
  end.

Fixpoint drop (n : nat) (s : string) : string :=
  match n, s with
  | S n', String _ s' => drop n' s'
  | _, _ => s
  end.

(** The decimal digits of a number, and the number a string of digits
    denotes. *)
Definition digits_of (n : Z) : string :=
  NilEmpty.string_of_uint (N.to_uint (Z.to_N n)).

Definition number_of (ds : string) : Z :=
  match NilEmpty.uint_of_string ds with
  | Some d => Z.of_N (N.of_uint d)
  | None => 0%Z
  end.

(** ** Python floats *)

(** A [float] is an IEEE 754 binary64 value: a NaN, an infinity, a zero, or
    [m * 2 ^ e] with its sign. *)
Inductive pyfloat : Type :=
| FNan
| FInf (neg : bool)
| FZero (neg : bool)
| FNum (neg : bool) (m : Z) (e : Z).

(** The numbers of the format: 53 bits of mantissa, normalised unless the
    exponent is the least one. *)
Definition float_ok (x : pyfloat) : bool :=
  match x with
  | FNum _ m e =>
      (0 <? m)%Z && (m <? 2 ^ 53)%Z && (-1074 <=? e)%Z && (e <=? 971)%Z
      && ((2 ^ 52 <=? m)%Z || (e =? -1074)%Z)
  | _ => true
  end.

Definition pyfloat_eqb (x y : pyfloat) : bool :=
  match x, y with
  | FNan, FNan => true
  | FInf a, FInf b => Bool.eqb a b
  | FZero a, FZero b => Bool.eqb a b
  | FNum a m e, FNum b m' e' => Bool.eqb a b && (m =? m')%Z && (e =? e')%Z
  | _, _ => false
  end.

(** The float nearest to [n / d], for positive [n] and [d], ties to the
    even mantissa: [n / d] is scaled by [2 ^ 1074], so that the mantissa
    is its quotient by [2 ^ k] for the least [k] that leaves 53 bits. *)
Definition round_ratio (neg : bool) (n d : Z) : pyfloat :=
  let n' := (n * 2 ^ 1074)%Z in
  let k := Z.max 0 (Z.log2 (n' / d) - 52) in
  let den := (d * 2 ^ k)%Z in
  let (q, r) := Z.div_eucl n' den in
  let up := (den <? 2 * r)%Z || ((den =? 2 * r)%Z && Z.odd q) in
  let q' := if up then (q + 1)%Z else q in
  let (m, k') := if (q' =? 2 ^ 53)%Z then ((2 ^ 52)%Z, (k + 1)%Z) else (q', k) in
  if (2045 <? k')%Z then FInf neg
  else if (m =? 0)%Z then FZero neg
  else FNum neg m (k' - 1074).

(** The float nearest to [D * 10 ^ E].  A number of at least [10 ^ 310] is
    beyond the format and one below [10 ^ -1100] is nearest to zero, which
    spares the powers of ten of an exponent with many digits. *)
Definition float_of_decimal (neg : bool) (D E : Z) : pyfloat :=
  if (D =? 0)%Z then FZero neg
  else if (310 <=? E)%Z then FInf neg
  else if (E + Z.log2 D <=? -1100)%Z then FZero neg
  else if (0 <=? E)%Z then round_ratio neg (D * 10 ^ E) 1
  else round_ratio neg D (10 ^ (- E)).

(** [float(text)] for a number with the integer part [int_part], the
    digits [frac] after the point and the exponent [exp]. *)
Definition float_of_literal (neg : bool) (int_part : Z) (frac : string) (exp : Z)
  : pyfloat :=
  let nf := Z.of_nat (String.length frac) in
  float_of_decimal neg (int_part * 10 ^ nf + number_of frac) (exp - nf).

(** *** [float.__repr__] *)

(** [m * 2 ^ e] as an integer times a power of ten. *)
Definition exact_decimal (m e : Z) : Z * Z :=
  if (0 <=? e)%Z then ((m * 2 ^ e)%Z, 0%Z) else ((m * 5 ^ (- e))%Z, e).

Fixpoint strip_zeros (fuel : nat) (c t : Z) : Z * Z :=
  match fuel with
  | O => (c, t)
  | S f =>
      if (0 <? c)%Z && (c mod 10 =? 0)%Z then strip_zeros f (c / 10) (t + 1)
      else (c, t)
  end.

(** The exponent of the scientific notation: a sign and two digits at
    least. *)
Definition exp_text (x : Z) : string :=
  (if (x <? 0)%Z then "-" else "+")
    ++ (if (Z.abs x <? 10)%Z then "0" else "") ++ digits_of (Z.abs x).

(** The digits [digs] with the decimal point after the first [decpt] of
    them, as [repr] writes them: scientific notation below [1e-4] and from
    [1e16] on. *)
Definition format_short (digs : string) (decpt : Z) : string :=
  let nd := Z.of_nat (String.length digs) in
  if (decpt <=? -4)%Z || (16 <? decpt)%Z then
    match digs with
    | String d rest =>
        String d (if is_empty rest then "" else "." ++ rest)
          ++ "e" ++ exp_text (decpt - 1)
    | EmptyString => EmptyString
    end
  else if (decpt <=? 0)%Z then
    "0." ++ repeat_string "0" (Z.to_nat (- decpt)) ++ digs
  else if (nd <=? decpt)%Z then
    digs ++ repeat_string "0" (Z.to_nat (decpt - nd)) ++ ".0"
  else take (Z.to_nat decpt) digs ++ "." ++ drop (Z.to_nat decpt) digs.

(** The text of [c * 10 ^ t]. *)
Definition candidate_text (neg : bool) (ct : Z * Z) : string :=
  let (c, t) := strip_zeros 400 (fst ct) (snd ct) in
  let digs := digits_of c in
  (if neg : bool then "-" else "")
    ++ format_short digs (Z.of_nat (String.length digs) + t).

(** How the digits [rest], read as a fraction, compare with one half. *)
Definition half_cmp (rest : string) : comparison :=
  match rest with
  | EmptyString => Lt
  | String d rest' =>
      if (code d <? 53)%N then Lt
      else if (53 <? code d)%N then Gt
      else if string_forall (Ascii.eqb "0") rest' then Eq else Gt
  end.

(** The two decimals of [p] digits around the number [X] whose digits are
    [digs], times [10 ^ E0]: the nearer first. *)
Definition candidates_at (X : Z) (digs : string) (E0 : Z) (p : nat)
  : list (Z * Z) :=
  let L := String.length digs in
  if (L <=? p)%nat then [(X, E0)]
  else
    let c := number_of (take p digs) in
    let t := (E0 + Z.of_nat (L - p))%Z in
    let down := (c, t) in
    let up := ((c + 1)%Z, t) in
    match half_cmp (drop p digs) with
    | Lt => [down; up]
    | Gt => [up; down]
    | Eq => if Z.even c then [down; up] else [up; down]
    end.

(** The texts [repr] chooses from, the shortest first. *)
Definition candidates (neg : bool) (m e : Z) : list string :=
  let (X, E0) := exact_decimal m e in
  let digs := digits_of X in
  flat_map (fun p => map (candidate_text neg) (candidates_at X digs E0 p))
           (seq 1 17).

(** The number written out in full; [repr] never needs it, since 17
    digits identify a binary64 value. *)
Definition exact_literal (neg : bool) (m e : Z) : string :=
  let (X, E0) := exact_decimal m e in
  (if neg : bool then "-" else "") ++ digits_of X ++ "e"
    ++ (if (E0 <? 0)%Z then "-" else "") ++ digits_of (Z.abs E0).

(** ** JSON values and Python dictionaries *)

#[local] Unset Elimination Schemes.
Inductive json : Type :=
| JNull
| JBool (b : bool)
| JInt (z : Z)
| JFloat (x : pyfloat)
| JStr (s : string)
| JList (l : list json)
| JDict (d : list (string * json)).
#[local] Set Elimination Schemes.

Definition dict := list (string * json).

Fixpoint dict_get (k : string) (d : dict) : option json :=
  match d with
  | [] => None
  | (k', v) :: d' => if String.eqb k k' then Some v else dict_get k d'
  end.

Definition dict_mem (k : string) (d : dict) : bool :=
  match dict_get k d with Some _ => true | None => false end.

(** [d[k] = v]: an existing key keeps its place, a new key goes last. *)
Fixpoint dict_set (k : string) (v : json) (d : dict) : dict :=
  match d with
  | [] => [(k, v)]
  | (k', v') :: d' =>
      if String.eqb k k' then (k', v) :: d' else (k', v') :: dict_set k v d'
  end.

Definition dict_keys (d : dict) : list string := map fst d.

(** [dict(pairs)] as the JSON decoder builds it. *)
Definition dict_of_pairs (pairs : list (string * json)) : dict :=
  fold_left (fun d kv => dict_set (fst kv) (snd kv) d) pairs [].

(** [v[k]] for a string subscript. *)
Definition getitem (v : json) (k : string) : result json :=
  match v with
  | JDict d =>
      match dict_get k d with
      | Some x => Ok x
      | None => Raise KeyError
      end
  | _ => Raise TypeError
  end.

(** [v.strip()]: only a string has the method. *)
Definition strip_value (v : json) : result string :=
  match v with
  | JStr s => Ok (strip s)
  | _ => Raise AttributeError
  end.

Fixpoint chars_of (s : string) : list json :=
  match s with
  | EmptyString => []
  | String c s' => JStr (String c "") :: chars_of s'
  end.

(** The items a [for] loop over [v] visits. *)
Definition iterate (v : json) : result (list json) :=
  match v with
  | JList l => Ok l
  | JDict d => Ok (map JStr (dict_keys d))
  | JStr s => Ok (chars_of s)
  | _ => Raise TypeError
  end.

(** ** Numbers in a JSON text *)

Fixpoint span_digits (s : string) : string * string :=
  match s with
  | EmptyString => (EmptyString, EmptyString)
  | String c s' =>
      if is_digit c then
        let (ds, rest) := span_digits s' in (String c ds, rest)
      else (EmptyString, s)
  end.

(** Whether the text after an integer part continues it into a float:
    the [(\.\d+)?([eE][-+]?\d+)?] part of the number pattern. *)
Definition float_follows (rest : string) : bool :=
  match rest with
  | String c (String d rest') =>
      if Ascii.eqb c "." then is_digit d
      else if Ascii.eqb c "e" || Ascii.eqb c "E" then
        is_digit d
        || ((Ascii.eqb d "+" || Ascii.eqb d "-")
            && match rest' with
               | String d' _ => is_digit d'
               | EmptyString => false
               end)
      else false
  | _ => false
  end.

(** The magnitude [0|[1-9]\d*] at the head of [s]. *)
Definition scan_magnitude (s : string) : option (N * string) :=
  match s with
  | String c s' =>
      if Ascii.eqb c "0" then Some (0%N, s')
      else if is_digit c then
        let (ds, rest) := span_digits s in
        match NilEmpty.uint_of_string ds with
        | Some d => Some (N.of_uint d, rest)
        | None => None
        end
      else None
  | EmptyString => None
  end.

(** The fraction [(\.\d+)?]: its digits, none when it is absent. *)
Definition scan_frac (s : string) : string * string :=
  match s with
  | String c s' =>
      if Ascii.eqb c "." then
        let (ds, rest) := span_digits s' in
        if is_empty ds then (EmptyString, s) else (ds, rest)
      else (EmptyString, s)
  | EmptyString => (EmptyString, s)
  end.

(** The exponent [([eE][-+]?\d+)?]: its value, 0 when it is absent. *)
Definition scan_exp (s : string) : Z * string :=
  match s with
  | String c s' =>
      if Ascii.eqb c "e" || Ascii.eqb c "E" then
        let (neg, body) :=
          match s' with
          | String d s'' =>
              if Ascii.eqb d "-" then (true, s'')
              else if Ascii.eqb d "+" then (false, s'')
              else (false, s')
          | EmptyString => (false, s')
          end in
        let (ds, rest) := span_digits body in
        if is_empty ds then (0%Z, s)
        else ((if neg : bool then - number_of ds else number_of ds)%Z, rest)
      else (0%Z, s)
  | EmptyString => (0%Z, s)
  end.

(** A number, or one of the three constants the decoder accepts beside
    them.  With a fraction or an exponent the number is a float. *)
Definition scan_number (s : string) : result (json * string) :=
  let (neg, body) :=
    match s with
    | String c s' => if Ascii.eqb c "-" then (true, s') else (false, s)
    | EmptyString => (false, s)
    end in
  match scan_magnitude body with
  | Some (n, rest) =>
      if float_follows rest then
        let (frac, rest1) := scan_frac rest in
        let (exp, rest2) := scan_exp rest1 in
        Ok (JFloat (float_of_literal neg (Z.of_N n) frac exp), rest2)
      else Ok (JInt (if neg then - Z.of_N n else Z.of_N n), rest)
  | None =>
      if starts_with "NaN" s then Ok (JFloat FNan, drop 3 s)
      else if starts_with "Infinity" s then Ok (JFloat (FInf false), drop 8 s)
      else if starts_with "-Infinity" s then Ok (JFloat (FInf true), drop 9 s)
      else Raise JSONDecodeError
  end.

(** [repr] of a float: the shortest text that reads as the float, the
    nearest to it among those. *)
Definition reads_as (x : pyfloat) (s : string) : bool :=
  match scan_number s with
  | Ok (JFloat y, EmptyString) => pyfloat_eqb y x
  | _ => false
  end.

Fixpoint first_reading_as (x : pyfloat) (cands : list string) (last : string)
  : string :=
  match cands with
  | [] => last
  | s :: rest => if reads_as x s then s else first_reading_as x rest last
  end.

(** [float.__repr__], and for the values that are no numbers the names
    the encoder gives them. *)
Definition float_repr (x : pyfloat) : string :=
  match x with
  | FNan => "NaN"
  | FInf false => "Infinity"
  | FInf true => "-Infinity"
  | FZero false => "0.0"
  | FZero true => "-0.0"
  | FNum neg m e =>
      first_reading_as x (candidates neg m e) (exact_literal neg m e)
  end.

(** ** [json.dumps] *)

Definition hex_digit (n : N) : ascii :=
  if (n <? 10)%N then ascii_of_N (48 + n) else ascii_of_N (87 + n).

(** One character of [py_encode_basestring_ascii]. *)
Definition esc_char (c : ascii) : string :=
  if Ascii.eqb c dquote then String backslash (String dquote "")
  else if Ascii.eqb c backslash then String backslash (String backslash "")
  else if (code c =? 10)%N then String backslash "n"
  else if (code c =? 13)%N then String backslash "r"
  else if (code c =? 9)%N then String backslash "t"
  else if (code c =? 8)%N then String backslash "b"
  else if (code c =? 12)%N then String backslash "f"
  else if in_range 32 126 c then String c ""
  else String backslash
         (String "u" (String "0" (String "0"
            (String (hex_digit (code c / 16))
               (String (hex_digit (code c mod 16)) ""))))).

Fixpoint escape (s : string) : string :=
  match s with
  | EmptyString => EmptyString
  | String c s' => esc_char c ++ escape s'
  end.

Definition encode_str (s : string) : string :=
  String dquote (escape s ++ String dquote "").

Definition dumps_int (z : Z) : string :=
  let digits := NilEmpty.string_of_uint (N.to_uint (Z.abs_N z)) in
  if (z <? 0)%Z then String "-" digits else digits.

Fixpoint join (sep : string) (l : list string) : string :=
  match l with
  | [] => ""
  | [x] => x
  | x :: l' => x ++ sep ++ join sep l'
  end.

(** [json.dumps(v)] with the default separators and [ensure_ascii]. *)
Fixpoint dumps (v : json) : string :=
  match v with
  | JNull => "null"
  | JBool true => "true"
  | JBool false => "false"
  | JInt z => dumps_int z
  | JFloat x => float_repr x
  | JStr s => encode_str s
  | JList l => "[" ++ join ", " (map dumps l) ++ "]"
  | JDict d =>
      "{" ++ join ", " (map (fun kv => encode_str (fst kv) ++ ": " ++ dumps (snd kv)) d)
          ++ "}"
  end.

(** ** [json.loads] *)

Definition is_json_ws (c : ascii) : bool :=
  (code c =? 32)%N || (code c =? 9)%N || (code c =? 10)%N || (code c =? 13)%N.

Fixpoint skip_ws (s : string) : string :=
  match s with
  | EmptyString => EmptyString
  | String c s' => if is_json_ws c then skip_ws s' else s
  end.

Definition rcons (c : ascii) (r : result (string * string)) : result (string * string) :=
  match r with
  | Ok (s, rest) => Ok (String c s, rest)
  | Raise e => Raise e
  end.

Definition hex_val (c : ascii) : option N :=
  if in_range 48 57 c then Some (code c - 48)%N
  else if in_range 97 102 c then Some (code c - 87)%N
  else if in_range 65 70 c then Some (code c - 55)%N
  else None.

Definition hex4 (a b c d : ascii) : option N :=
  match hex_val a, hex_val b, hex_val c, hex_val d with
  | Some x, Some y, Some z, Some w => Some (((x * 16 + y) * 16 + z) * 16 + w)%N
  | _, _, _, _ => None
  end.

(** The single-character escapes of the decoder's [BACKSLASH] table. *)
Definition unescape (e : ascii) : option ascii :=
  if Ascii.eqb e dquote then Some dquote
  else if Ascii.eqb e backslash then Some backslash
  else if Ascii.eqb e "/" then Some "/"%char
  else if Ascii.eqb e "b" then Some "008"%char
  else if Ascii.eqb e "f" then Some "012"%char
  else if Ascii.eqb e "n" then Some "010"%char
  else if Ascii.eqb e "r" then Some "013"%char
  else if Ascii.eqb e "t" then Some "009"%char
  else None.

(** [scanstring] in strict mode, started after the opening quote: the
    decoded string and the text after the closing quote. *)
Fixpoint scan_string (s : string) : result (string * string) :=
  match s with
  | EmptyString => Raise JSONDecodeError
  | String c s1 =>
      if Ascii.eqb c dquote then Ok (EmptyString, s1)
      else if Ascii.eqb c backslash then
        match s1 with
        | EmptyString => Raise JSONDecodeError
        | String e s2 =>
            if Ascii.eqb e "u" then
              match s2 with
              | String h1 (String h2 (String h3 (String h4 s3))) =>
                  match hex4 h1 h2 h3 h4 with
                  | Some n =>
                      if (n <? 256)%N then rcons (ascii_of_N n) (scan_string s3)
                      else Raise Unmodelled
                  | None => Raise JSONDecodeError
                  end
              | _ => Raise JSONDecodeError
              end
            else
              match unescape e with
              | Some ch => rcons ch (scan_string s2)
              | None => Raise JSONDecodeError
              end
        end
      else if (code c <? 32)%N then Raise JSONDecodeError
      else rcons c (scan_string s1)
  end.

Definition expect_string (s : string) : result (string * string) :=
  match s with
  | String c r => if Ascii.eqb c dquote then scan_string r else Raise JSONDecodeError
  | EmptyString => Raise JSONDecodeError
  end.

(** [scan_once], [JSONArray] and [JSONObject].  [parse_value] starts at the
    first character of a value; [parse_elems] and [parse_members] start at
    the first element of a non-empty array and at the opening quote of a
    member's key.  Every call spends one unit of [fuel]. *)
Fixpoint parse_value (fuel : nat) (s : string) {struct fuel}
  : result (json * string) :=
  match fuel with
  | O => Raise OutOfFuel
  | S f =>
      match s with
      | EmptyString => Raise JSONDecodeError
      | String c r =>
          if Ascii.eqb c dquote then
            rbind (scan_string r) (fun p => Ok (JStr (fst p), snd p))
          else if Ascii.eqb c "{" then
            match skip_ws r with
            | String c' r' =>
                if Ascii.eqb c' "}" then Ok (JDict [], r')
                else
                  rbind (parse_members f (skip_ws r))
                        (fun p => Ok (JDict (dict_of_pairs (fst p)), snd p))
            | EmptyString => Raise JSONDecodeError
            end
          else if Ascii.eqb c "[" then
            match skip_ws r with
            | String c' r' =>
                if Ascii.eqb c' "]" then Ok (JList [], r')
                else
                  rbind (parse_elems f (skip_ws r))
                        (fun p => Ok (JList (fst p), snd p))
            | EmptyString => Raise JSONDecodeError
            end
          else if starts_with "null" s then Ok (JNull, drop 4 s)
          else if starts_with "true" s then Ok (JBool true, drop 4 s)
          else if starts_with "false" s then Ok (JBool false, drop 5 s)
          else scan_number s
      end
  end
with parse_elems (fuel : nat) (s : string) {struct fuel}
  : result (list json * string) :=
  match fuel with
  | O => Raise OutOfFuel
  | S f =>
      rbind (parse_value f s) (fun p =>
        match skip_ws (snd p) with
        | String c r =>
            if Ascii.eqb c "]" then Ok ([fst p], r)
            else if Ascii.eqb c "," then
              rbind (parse_elems f (skip_ws r))
                    (fun q => Ok (fst p :: fst q, snd q))
            else Raise JSONDecodeError
        | EmptyString => Raise JSONDecodeError
        end)
  end
with parse_members (fuel : nat) (s : string) {struct fuel}
  : result (list (string * json) * string) :=
  match fuel with
  | O => Raise OutOfFuel
  | S f =>
      rbind (expect_string s) (fun k =>
        match skip_ws (snd k) with
        | String c r =>
            if Ascii.eqb c ":" then
              rbind (parse_value f (skip_ws r)) (fun p =>
                match skip_ws (snd p) with
                | String c' r' =>
                    if Ascii.eqb c' "}" then Ok ([(fst k, fst p)], r')
                    else if Ascii.eqb c' "," then
                      rbind (parse_members f (skip_ws r'))
                            (fun q => Ok ((fst k, fst p) :: fst q, snd q))
                    else Raise JSONDecodeError
                | EmptyString => Raise JSONDecodeError
                end)
            else Raise JSONDecodeError
        | EmptyString => Raise JSONDecodeError
        end)
  end.

(** [json.loads(s)]: one value, white space around it, nothing else.
    A call of the three functions above either reads a character or is made
    by one that did, so twice the length of the text bounds their depth. *)
Definition loads_fuel (s : string) : nat := 2 * String.length s + 2.

Definition loads (s : string) : result json :=
  rbind (parse_value (loads_fuel s) (skip_ws s)) (fun p =>
    match skip_ws (snd p) with
    | EmptyString => Ok (fst p)
    | String _ _ => Raise JSONDecodeError
    end).

(** ** The two record classes *)

Module NationalSite.

Record t : Type := mk {
  category : string;
  name : string;
  address : string;
  zipcode : string;
  phone : string;
  url : option string
}.

(** [__init__]: every field is stored as given, except [phone], from
    which [strip('\n')] removes the newlines at both ends. *)
Definition init (category name address zipcode phone : string)
           (url : option string) : t :=
  {| category := category;
     name := name;
     address := address;
     zipcode := zipcode;
     phone := strip_chars is_newline phone;
     url := url |}.

Definition info (self : t) : string :=
  name self ++ " (" ++ category self ++ "): " ++ address self ++ " "
    ++ zipcode self.

End NationalSite.

Module NearbyPlace.

Record t : Type := mk {
  name : json;
  category : string;
  street_address : string;
  city_name : string
}.

Definition init (name : json) (category street_address city_name : string) : t :=
  mk name category street_address city_name.

(** [info]: the name is whatever the API answer held under ["name"];
    adding a string to anything but a string raises [TypeError]. *)
Definition info (self : t) : result string :=
  match name self with
  | JStr n =>
      Ok (n ++ " (" ++ category self ++ "): " ++ street_address self ++ ", "
            ++ city_name self)
  | _ => Raise TypeError
  end.

End NearbyPlace.

(** ** The world and the monad of effects *)

Inductive file_state : Type :=
| NoFile                       (* the path does not exist *)
| Denied                       (* [open] fails with another [OSError] *)
| File (contents : string)
| Locked (contents : option string).
                               (* read as [NoFile] or [File]; not to be
                                  opened for writing *)

(** Whether [open(CACHE_FILE_NAME, 'w')] succeeds. *)
Definition writable (f : file_state) : bool :=
  match f with
  | NoFile | File _ => true
  | Denied | Locked _ => false
  end.

Inductive event : Type :=
| EvPrint (line : string)
| EvInput (prompt : string)
| EvOpen (mode : string)
| EvWrite (contents : string)
| EvGet (url : string) (params : option dict).

Record world : Type := mkWorld {
  disk : file_state;            (* the file [CACHE_FILE_NAME] *)
  CACHE_DICT : json;            (* the object bound to the global [CACHE_DICT] *)
  stdin : list string;          (* the lines still to be typed *)
  trace : list event            (* what happened so far, oldest first *)
}.

Definition M (A : Type) : Type := world -> result A * world.

Definition ret {A} (a : A) : M A := fun w => (Ok a, w).

Definition raise {A} (e : exn) : M A := fun w => (Raise e, w).

Definition bind {A B} (m : M A) (k : A -> M B) : M B :=
  fun w =>
    match m w with
    | (Ok a, w') => k a w'
    | (Raise e, w') => (Raise e, w')
    end.

Definition lift {A} (r : result A) : M A := fun w => (r, w).

Declare Scope monad_scope.
Delimit Scope monad_scope with monad.
Notation "x <- m ;; k" := (bind m (fun x => k))
  (at level 61, m at next level, right associativity) : monad_scope.
Notation "m ;; k" := (bind m (fun _ => k))
  (at level 61, right associativity) : monad_scope.
Local Open Scope monad_scope.

Definition log (e : event) : M unit :=
  fun w => (Ok tt, mkWorld (disk w) (CACHE_DICT w) (stdin w) (trace w ++ [e])%list).

Definition print (line : string) : M unit := log (EvPrint line).

Definition get_disk : M file_state := fun w => (Ok (disk w), w).

Definition set_disk (f : file_state) : M unit :=
  fun w => (Ok tt, mkWorld f (CACHE_DICT w) (stdin w) (trace w)).

Definition get_CACHE_DICT : M json := fun w => (Ok (CACHE_DICT w), w).

Definition set_CACHE_DICT (c : json) : M unit :=
  fun w => (Ok tt, mkWorld (disk w) c (stdin w) (trace w)).

(** [input(prompt)]. *)
Definition input (prompt : string) : M string :=
  log (EvInput prompt) ;;
  fun w =>
    match stdin w with
    | [] => (Raise EOFError, w)
    | line :: rest => (Ok line, mkWorld (disk w) (CACHE_DICT w) rest (trace w))
    end.

(** ** Constants *)

Definition URL : string := "https://www.nps.gov/index.htm".
Definition base_url : string := "https://www.nps.gov".
Definition CACHE_FILE_NAME : string := "project2.json".

(** ** The cache store *)

(** [load_cache]: only [FileNotFoundError] is caught; a failing [open] of
    another kind and a failing [json.loads] leave the function as raised. *)
Definition load_cache : M json :=
  log (EvOpen "r") ;;
  f <- get_disk ;;
  match f with
  | NoFile | Locked None => ret (JDict [])
  | Denied => raise PermissionError
  | File contents | Locked (Some contents) => lift (loads contents)
  end.

(** [save_cache]: [open] for writing fails where it is denied, and
    otherwise empties the file; then the whole mapping is serialised and
    written. *)
Definition save_cache (cache : json) : M unit :=
  log (EvOpen "w") ;;
  f <- get_disk ;;
  if writable f then
    set_disk (File "") ;;
    let contents_to_write := dumps cache in
    log (EvWrite contents_to_write) ;;
    set_disk (File contents_to_write)
  else raise PermissionError.

(** [k in v], [v[k] = x] for a string [k]. *)
Definition is_str (k : string) (v : json) : bool :=
  match v with
  | JStr s => String.eqb s k
  | _ => false
  end.

Definition contains (v : json) (k : string) : result bool :=
  match v with
  | JDict d => Ok (dict_mem k d)
  | JList l => Ok (existsb (is_str k) l)
  | JStr s => Ok (is_substring k s)
  | _ => Raise TypeError
  end.

Definition setitem (v : json) (k : string) (x : json) : result json :=
  match v with
  | JDict d => Ok (JDict (dict_set k x d))
  | _ => Raise TypeError
  end.

(** [cache.keys()] exists on a dict only. *)
Definition keys_contain (v : json) (k : string) : result bool :=
  match v with
  | JDict d => Ok (dict_mem k d)
  | _ => Raise AttributeError
  end.

(** [l[i]] for a list, with Python's negative indices. *)
Definition py_index {A} (l : list A) (i : Z) : result A :=
  let n := Z.of_nat (List.length l) in
  let j := if (i <? 0)%Z then (i + n)%Z else i in
  if (0 <=? j)%Z && (j <? n)%Z then
    match nth_error l (Z.to_nat j) with
    | Some x => Ok x
    | None => Raise IndexError
    end
  else Raise IndexError.

(** ** Flattening the API answer *)

Definition member_category (member : json) : result string :=
  try_except
    (rbind (getitem member "fields") (fun fields =>
     rbind (getitem fields "group_sic_code_name") (fun v =>
     rbind (strip_value v) (fun nearby_category =>
     if String.eqb nearby_category "" then Ok "no category"
     else Ok nearby_category))))
    (rbind (getitem member "fields") (fun fields =>
     rbind (getitem fields "group_sic_code_name_ext") (fun v =>
     strip_value v))).

Definition member_street_address (member : json) : result string :=
  try_except
    (rbind (getitem member "fields") (fun fields =>
     rbind (getitem fields "address") (fun v =>
     rbind (strip_value v) (fun nearby_street_address =>
     if String.eqb nearby_street_address "" then Ok "no address"
     else Ok nearby_street_address))))
    (Ok "no address").

Definition member_city_name (member : json) : result string :=
  try_except
    (rbind (getitem member "fields") (fun fields =>
     rbind (getitem fields "city") (fun v =>
     rbind (strip_value v) (fun nearby_city_name =>
     if String.eqb nearby_city_name "" then Ok "no city"
     else Ok nearby_city_name))))
    (Ok "no city").

(** The body of the loop of [make_nearby_instance_list]. *)
Definition flatten_member (member : json) : result NearbyPlace.t :=
  rbind (getitem member "name") (fun nearby_name =>
  rbind (member_category member) (fun nearby_category =>
  rbind (member_street_address member) (fun nearby_street_address =>
  rbind (member_city_name member) (fun nearby_city_name =>
  Ok (NearbyPlace.init nearby_name nearby_category nearby_street_address
        nearby_city_name))))).

Fixpoint flatten_members (members : list json) : result (list NearbyPlace.t) :=
  match members with
  | [] => Ok []
  | member :: rest =>
      rbind (flatten_member member) (fun nearby_instance =>
      rbind (flatten_members rest) (fun nearby_instance_list =>
      Ok (nearby_instance :: nearby_instance_list)))
  end.

Definition make_nearby_instance_list (nearby_dict : json)
  : result (list NearbyPlace.t) :=
  rbind (getitem nearby_dict "searchResults") (fun results =>
  rbind (iterate results) flatten_members).

(** ** The program, over its environment *)

(** The six texts [get_site_instance] reads off a detail page. *)
Record site_page : Type := mkPage {
  hero_title : string;
  hero_designation : string;
  postal_code : string;
  locality : string;
  region : string;
  tel : string
}.

Section Program.

(** [secrets.API_KEY]. *)
Variable API_KEY : string.

(** [requests.get(url, params)]: the body of the answer, or the exception
    of a failed request.  The answer may depend on all that happened
    before. *)
Variable web : list event -> string -> option dict -> result string.

(** BeautifulSoup's lookups: the texts of a detail page, and for a state
    page the [href] of each heading of the result list; a lookup that
    finds nothing raises. *)
Variable soup_site : json -> result site_page.
Variable soup_state : json -> result (list (result string)).

Definition requests_get (url : string) (params : option dict) : M string :=
  fun w =>
    let (u, w') := log (EvGet url params) w in
    (web (trace w) url params, w').

(** [make_url_request_using_cache(url, cache)], where [cache] is the
    object held by [CACHE_DICT], as at every call of the program; the
    assignment to [cache[url]] is an update of that object. *)
Definition make_url_request_using_cache (url : string) : M json :=
  cache <- get_CACHE_DICT ;;
  hit <- lift (keys_contain cache url) ;;
  if hit : bool then
    print "Using cache" ;;
    lift (getitem cache url)
  else
    print "Fetching" ;;
    response_text <- requests_get url None ;;
    cache' <- lift (setitem cache url (JStr response_text)) ;;
    set_CACHE_DICT cache' ;;
    cache <- get_CACHE_DICT ;;
    save_cache cache ;;
    cache <- get_CACHE_DICT ;;
    lift (getitem cache url).

Definition get_site_instance (site_url : string) : M NationalSite.t :=
  c <- load_cache ;;
  set_CACHE_DICT c ;;
  url_text <- make_url_request_using_cache site_url ;;
  page <- lift (soup_site url_text) ;;
  let name := hero_title page in
  let category := strip (hero_designation page) in
  let zip_code := strip (postal_code page) in
  let address := locality page ++ ", " ++ region page in
  let phone := tel page in
  ret (NationalSite.init category name address zip_code phone None).

Fixpoint sites_of_links (links : list (result string)) : M (list NationalSite.t) :=
  match links with
  | [] => ret []
  | link :: rest =>
      path <- lift link ;;
      let url := base_url ++ path ++ "index.htm" in
      sitei <- get_site_instance url ;;
      let site_instance :=
        NationalSite.init (NationalSite.category sitei) (NationalSite.name sitei)
          (NationalSite.address sitei) (NationalSite.zipcode sitei)
          (NationalSite.phone sitei) (Some url) in
      site_list <- sites_of_links rest ;;
      ret (site_instance :: site_list)
  end.

Definition get_sites_for_state (url : string) : M (list NationalSite.t) :=
  c <- load_cache ;;
  set_CACHE_DICT c ;;
  url_text <- make_url_request_using_cache url ;;
  links <- lift (soup_state url_text) ;;
  sites_of_links links.

Definition api_params (site_object : NationalSite.t) : dict :=
  [("key", JStr API_KEY);
   ("origin", JStr (NationalSite.zipcode site_object));
   ("radius", JInt 10);
   ("maxMatches", JInt 10);
   ("ambiguities", JStr "ignore");
   ("outFormat", JStr "json")].

Definition make_request_with_cache_api (url : string)
           (site_object : NationalSite.t) : M json :=
  cache_file <- load_cache ;;
  let params := api_params site_object in
  hit <- lift (contains cache_file (NationalSite.name site_object)) ;;
  if hit : bool then
    print "Using cache" ;;
    lift (getitem cache_file (NationalSite.name site_object))
  else
    print "Fetching" ;;
    body <- requests_get url (Some params) ;;
    response <- lift (loads body) ;;
    cache_file' <- lift (setitem cache_file (NationalSite.name site_object) response) ;;
    save_cache cache_file' ;;
    lift (getitem cache_file' (NationalSite.name site_object)).

Definition get_nearby_places (site_object : NationalSite.t) : M json :=
  let url := "http://www.mapquestapi.com/search/v2/radius" in
  make_request_with_cache_api url site_object.

(** *** The selection loop of the main program *)

Definition dashes : string := repeat_string "-" 50.

Definition selection_prompt : string :=
  "Choose the number for detail search or " ++ String dquote "exit"
    ++ String dquote " or " ++ String dquote "back" ++ String dquote (nl ++ ":").

Fixpoint print_places (places : list NearbyPlace.t) : M unit :=
  match places with
  | [] => ret tt
  | nearby_place :: rest =>
      line <- lift (NearbyPlace.info nearby_place) ;;
      print ("- " ++ line) ;;
      print_places rest
  end.

(** [get_site_instance(site.url)].  A site listed by [get_sites_for_state]
    has a url; for [None] the cache lookup misses and [requests.get]
    refuses the url before any traffic. *)
Definition get_site_instance_at (site_url : option string) : M NationalSite.t :=
  match site_url with
  | Some u => get_site_instance u
  | None =>
      c <- load_cache ;;
      set_CACHE_DICT c ;;
      match c with
      | JDict _ => print "Fetching" ;; raise MissingSchema
      | _ => raise AttributeError
      end
  end.

(** The accepted branch, once [sites_list[int(option) - 1]] is known. *)
Definition show_detail (site : NationalSite.t) : M unit :=
  park_instance <- get_site_instance_at (NationalSite.url site) ;;
  let site_name := NationalSite.name park_instance in
  nearbyplace <- get_nearby_places park_instance ;;
  nearby_instance_list <- lift (make_nearby_instance_list nearbyplace) ;;
  print dashes ;;
  print ("Places near " ++ strip site_name) ;;
  print dashes ;;
  print_places nearby_instance_list.

Definition detail_search (sites_list : list NationalSite.t) (n : Z) : M unit :=
  site <- lift (py_index sites_list (n - 1)) ;;
  show_detail site.

Definition invalid_input : M unit :=
  print ("[Error] Invalid input " ++ nl) ;;
  print dashes.

Inductive outcome : Type :=
| Again        (* the loop prompts once more *)
| GoBack       (* [break], back to the state prompt *)
| GoExit.      (* [x = 1] and [break]: the program ends *)

(** One turn of the inner [while True], after [option] was read and
    lower-cased. *)
Definition selection_body (sites_list : list NationalSite.t) (option : string)
  : M outcome :=
  if String.eqb option "back" then ret GoBack
  else if String.eqb option "exit" then ret GoExit
  else if isnumeric option then
    n <- lift (int_of_numeric option) ;;
    if (n <=? Z.of_nat (List.length sites_list))%Z && isnumeric option then
      detail_search sites_list n ;;
      ret Again
    else
      invalid_input ;;
      ret Again
  else
    invalid_input ;;
    ret Again.

Definition selection_turn (sites_list : list NationalSite.t) : M outcome :=
  line <- input selection_prompt ;;
  selection_body sites_list (lower line).

(** The inner loop, for at most [fuel] turns; every turn reads a line, so
    one turn more than there are lines is enough. *)
Fixpoint selection_loop (fuel : nat) (sites_list : list NationalSite.t)
  : M outcome :=
  match fuel with
  | O => raise OutOfFuel
  | S fuel' =>
      o <- selection_turn sites_list ;;
      match o with
      | Again => selection_loop fuel' sites_list
      | _ => ret o
      end
  end.

End Program.

(** ** The state index and the outer loop *)

(** The dict [build_state_url_dict] returns: state names to urls. *)
Definition str_dict := list (string * string).

Fixpoint str_dict_get (k : string) (d : str_dict) : option string :=
  match d with
  | [] => None
  | (k', v) :: d' => if String.eqb k k' then Some v else str_dict_get k d'
  end.

Fixpoint str_dict_set (k v : string) (d : str_dict) : str_dict :=
  match d with
  | [] => [(k, v)]
  | (k', v') :: d' =>
      if String.eqb k k' then (k', v) :: d' else (k', v') :: str_dict_set k v d'
  end.

(** The loop of [build_state_url_dict] over the items of the state list:
    each item gives the [href] of its link, or the exception of the lookup,
    and its text. *)
Fixpoint states_of_items (items : list (result string * string))
         (state_dict : str_dict) : result str_dict :=
  match items with
  | [] => Ok state_dict
  | (href, text) :: rest =>
      rbind href (fun state_path =>
      let state_name := lower text in
      states_of_items rest
        (str_dict_set state_name (base_url ++ state_path) state_dict))
  end.

Inductive entered : Type :=
| Leave                                   (* ["exit"]: the program ends *)
| Unknown                                 (* no such state: [continue] *)
| Enter (sites_list : list NationalSite.t).   (* the sites were listed *)

Section MainProgram.

Variable API_KEY : string.
Variable web : list event -> string -> option dict -> result string.
Variable soup_site : json -> result site_page.
Variable soup_state : json -> result (list (result string)).

(** BeautifulSoup's lookups on the index page: the items of the state
    list. *)
Variable soup_index : json -> result (list (result string * string)).

Definition build_state_url_dict : M str_dict :=
  let url := base_url ++ "/index.htm" in
  c <- load_cache ;;
  set_CACHE_DICT c ;;
  url_text <- make_url_request_using_cache web url ;;
  items <- lift (soup_index url_text) ;;
  lift (states_of_items items []).

Definition state_prompt : string :=
  "Enter a state name (e.g. Michigan, michigan) or " ++ String dquote "exit"
    ++ String dquote (nl ++ ":").

(** [for i, site in enumerate(sites_list)], from index [i] on. *)
Fixpoint print_sites (i : nat) (sites_list : list NationalSite.t) : M unit :=
  match sites_list with
  | [] => ret tt
  | site :: rest =>
      print ("[ " ++ str_of_nat (i + 1) ++ " ]  " ++ NationalSite.info site) ;;
      print_sites (S i) rest
  end.

(** One turn of the outer [while True], up to the inner loop. *)
Definition state_turn (states_dict : str_dict) : M entered :=
  line <- input state_prompt ;;
  let state := lower line in
  if String.eqb state "exit" then ret Leave
  else
    match str_dict_get state states_dict with
    | Some state_url =>
        sites_list <- get_sites_for_state web soup_site soup_state state_url ;;
        print dashes ;;
        print ("List of national sites in " ++ lower state) ;;
        print dashes ;;
        print_sites 0 sites_list ;;
        ret (Enter sites_list)
    | None =>
        print ("[Error] Enter proper state name " ++ nl) ;;
        ret Unknown
    end.

(** The outer loop, for at most [fuel] prompts of either loop in a row. *)
Fixpoint main_loop (fuel : nat) (states_dict : str_dict) : M unit :=
  match fuel with
  | O => raise OutOfFuel
  | S fuel' =>
      e <- state_turn states_dict ;;
      match e with
      | Leave => ret tt
      | Unknown => main_loop fuel' states_dict
      | Enter sites_list =>
          o <- selection_loop API_KEY web soup_site fuel' sites_list ;;
          match o with
          | GoExit => ret tt
          | _ => main_loop fuel' states_dict
          end
      end
  end.

(** The program. *)
Definition main (fuel : nat) : M unit :=
  states_dict <- build_state_url_dict ;;
  main_loop fuel states_dict.

End MainProgram.

(** ** Predicates and measures used in the statements *)

Fixpoint nodupb (l : list string) : bool :=
  match l with
  | [] => true
  | x :: l' => negb (existsb (String.eqb x) l') && nodupb l'
  end.

(** A value is well formed when no dict in it, at any depth, lists a key
    twice and every float in it is one of the format: the values Python
    can hold. *)
Fixpoint wf_json (v : json) : bool :=
  match v with
  | JFloat x => float_ok x
  | JList l => forallb wf_json l
  | JDict d =>
      nodupb (map fst d) && forallb (fun kv => wf_json (snd kv)) d
  | _ => true
  end.

(** *** Equality as Python has it *)

(** [x == y] for two floats: a NaN is equal to nothing; the two zeros are
    equal. *)
Definition float_eq (x y : pyfloat) : bool :=
  match x, y with
  | FZero _, FZero _ => true
  | FInf a, FInf b => Bool.eqb a b
  | FNum a m e, FNum b m' e' => Bool.eqb a b && (m =? m')%Z && (e =? e')%Z
  | _, _ => false
  end.

(** [x == z] for a float and an int: the comparison is exact. *)
Definition float_eq_int (x : pyfloat) (z : Z) : bool :=
  match x with
  | FZero _ => (z =? 0)%Z
  | FNum neg m e =>
      let sign := (if neg : bool then -1 else 1)%Z in
      if (0 <=? e)%Z then (z =? sign * (m * 2 ^ e))%Z
      else ((m mod 2 ^ (- e) =? 0) && (z =? sign * (m / 2 ^ (- e))))%Z
  | _ => false
  end.

(** [a == b] for two values that share no object, as a mapping and the
    mapping read back from its file: numbers compare by value across
    [bool], [int] and [float], lists element by element, dicts key by key
    whatever the order of the keys. *)
Fixpoint py_eq (a b : json) {struct a} : bool :=
  match a, b with
  | JNull, JNull => true
  | JBool x, JBool y => Bool.eqb x y
  | JBool x, JInt z => (z =? Z.b2z x)%Z
  | JInt z, JBool x => (z =? Z.b2z x)%Z
  | JBool x, JFloat f => float_eq_int f (Z.b2z x)
  | JFloat f, JBool x => float_eq_int f (Z.b2z x)
  | JInt x, JInt y => (x =? y)%Z
  | JInt z, JFloat f => float_eq_int f z
  | JFloat f, JInt z => float_eq_int f z
  | JFloat x, JFloat y => float_eq x y
  | JStr x, JStr y => String.eqb x y
  | JList l, JList l' =>
      (fix all2 (l l' : list json) {struct l} : bool :=
         match l, l' with
         | [], [] => true
         | x :: r, y :: r' => py_eq x y && all2 r r'
         | _, _ => false
         end) l l'
  | JDict d, JDict d' =>
      Nat.eqb (List.length d) (List.length d')
      && forallb (fun kv => match dict_get (fst kv) d' with
                            | Some v' => py_eq (snd kv) v'
                            | None => false
                            end) d
  | _, _ => false
  end.

(** No NaN occurs in the value. *)
Fixpoint nan_free (v : json) : bool :=
  match v with
  | JFloat FNan => false
  | JList l => forallb nan_free l
  | JDict d => forallb (fun kv => nan_free (snd kv)) d
  | _ => true
  end.

Fixpoint size (v : json) : nat :=
  match v with
  | JList l => S (fold_right (fun x n => S (size x + n)) 0 l)
  | JDict d => S (fold_right (fun kv n => S (size (snd kv) + n)) 0 d)
  | _ => 1
  end.

(** What may follow a value inside a document written by [dumps]. *)
Definition delim (rest : string) : bool :=
  match rest with
  | EmptyString => true
  | String c _ => Ascii.eqb c "," || Ascii.eqb c "]" || Ascii.eqb c "}"
  end.

(** What may follow a number: nothing that goes on with it. *)
Definition ends_number (rest : string) : Prop :=
  match rest with
  | EmptyString => True
  | String c _ =>
      is_digit c = false /\ Ascii.eqb c "." = false /\ Ascii.eqb c "e" = false
      /\ Ascii.eqb c "E" = false /\ Ascii.eqb c "+" = false
      /\ Ascii.eqb c "-" = false
  end.

(** The characters a number or one of the three constants starts with. *)
Definition number_start (c : ascii) : bool :=
  is_digit c || Ascii.eqb c "-" || Ascii.eqb c "N" || Ascii.eqb c "I".

(** The characters a value written by [dumps] can start with. *)
Definition value_start (c : ascii) : bool :=
  is_digit c || Ascii.eqb c "-" || Ascii.eqb c dquote || Ascii.eqb c "["
  || Ascii.eqb c "{" || Ascii.eqb c "n" || Ascii.eqb c "t" || Ascii.eqb c "f"
  || Ascii.eqb c "N" || Ascii.eqb c "I".

(** [s] neither begins nor ends with a character of the class [p]. *)
Definition no_surrounding (p : ascii -> bool) (s : string) : Prop :=
  (forall c, first_char s = Some c -> p c = false)
  /\ (forall c, last_char s = Some c -> p c = false).

Definition is_get (e : event) : bool :=
  match e with EvGet _ _ => true | _ => false end.

(** The number of network requests in a trace. *)
Definition gets (tr : list event) : nat := List.length (filter is_get tr).

Definition add_trace (w : world) (evs : list event) : world :=
  mkWorld (disk w) (CACHE_DICT w) (stdin w) (trace w ++ evs)%list.

(** [d'] keeps every entry of [d]. *)
Definition dict_extends (d d' : dict) : Prop :=
  forall k v, dict_get k d = Some v -> dict_get k d' = Some v.

Definition no_digit_ahead (rest : string) : Prop :=
  match rest with
  | EmptyString => True
  | String c _ => is_digit c = false
  end.

(** The text [dumps] writes after the first element of an array, and after
    the first member of an object, up to the text [rest] that follows. *)
Fixpoint elems_tail (l : list json) (rest : string) : string :=
  match l with
  | [] => "]" ++ rest
  | y :: l' => ", " ++ dumps y ++ elems_tail l' rest
  end.

Definition member_text (kv : string * json) : string :=
  encode_str (fst kv) ++ ": " ++ dumps (snd kv).

Fixpoint members_tail (d : dict) (rest : string) : string :=
  match d with
  | [] => "}" ++ rest
  | kv :: d' => ", " ++ member_text kv ++ members_tail d' rest
  end.

Definition elems_size (l : list json) : nat :=
  fold_right (fun x n => S (size x + n)) 0 l.

Definition members_size (d : dict) : nat :=
  fold_right (fun kv n => S (size (snd kv) + n)) 0 d.

(** The statement of the round trip for one value, as the induction
    carries it. *)
Definition reads_back (v : json) : Prop :=
  wf_json v = true ->
  forall f rest, size v <= f -> delim rest = true ->
  parse_value f (dumps v ++ rest) = Ok (v, rest).

(** The mapping after a page text was stored under its url. *)
Definition fetched (url : string) (text : string) (d : dict) : dict :=
  dict_set url (JStr text) d.

(** The mapping [load_cache] would return for a world, if it is one. *)
Definition stored (w : world) (d : dict) : Prop :=
  fst (load_cache w) = Ok (JDict d).

(** The exceptions the decoder can end with: the text is not JSON, or it
    denotes a value this development does not model. *)
Definition decoder_exn (e : exn) : bool :=
  match e with
  | JSONDecodeError | Unmodelled => true
  | _ => false
  end.

(** The text under [fields.address] of an entry, when there is one. *)
Definition address_text (member : json) : option string :=
  match getitem member "fields" with
  | Ok fields =>
      match getitem fields "address" with
      | Ok (JStr s) => Some s
      | _ => None
      end
  | Raise _ => None
  end.

(** What the selection loop does with a rejected line. *)
Definition rejected (w : world) : result outcome * world :=
  (Ok Again,
   add_trace w [EvPrint ("[Error] Invalid input " ++ nl); EvPrint dashes]).

(** ** Sample data *)

Definition isle_royale : NationalSite.t :=
  NationalSite.init "National Park" "Isle Royale" "Houghton, MI" "49931"
    "(906) 482-0984" (Some "https://www.nps.gov/isro/index.htm").

Definition keweenaw : NationalSite.t :=
  NationalSite.init "National Historical Park" "Keweenaw" "Calumet, MI" "49913"
    "(906) 337-3168" (Some "https://www.nps.gov/kewe/index.htm").

(** A complete entry of an API answer, one without any category field,
    one whose only category field is the second and blank, and one without
    [fields.address]. *)
Definition entry_complete : json :=
  JDict [("name", JStr "Suomi Restaurant");
         ("fields", JDict [("group_sic_code_name", JStr "Restaurants");
                           ("address", JStr "54 Huron St");
                           ("city", JStr "Houghton")])].

Definition entry_no_category : json :=
  JDict [("name", JStr "Quincy Mine");
         ("fields", JDict [("city", JStr "Hancock")])].

Definition entry_blank_ext : json :=
  JDict [("name", JStr "Portage Lake");
         ("fields", JDict [("group_sic_code_name_ext", JStr " ");
                           ("address", JStr "1 Lake Rd");
                           ("city", JStr "Houghton")])].

Definition entry_no_address : json :=
  JDict [("name", JStr "Ranger III Dock");
         ("fields", JDict [("group_sic_code_name", JStr "Marinas");
                           ("city", JStr "Houghton")])].

Definition answer_of (entries : list json) : json :=
  JDict [("searchResults", JList entries)].

(** A web that answers every page request with one page and every API
    request with one entry, and a BeautifulSoup that reads the same site off
    every page. *)
Definition sample_web (_ : list event) (_ : string) (params : option dict)
  : result string :=
  match params with
  | None => Ok "<html>Isle Royale</html>"
  | Some _ => Ok (dumps (answer_of [entry_no_address]))
  end.

Definition sample_soup_site (_ : json) : result site_page :=
  Ok (mkPage "Isle Royale" " National Park " "49931 " "Houghton" "MI"
        (nl ++ "(906) 482-0984" ++ nl)).

Definition sample_soup_state (_ : json) : result (list (result string)) :=
  Ok [Ok "/isro/"; Ok "/kewe/"].

(** An entry as the places API sends it, with its distance and position:
    0.12, 47.1211 and -88.5694. *)
Definition entry_near : json :=
  JDict [("name", JStr "Suomi Restaurant");
         ("distance", JFloat (FNum false 8646911284551352 (-56)));
         ("fields", JDict [("group_sic_code_name", JStr "Restaurants");
                           ("address", JStr "54 Huron St");
                           ("city", JStr "Houghton");
                           ("lat", JFloat (FNum false 6631705262540246 (-47)));
                           ("lng", JFloat (FNum true 6232517450569194 (-46)))])].

(** A web whose API answers with that entry. *)
Definition near_web (_ : list event) (_ : string) (params : option dict)
  : result string :=
  match params with
  | None => Ok "<html>Isle Royale</html>"
  | Some _ => Ok (dumps (answer_of [entry_near]))
  end.

Definition empty_world : world := mkWorld NoFile (JDict []) [] [].

(** A world in which the index page was fetched before: the mapping in
    memory and the file agree. *)
Definition warm : dict := [(URL, JStr "<html>index</html>")].

Definition warm_world : world :=
  mkWorld (File (dumps (JDict warm))) (JDict warm) [] [].

(** The site [get_site_instance] builds from the sample page. *)
Definition parsed_isle_royale : NationalSite.t :=
  NationalSite.mk "National Park" "Isle Royale" "Houghton, MI" "49931"
    "(906) 482-0984" None.

Definition places_url : string := "http://www.mapquestapi.com/search/v2/radius".

(** ** Further notions used in the statements *)

(** The site [get_site_instance] makes of the texts of a page. *)
Definition site_of_page (page : site_page) : NationalSite.t :=
  NationalSite.init (strip (hero_designation page)) (hero_title page)
    (locality page ++ ", " ++ region page) (strip (postal_code page))
    (tel page) None.

Definition is_dict (v : json) : bool :=
  match v with JDict _ => true | _ => false end.

(** The text under [fields.k] of an entry, when there is one. *)
Definition field_text (member : json) (k : string) : option string :=
  match getitem member "fields" with
  | Ok fields =>
      match getitem fields k with
      | Ok (JStr s) => Some s
      | _ => None
      end
  | Raise _ => None
  end.

Definition or_sentinel (sentinel : string) (text : option string) : string :=
  match text with
  | Some s => if String.eqb (strip s) "" then sentinel else strip s
  | None => sentinel
  end.

(** The places at the head of a list whose name is a string, and the lines
    [print_places] prints for them. *)
Fixpoint named_prefix (places : list NearbyPlace.t) : list NearbyPlace.t :=
  match places with
  | [] => []
  | p :: rest =>
      match NearbyPlace.name p with
      | JStr _ => p :: named_prefix rest
      | _ => []
      end
  end.

Definition place_line (p : NearbyPlace.t) : event :=
  EvPrint ("- " ++ match NearbyPlace.info p with
                   | Ok line => line
                   | Raise _ => ""
                   end).

Definition site_line (i : nat) (site : NationalSite.t) : event :=
  EvPrint ("[ " ++ str_of_nat (i + 1) ++ " ]  " ++ NationalSite.info site).

Fixpoint site_lines (i : nat) (sites : list NationalSite.t) : list event :=
  match sites with
  | [] => []
  | site :: rest => site_line i site :: site_lines (S i) rest
  end.

Definition is_input (e : event) : bool :=
  match e with EvInput _ => true | _ => false end.

(** The world after [CACHE_DICT = load_cache()] returned [c]. *)
Definition reloaded (w : world) (c : json) : world :=
  mkWorld (disk w) c (stdin w) (trace w ++ [EvOpen "r"])%list.

(** The two lines every page function starts with: reload, then fetch. *)
Definition fetch_page
           (web : list event -> string -> option dict -> result string)
           (url : string) : M json :=
  bind load_cache (fun c =>
  bind (set_CACHE_DICT c) (fun _ =>
  make_url_request_using_cache web url)).

Definition with_url (site : NationalSite.t) (u : option string) : NationalSite.t :=
  NationalSite.mk (NationalSite.category site) (NationalSite.name site)
    (NationalSite.address site) (NationalSite.zipcode site)
    (NationalSite.phone site) u.

(** The url [get_sites_for_state] builds from the link of a heading. *)
Definition link_url (link : result string) : option string :=
  match link with
  | Ok path => Some (base_url ++ path ++ "index.htm")
  | Raise _ => None
  end.

(** What ties a site of the listing to the heading it comes from: the
    heading has a link, the mapping [d] holds a page under the url built from
    that link, and the site is that page as [get_site_instance] reads it,
    with that url. *)
Definition listed_from (soup_site : json -> result site_page) (d : dict)
           (link : result string) (site : NationalSite.t) : Prop :=
  exists path text page,
    link = Ok path
    /\ dict_get (base_url ++ path ++ "index.htm") d = Some text
    /\ soup_site text = Ok page
    /\ site = with_url (site_of_page page)
                       (Some (base_url ++ path ++ "index.htm")).

(** A computation that leaves the lines to be typed alone. *)
Definition keeps_stdin {A} (m : M A) : Prop :=
  forall w, stdin (snd (m w)) = stdin w.

(** A computation that makes at most [n] requests. *)
Definition requests_at_most {A} (n : nat) (m : M A) : Prop :=
  forall w, gets (trace (snd (m w))) <= gets (trace w) + n.

(** A computation under which the mapping held by the file, where it is
    one, keeps its entries. *)
Definition keeps_entries {A} (m : M A) : Prop :=
  forall w d, stored w d ->
              exists d', stored (snd (m w)) d' /\ dict_extends d d'.

Definition is_some {A} (o : option A) : bool :=
  match o with Some _ => true | None => false end.

(** The index page of the sample web lists two states, the second twice. *)
Definition sample_soup_index (_ : json)
  : result (list (result string * string)) :=
  Ok [(Ok "/state/mi/index.htm", "Michigan");
      (Ok "/state/oh/", "Ohio");
      (Ok "/state/oh/index.htm", "OHIO")].

Definition typing (lines : list string) : world :=
  mkWorld NoFile (JDict []) lines [].

(** The world after [input(prompt)] read a line and left [rest]. *)
Definition after_input (prompt : string) (rest : list string) (w : world)
  : world :=
  mkWorld (disk w) (CACHE_DICT w) rest (trace w ++ [EvInput prompt])%list.

(** What a turn of the state prompt leaves in the trace when the name is
    not one of the dict. *)
Definition unknown_turn : list event :=
  [EvInput state_prompt; EvPrint ("[Error] Enter proper state name " ++ nl)].

Definition unknown_turns (names : list string) : list event :=
  flat_map (fun _ => unknown_turn) names.

(** A line that is neither ["exit"] nor, lower-cased, a key of the dict. *)
Definition not_a_state (states : str_dict) (line : string) : Prop :=
  lower line <> "exit" /\ str_dict_get (lower line) states = None.

(** The three lines above the list of sites. *)
Definition listing_header (state : string) : list event :=
  [EvPrint dashes; EvPrint ("List of national sites in " ++ lower state);
   EvPrint dashes].

(** The three lines above the places near a site. *)
Definition detail_header (site_name : string) : list event :=
  [EvPrint dashes; EvPrint ("Places near " ++ strip site_name); EvPrint dashes].

(** A web that is down. *)
Definition no_web (_ : list event) (_ : string) (_ : option dict)
  : result string :=
  Raise ConnectionError.

(** The places made of an answer with two entries. *)
Definition sample_places : list NearbyPlace.t :=
  [NearbyPlace.init (JStr "Suomi Restaurant") "Restaurants" "54 Huron St"
     "Houghton";
   NearbyPlace.init (JStr "Portage Lake") "" "1 Lake Rd" "Houghton"].

(** The dict made of the sample index page, and the sites of a state of
    the sample web. *)
Definition sample_states : str_dict :=
  [("michigan", "https://www.nps.gov/state/mi/index.htm");
   ("ohio", "https://www.nps.gov/state/oh/index.htm")].

Definition sample_sites : list NationalSite.t :=
  [with_url parsed_isle_royale (Some "https://www.nps.gov/isro/index.htm");
   with_url parsed_isle_royale (Some "https://www.nps.gov/kewe/index.htm")].

(** A world whose cache file is not JSON. *)
Definition broken_world : world :=
  mkWorld (File "{oops") (JDict []) ["exit"] [].

(** A world whose file holds an entry the mapping in memory does not. *)
Definition stale_world : world :=
  mkWorld (File (dumps (JDict warm))) (JDict []) [] [].

(** A site named like the url of a page. *)
Definition oddly_named : NationalSite.t :=
  NationalSite.mk "National Park" URL "Houghton, MI" "49931" "" None.

(** A session at the keyboard, over a cache file that holds the index. *)
Definition session : world :=
  mkWorld (File (dumps (JDict warm))) (JDict []) ["Ohio"; "1"; "exit"] [].

(** ** Induction over JSON values *)

Section JsonInduction.

Variable P : json -> Prop.
Hypothesis HNull : P JNull.
Hypothesis HBool : forall b, P (JBool b).
Hypothesis HInt : forall z, P (JInt z).
Hypothesis HFloat : forall x, P (JFloat x).
Hypothesis HStr : forall s, P (JStr s).
Hypothesis HList : forall l, Forall P l -> P (JList l).
Hypothesis HDict : forall d, Forall (fun kv => P (snd kv)) d -> P (JDict d).

Fixpoint json_induction (v : json) : P v :=
  match v with
  | JNull => HNull
  | JBool b => HBool b
  | JInt z => HInt z
  | JFloat x => HFloat x
  | JStr s => HStr s
  | JList l =>
      HList l
        ((fix all (l : list json) : Forall P l :=
            match l with
            | [] => Forall_nil P
            | x :: l' => Forall_cons x (json_induction x) (all l')
            end) l)
  | JDict d =>
      HDict d
        ((fix all (d : list (string * json)) : Forall (fun kv => P (snd kv)) d :=
            match d with
            | [] => Forall_nil _
            | kv :: d' => Forall_cons kv (json_induction (snd kv)) (all d')
            end) d)
  end.

End JsonInduction.

(** ** Strings: basic facts *)

Lemma append_assoc (a b c : string) : (a ++ b) ++ c = a ++ (b ++ c).
Proof. induction a as [|x a IH]; simpl; [reflexivity | now rewrite IH]. Qed.

Lemma append_nil_r (a : string) : a ++ "" = a.
Proof. induction a as [|x a IH]; simpl; [reflexivity | now rewrite IH]. Qed.

Lemma length_append (a b : string) :
  String.length (a ++ b) = String.length a + String.length b.
Proof. induction a as [|x a IH]; simpl; [reflexivity | now rewrite IH]. Qed.

(** *** Stripping *)

Lemma lstrip_first (p : ascii -> bool) (s : string) (c : ascii) :
  first_char (lstrip p s) = Some c -> p c = false.
Proof.
  induction s as [|x s IH]; simpl; [discriminate|].
  destruct (p x) eqn:E; [exact IH|].
  simpl. intros [= <-]. exact E.
Qed.

Lemma rstrip_first (p : ascii -> bool) (s : string) (c : ascii) :
  first_char (rstrip p s) = Some c -> first_char s = Some c.
Proof.
  destruct s as [|x s]; simpl; [discriminate|].
  destruct (is_empty (rstrip p s) && p x); simpl; [discriminate | trivial].
Qed.

Lemma rstrip_last (p : ascii -> bool) (s : string) (c : ascii) :
  last_char (rstrip p s) = Some c -> p c = false.
Proof.
  induction s as [|x s IH]; simpl; [discriminate|].
  destruct (rstrip p s) as [|y r] eqn:E; simpl.
  - destruct (p x) eqn:Ex; simpl; [discriminate|].
    intros [= <-]. exact Ex.
  - exact IH.
Qed.

Lemma strip_chars_no_surrounding (p : ascii -> bool) (s : string) :
  no_surrounding p (strip_chars p s).
Proof.
  unfold strip_chars. split; intros c H.
  - apply (lstrip_first p s). now apply rstrip_first in H.
  - now apply rstrip_last in H.
Qed.

(** ** Writing and reading back a string literal *)

Lemma scan_esc_char (c : ascii) (rest : string) :
  scan_string (esc_char c ++ rest) = rcons c (scan_string rest).
Proof.
  destruct c as [[|] [|] [|] [|] [|] [|] [|] [|]]; reflexivity.
Qed.

Lemma scan_string_escape (s rest : string) :
  scan_string (escape s ++ String dquote rest) = Ok (s, rest).
Proof.
  induction s as [|c s IH]; [reflexivity|].
  cbn [escape]. rewrite append_assoc, scan_esc_char, IH. reflexivity.
Qed.

Lemma expect_string_encode (s rest : string) :
  expect_string (encode_str s ++ rest) = Ok (s, rest).
Proof.
  unfold encode_str. cbn [append expect_string].
  rewrite Ascii.eqb_refl, append_assoc. apply scan_string_escape.
Qed.

Lemma esc_char_length (c : ascii) : 1 <= String.length (esc_char c).
Proof.
  destruct c as [[|] [|] [|] [|] [|] [|] [|] [|]]; cbv; lia.
Qed.

(** ** Writing and reading back a number *)

Lemma delim_no_digit (rest : string) : delim rest = true -> no_digit_ahead rest.
Proof.
  destruct rest as [|c r]; simpl; [trivial|].
  destruct c as [[|] [|] [|] [|] [|] [|] [|] [|]]; simpl; intros H;
    try discriminate; reflexivity.
Qed.

Lemma delim_no_float (rest : string) : delim rest = true -> float_follows rest = false.
Proof.
  destruct rest as [|c r]; simpl; [trivial|].
  destruct r as [|d r]; [trivial|].
  destruct c as [[|] [|] [|] [|] [|] [|] [|] [|]]; simpl; intros H;
    try discriminate; reflexivity.
Qed.

Lemma digits_all (d : uint) :
  string_forall is_digit (NilEmpty.string_of_uint d) = true.
Proof. induction d; simpl; trivial. Qed.

Lemma span_digits_all (ds rest : string) :
  string_forall is_digit ds = true -> no_digit_ahead rest ->
  span_digits (ds ++ rest) = (ds, rest).
Proof.
  intros Hd Hr. induction ds as [|c ds IH]; simpl.
  - destruct rest as [|c r]; [reflexivity|]. simpl in *. now rewrite Hr.
  - simpl in Hd. apply andb_true_iff in Hd as [Hc Hd].
    rewrite Hc, (IH Hd). reflexivity.
Qed.

Lemma nzhead_no_zero_head (u u' : uint) : nzhead u <> D0 u'.
Proof. induction u; simpl; try discriminate; assumption. Qed.

Lemma to_uint_normal (n : N) : unorm (N.to_uint n) = N.to_uint n.
Proof.
  rewrite <- (DecimalN.Unsigned.of_to n) at 2.
  symmetry. apply DecimalN.Unsigned.to_of.
Qed.

(** The decimal digits of a number start with [0] only for zero itself. *)
Lemma to_uint_zero_head (n : N) (u : uint) : N.to_uint n = D0 u -> u = Nil.
Proof.
  intros E. pose proof (to_uint_normal n) as H. rewrite E in H.
  rewrite unorm_D0 in H. unfold unorm in H.
  destruct (nzhead u) eqn:Eu;
    try (exfalso; rewrite <- Eu in H; exact (nzhead_no_zero_head _ _ H)).
  now injection H.
Qed.

Lemma to_uint_nonnil (n : N) : N.to_uint n <> Nil.
Proof.
  destruct n; simpl; [discriminate | apply DecimalPos.Unsigned.to_uint_nonnil].
Qed.

Lemma scan_magnitude_digits (n : N) (rest : string) :
  no_digit_ahead rest ->
  scan_magnitude (NilEmpty.string_of_uint (N.to_uint n) ++ rest) = Some (n, rest).
Proof.
  intros Hr.
  pose proof (DecimalN.Unsigned.of_to n) as Hof.
  pose proof (digits_all (N.to_uint n)) as Hall.
  pose proof (NilEmpty.usu (N.to_uint n)) as Husu.
  destruct (N.to_uint n) as [|u|u|u|u|u|u|u|u|u|u] eqn:E;
    [ now apply to_uint_nonnil in E
    | apply to_uint_zero_head in E; subst u; simpl in Hof; subst n; reflexivity
    | .. ];
    unfold scan_magnitude;
    match goal with
    | |- context [NilEmpty.string_of_uint ?d ++ rest] =>
        change (NilEmpty.string_of_uint d ++ rest)
          with (String (match NilEmpty.string_of_uint d with
                        | String c _ => c | EmptyString => "0"%char end)
                  (NilEmpty.string_of_uint u ++ rest));
        cbn [NilEmpty.string_of_uint Ascii.eqb Bool.eqb is_digit in_range code
             N_of_ascii N_of_digits];
        cbn - [span_digits NilEmpty.uint_of_string N.of_uint append
               NilEmpty.string_of_uint];
        change (String ?c (NilEmpty.string_of_uint u ++ rest))
          with (NilEmpty.string_of_uint d ++ rest)
    end;
    rewrite (span_digits_all _ rest Hall Hr), Husu, Hof; reflexivity.
Qed.

Lemma digits_head (n : N) :
  exists c r, NilEmpty.string_of_uint (N.to_uint n) = String c r /\ is_digit c = true.
Proof.
  pose proof (digits_all (N.to_uint n)) as Hall.
  destruct (NilEmpty.string_of_uint (N.to_uint n)) as [|c r] eqn:E.
  - exfalso. apply (to_uint_nonnil n).
    destruct (N.to_uint n); simpl in E; try discriminate; reflexivity.
  - simpl in Hall. apply andb_true_iff in Hall as [Hc _]. now exists c, r.
Qed.

Lemma digit_not_minus (c : ascii) : is_digit c = true -> Ascii.eqb c "-" = false.
Proof.
  destruct c as [[|] [|] [|] [|] [|] [|] [|] [|]]; simpl; intros H;
    try discriminate; reflexivity.
Qed.

Lemma scan_number_dumps_int (z : Z) (rest : string) :
  delim rest = true ->
  scan_number (dumps_int z ++ rest) = Ok (JInt z, rest).
Proof.
  intros Hd. unfold dumps_int.
  destruct (digits_head (Z.abs_N z)) as (c & r & E & Hc).
  pose proof (scan_magnitude_digits (Z.abs_N z) rest (delim_no_digit _ Hd)) as Hm.
  destruct (z <? 0)%Z eqn:Ez.
  - unfold scan_number. cbn [append]. rewrite Ascii.eqb_refl, Hm.
    rewrite (delim_no_float _ Hd). do 2 f_equal.
    apply Z.ltb_lt in Ez. rewrite N2Z.inj_abs_N. f_equal. lia.
  - unfold scan_number. rewrite E in *. cbn [append] in *.
    rewrite (digit_not_minus _ Hc), Hm, (delim_no_float _ Hd). do 2 f_equal.
    apply Z.ltb_ge in Ez. rewrite N2Z.inj_abs_N. f_equal. lia.
Qed.

Lemma parse_value_number (f : nat) (c : ascii) (r : string) :
  is_digit c || Ascii.eqb c "-" = true ->
  parse_value (S f) (String c r) = scan_number (String c r).
Proof.
  destruct c as [[|] [|] [|] [|] [|] [|] [|] [|]]; simpl; intros H;
    try discriminate; reflexivity.
Qed.

Lemma parse_value_dumps_int (f : nat) (z : Z) (rest : string) :
  delim rest = true ->
  parse_value (S f) (dumps_int z ++ rest) = Ok (JInt z, rest).
Proof.
  intros Hd. rewrite <- (scan_number_dumps_int z rest Hd).
  unfold dumps_int.
  destruct (digits_head (Z.abs_N z)) as (c & r & E & Hc).
  destruct (z <? 0)%Z.
  - cbn [append]. now apply parse_value_number.
  - rewrite E. cbn [append]. apply parse_value_number. now rewrite Hc.
Qed.

(** ** Rounding to a float *)

Lemma div_eucl_pair (a b : Z) : Z.div_eucl a b = ((a / b)%Z, (a mod b)%Z).
Proof. unfold Z.div, Z.modulo. now destruct (Z.div_eucl a b). Qed.

(** Whatever is rounded, the result is a number of the format. *)
Lemma round_ratio_ok (neg : bool) (n d : Z) :
  (0 < n)%Z -> (0 < d)%Z -> float_ok (round_ratio neg n d) = true.
Proof.
  intros Hn Hd. unfold round_ratio.
  set (n' := (n * 2 ^ 1074)%Z).
  set (Q0 := (n' / d)%Z).
  set (k := Z.max 0 (Z.log2 Q0 - 52)).
  set (den := (d * 2 ^ k)%Z).
  rewrite div_eucl_pair.
  set (q := (n' / den)%Z). set (r := (n' mod den)%Z).
  assert (Hk : (0 <= k)%Z) by (unfold k; lia).
  assert (Hn' : (0 < n')%Z)
    by (unfold n'; apply Z.mul_pos_pos; [lia | now apply Z.pow_pos_nonneg]).
  assert (H2k : (0 < 2 ^ k)%Z) by (now apply Z.pow_pos_nonneg).
  assert (HQ0 : (0 <= Q0)%Z) by (unfold Q0; apply Z.div_pos; lia).
  assert (Eq : q = (Q0 / 2 ^ k)%Z).
  { unfold q, Q0, den. symmetry. apply Z.div_div; lia. }
  assert (Hq0 : (0 <= q)%Z) by (rewrite Eq; apply Z.div_pos; lia).
  assert (Hupper : (q < 2 ^ 53)%Z).
  { rewrite Eq. apply Z.div_lt_upper_bound; [lia|].
    rewrite <- Z.pow_add_r by lia.
    destruct (Z.eq_dec Q0 0) as [->|Hne].
    - apply Z.pow_pos_nonneg; lia.
    - destruct (Z.log2_spec Q0 ltac:(lia)) as [_ Hlt].
      eapply Z.lt_le_trans; [exact Hlt|].
      apply Z.pow_le_mono_r; unfold k; lia. }
  assert (Hlower : (0 < k)%Z -> (2 ^ 52 <= q)%Z).
  { intros Hkp. rewrite Eq. apply Z.div_le_lower_bound; [lia|].
    rewrite <- Z.pow_add_r by lia.
    assert (Hl : Z.log2 Q0 = (k + 52)%Z) by (unfold k in *; lia).
    assert (0 < Q0)%Z.
    { destruct (Z.eq_dec Q0 0) as [E|E]; [|lia].
      rewrite E in Hl. cbn in Hl. lia. }
    destruct (Z.log2_spec Q0 ltac:(lia)) as [Hle _].
    rewrite Hl in Hle. exact Hle. }
  set (up := (den <? 2 * r)%Z || ((den =? 2 * r)%Z && Z.odd q)).
  set (q' := if up then (q + 1)%Z else q).
  assert (Hq' : (q <= q' <= q + 1)%Z) by (unfold q'; destruct up; lia).
  assert (P53 : (2 ^ 53 = 9007199254740992)%Z) by reflexivity.
  assert (P52 : (2 ^ 52 = 4503599627370496)%Z) by reflexivity.
  destruct (q' =? 2 ^ 53)%Z eqn:E53.
  - destruct (2045 <? k + 1)%Z eqn:Ek; [reflexivity|].
    apply Z.ltb_ge in Ek. rewrite P52 at 1. cbn [Z.eqb].
    unfold float_ok. rewrite P52, P53.
    repeat (apply andb_true_iff; split); try (apply Z.ltb_lt; lia);
      try (apply Z.leb_le; lia).
    apply orb_true_iff. left. apply Z.leb_le. lia.
  - apply Z.eqb_neq in E53.
    destruct (2045 <? k)%Z eqn:Ek; [reflexivity|]. apply Z.ltb_ge in Ek.
    destruct (q' =? 0)%Z eqn:E0; [reflexivity|]. apply Z.eqb_neq in E0.
    unfold float_ok. rewrite P52, P53 in *.
    repeat (apply andb_true_iff; split); try (apply Z.ltb_lt; lia);
      try (apply Z.leb_le; lia).
    apply orb_true_iff. destruct (Z.eq_dec k 0) as [->|Hk0].
    + right. reflexivity.
    + left. apply Z.leb_le. specialize (Hlower ltac:(lia)). lia.
Qed.

(** A ratio that is a number of the format is rounded to itself. *)
Lemma round_ratio_exact (neg : bool) (n d m k : Z) :
  (0 < d)%Z -> (0 < m < 2 ^ 53)%Z -> (0 <= k <= 2045)%Z ->
  (2 ^ 52 <= m)%Z \/ k = 0%Z ->
  (n * 2 ^ 1074 = m * (d * 2 ^ k))%Z ->
  round_ratio neg n d = FNum neg m (k - 1074).
Proof.
  intros Hd Hm Hk Hnorm E. unfold round_ratio. rewrite E.
  assert (P53 : (2 ^ 53 = 9007199254740992)%Z) by reflexivity.
  assert (P52 : (2 ^ 52 = 4503599627370496)%Z) by reflexivity.
  assert (H2k : (0 < 2 ^ k)%Z) by (apply Z.pow_pos_nonneg; lia).
  assert (EQ0 : (m * (d * 2 ^ k) / d = m * 2 ^ k)%Z).
  { replace (m * (d * 2 ^ k))%Z with (m * 2 ^ k * d)%Z by ring.
    apply Z.div_mul. lia. }
  rewrite EQ0.
  assert (Elog : Z.max 0 (Z.log2 (m * 2 ^ k) - 52) = k).
  { rewrite Z.log2_mul_pow2 by lia.
    destruct Hnorm as [Hge | ->].
    - assert (Z.log2 m = 52%Z).
      { apply Z.log2_unique; [lia|]. rewrite P52 in *.
        change (2 ^ Z.succ 52)%Z with (2 ^ 53)%Z. lia. }
      lia.
    - assert (0 <= Z.log2 m)%Z by apply Z.log2_nonneg.
      assert (Z.log2 m < 53)%Z by (apply Z.log2_lt_pow2; lia).
      lia. }
  rewrite Elog, div_eucl_pair.
  rewrite Z.div_mul by lia. rewrite Z.mod_mul by lia.
  replace (d * 2 ^ k <? 2 * 0)%Z with false by (symmetry; apply Z.ltb_ge; lia).
  replace (d * 2 ^ k =? 2 * 0)%Z with false by (symmetry; apply Z.eqb_neq; lia).
  cbn [orb andb].
  replace (m =? 2 ^ 53)%Z with false by (symmetry; apply Z.eqb_neq; lia).
  replace (2045 <? k)%Z with false by (symmetry; apply Z.ltb_ge; lia).
  replace (m =? 0)%Z with false by (symmetry; apply Z.eqb_neq; lia).
  reflexivity.
Qed.

Lemma float_ok_num (neg : bool) (m e : Z) :
  float_ok (FNum neg m e) = true ->
  (0 < m < 2 ^ 53)%Z /\ (-1074 <= e <= 971)%Z
  /\ ((2 ^ 52 <= m)%Z \/ e = (-1074)%Z).
Proof.
  unfold float_ok. intros H.
  apply andb_true_iff in H as [H Hn]. apply andb_true_iff in H as [H He2].
  apply andb_true_iff in H as [H He1]. apply andb_true_iff in H as [Hm1 Hm2].
  apply Z.ltb_lt in Hm1, Hm2. apply Z.leb_le in He1, He2.
  apply orb_true_iff in Hn as [Hn|Hn];
    [apply Z.leb_le in Hn | apply Z.eqb_eq in Hn]; auto.
Qed.

(** The number written out in full is read as the number. *)
Lemma float_of_exact_decimal (neg : bool) (m e : Z) :
  float_ok (FNum neg m e) = true ->
  float_of_decimal neg (fst (exact_decimal m e)) (snd (exact_decimal m e))
  = FNum neg m e.
Proof.
  intros H. apply float_ok_num in H as (Hm & He & Hn).
  unfold exact_decimal, float_of_decimal.
  destruct (0 <=? e)%Z eqn:E0; cbn [fst snd].
  - apply Z.leb_le in E0.
    assert (Hp : (0 < 2 ^ e)%Z) by (apply Z.pow_pos_nonneg; lia).
    replace (m * 2 ^ e =? 0)%Z with false by (symmetry; apply Z.eqb_neq; nia).
    cbn [Z.leb Z.compare].
    replace (0 + Z.log2 (m * 2 ^ e) <=? -1100)%Z with false.
    2:{ symmetry. apply Z.leb_gt.
        pose proof (Z.log2_nonneg (m * 2 ^ e)). lia. }
    change (10 ^ 0)%Z with 1%Z. rewrite Z.mul_1_r.
    replace e with (e + 1074 - 1074)%Z at 2 by lia.
    apply round_ratio_exact; try lia.
    rewrite Z.pow_add_r by lia. ring.
  - apply Z.leb_gt in E0.
    assert (Hp : (0 < 5 ^ (- e))%Z) by (apply Z.pow_pos_nonneg; lia).
    replace (m * 5 ^ (- e) =? 0)%Z with false by (symmetry; apply Z.eqb_neq; nia).
    replace (310 <=? e)%Z with false by (symmetry; apply Z.leb_gt; lia).
    replace (e + Z.log2 (m * 5 ^ (- e)) <=? -1100)%Z with false.
    2:{ symmetry. apply Z.leb_gt.
        pose proof (Z.log2_nonneg (m * 5 ^ (- e))). lia. }
    replace (0 <=? e)%Z with false by (symmetry; apply Z.leb_gt; lia).
    replace e with (e + 1074 - 1074)%Z at 3 by lia.
    apply round_ratio_exact; try lia; try (apply Z.pow_pos_nonneg; lia).
    change 10%Z with (2 * 5)%Z. rewrite Z.pow_mul_l.
    replace (2 ^ 1074)%Z with (2 ^ (- e) * 2 ^ (e + 1074))%Z
      by (rewrite <- Z.pow_add_r by lia; f_equal; lia).
    ring.
Qed.

(** ** Writing and reading back a float *)

Lemma number_of_digits (z : Z) : (0 <= z)%Z -> number_of (digits_of z) = z.
Proof.
  intros H. unfold number_of, digits_of.
  rewrite NilEmpty.usu, DecimalN.Unsigned.of_to. now apply Z2N.id.
Qed.

Lemma digits_of_head (z : Z) :
  exists c r, digits_of z = String c r /\ is_digit c = true.
Proof. apply digits_head. Qed.

Lemma digits_of_all (z : Z) : string_forall is_digit (digits_of z) = true.
Proof. apply digits_all. Qed.

Lemma span_digits_app (s rest : string) :
  no_digit_ahead rest ->
  span_digits (s ++ rest)
  = (fst (span_digits s), snd (span_digits s) ++ rest).
Proof.
  intros Hr. induction s as [|c s IH]; cbn [append span_digits].
  - destruct rest as [|c r]; [reflexivity|]. cbn in *. now rewrite Hr.
  - destruct (is_digit c); [|reflexivity].
    rewrite IH. now destruct (span_digits s).
Qed.

Lemma delim_ends_number (rest : string) : delim rest = true -> ends_number rest.
Proof.
  destruct rest as [|c r]; simpl; [trivial|].
  destruct c as [[|] [|] [|] [|] [|] [|] [|] [|]]; simpl; intros H;
    try discriminate; repeat split.
Qed.

Lemma ends_number_no_digit (rest : string) : ends_number rest -> no_digit_ahead rest.
Proof. destruct rest; simpl; tauto. Qed.

Lemma scan_magnitude_app (s rest : string) (n : N) (r : string) :
  no_digit_ahead rest ->
  scan_magnitude s = Some (n, r) -> scan_magnitude (s ++ rest) = Some (n, r ++ rest).
Proof.
  intros Hr. destruct s as [|c s]; [discriminate|].
  unfold scan_magnitude. cbn [append].
  destruct (Ascii.eqb c "0"); [now intros [= <- <-]|].
  destruct (is_digit c) eqn:Hc; [|discriminate].
  change (String c (s ++ rest)) with (String c s ++ rest).
  rewrite (span_digits_app _ rest Hr).
  destruct (span_digits (String c s)) as [ds r0]. cbn [fst snd].
  destruct (NilEmpty.uint_of_string ds); [|discriminate].
  now intros [= <- <-].
Qed.

Lemma float_follows_app (s rest : string) :
  float_follows s = true -> float_follows (s ++ rest) = true.
Proof.
  destruct s as [|c [|d s]]; try discriminate. cbn [append float_follows].
  destruct (Ascii.eqb c "."); [trivial|].
  destruct (Ascii.eqb c "e" || Ascii.eqb c "E"); [|trivial].
  destruct (is_digit d); [trivial|]. cbn [orb].
  destruct (Ascii.eqb d "+" || Ascii.eqb d "-"); [|trivial]. cbn [andb].
  now destruct s.
Qed.

Lemma scan_frac_app (s rest : string) :
  ends_number rest ->
  scan_frac (s ++ rest) = (fst (scan_frac s), snd (scan_frac s) ++ rest).
Proof.
  intros Hr. pose proof (ends_number_no_digit _ Hr) as Hd.
  destruct s as [|c s]; cbn [append scan_frac].
  - destruct rest as [|c r]; [reflexivity|]. cbn in *.
    destruct Hr as (_ & -> & _). reflexivity.
  - destruct (Ascii.eqb c "."); [|reflexivity].
    rewrite (span_digits_app s rest Hd).
    destruct (span_digits s) as [ds r]. cbn [fst snd].
    now destruct (is_empty ds).
Qed.

Lemma scan_exp_app (s rest : string) :
  ends_number rest ->
  scan_exp (s ++ rest) = (fst (scan_exp s), snd (scan_exp s) ++ rest).
Proof.
  intros Hr. pose proof (ends_number_no_digit _ Hr) as Hd.
  assert (Hnil : span_digits rest = (EmptyString, rest)).
  { destruct rest as [|c r]; [reflexivity|]. cbn in *. now rewrite Hd. }
  destruct s as [|c s]; cbn [append scan_exp].
  - destruct rest as [|c r]; [reflexivity|]. cbn in *.
    destruct Hr as (_ & _ & -> & -> & _). reflexivity.
  - destruct (Ascii.eqb c "e" || Ascii.eqb c "E"); [|reflexivity].
    destruct s as [|d s]; cbn [append].
    + destruct rest as [|c' r]; [reflexivity|].
      cbn in Hr. destruct Hr as (Hdig & _ & _ & _ & Hplus & Hminus).
      rewrite Hminus, Hplus. cbn [span_digits]. rewrite Hdig. reflexivity.
    + destruct (Ascii.eqb d "-");
        [| destruct (Ascii.eqb d "+")];
        match goal with
        | |- context [span_digits (?b ++ rest)] =>
            rewrite (span_digits_app b rest Hd);
            destruct (span_digits b) as [ds r]; cbn [fst snd];
            now destruct (is_empty ds)
        | |- context [span_digits (String d (s ++ rest))] =>
            change (String d (s ++ rest)) with (String d s ++ rest);
            rewrite (span_digits_app (String d s) rest Hd);
            destruct (span_digits (String d s)) as [ds r]; cbn [fst snd];
            now destruct (is_empty ds)
        end.
Qed.

Lemma starts_with_app (p s rest : string) :
  starts_with p s = true -> starts_with p (s ++ rest) = true.
Proof.
  revert s. induction p as [|a p IH]; intros s; [reflexivity|].
  destruct s as [|b s]; [discriminate|]. cbn [append starts_with].
  destruct (Ascii.eqb a b); [apply IH | discriminate].
Qed.

Lemma starts_with_drop_app (p s rest : string) :
  starts_with p s = true ->
  drop (String.length p) (s ++ rest) = drop (String.length p) s ++ rest.
Proof.
  revert s. induction p as [|a p IH]; intros s; [reflexivity|].
  destruct s as [|b s]; [discriminate|]. cbn [append starts_with String.length drop].
  destruct (Ascii.eqb a b); [apply IH | discriminate].
Qed.

Lemma scan_magnitude_none_app (s rest : string) :
  s <> EmptyString -> no_digit_ahead rest ->
  scan_magnitude s = None -> scan_magnitude (s ++ rest) = None.
Proof.
  destruct s as [|c s]; [congruence|]. intros _ Hd.
  unfold scan_magnitude. cbn [append].
  destruct (Ascii.eqb c "0"); [discriminate|].
  destruct (is_digit c) eqn:Hc; [|reflexivity].
  change (String c (s ++ rest)) with (String c s ++ rest).
  rewrite (span_digits_app _ rest Hd).
  destruct (span_digits (String c s)) as [ds r]. cbn [fst].
  now destruct (NilEmpty.uint_of_string ds).
Qed.

Lemma starts_with_eq (p s : string) :
  starts_with p s = true -> s = p ++ drop (String.length p) s.
Proof.
  revert s. induction p as [|a p IH]; intros s; [reflexivity|].
  destruct s as [|b s]; [discriminate|]. cbn [starts_with String.length drop append].
  destruct (Ascii.eqb a b) eqn:E; [|discriminate].
  apply Ascii.eqb_eq in E. subst b. intros H. f_equal. now apply IH.
Qed.

(** The number or constant after the sign, as [scan_number] reads it. *)
Lemma scan_number_tail (neg : bool) (body whole rest : string) (v : json) :
  ends_number rest -> body <> EmptyString ->
  match scan_magnitude body with
  | Some (n, rest0) =>
      if float_follows rest0
      then let (frac, rest1) := scan_frac rest0 in
           let (exp, rest2) := scan_exp rest1 in
           Ok (JFloat (float_of_literal neg (Z.of_N n) frac exp), rest2)
      else Ok (JInt (if neg then (- Z.of_N n)%Z else Z.of_N n), rest0)
  | None =>
      if starts_with "NaN" whole then Ok (JFloat FNan, drop 3 whole)
      else if starts_with "Infinity" whole
      then Ok (JFloat (FInf false), drop 8 whole)
      else if starts_with "-Infinity" whole
      then Ok (JFloat (FInf true), drop 9 whole)
      else Raise JSONDecodeError
  end = Ok (v, EmptyString) ->
  match scan_magnitude (body ++ rest) with
  | Some (n, rest0) =>
      if float_follows rest0
      then let (frac, rest1) := scan_frac rest0 in
           let (exp, rest2) := scan_exp rest1 in
           Ok (JFloat (float_of_literal neg (Z.of_N n) frac exp), rest2)
      else Ok (JInt (if neg then (- Z.of_N n)%Z else Z.of_N n), rest0)
  | None =>
      if starts_with "NaN" (whole ++ rest)
      then Ok (JFloat FNan, drop 3 (whole ++ rest))
      else if starts_with "Infinity" (whole ++ rest)
      then Ok (JFloat (FInf false), drop 8 (whole ++ rest))
      else if starts_with "-Infinity" (whole ++ rest)
      then Ok (JFloat (FInf true), drop 9 (whole ++ rest))
      else Raise JSONDecodeError
  end = Ok (v, rest).
Proof.
  intros Hr Hb. pose proof (ends_number_no_digit _ Hr) as Hd.
  destruct (scan_magnitude body) as [[n r0]|] eqn:Em.
  - rewrite (scan_magnitude_app body rest n r0 Hd Em).
    destruct (float_follows r0) eqn:Ef.
    + rewrite (float_follows_app r0 rest Ef).
      rewrite (scan_frac_app r0 rest Hr).
      destruct (scan_frac r0) as [frac r1]. cbn [fst snd].
      rewrite (scan_exp_app r1 rest Hr).
      destruct (scan_exp r1) as [x r2]. cbn [fst snd].
      now intros [= <- ->].
    + intros [= <- ->]. cbn [append].
      assert (Hf : float_follows rest = false).
      { destruct rest as [|a [|b r]]; try reflexivity.
        cbn in Hr. destruct Hr as (_ & H1 & H2 & H3 & _).
        cbn [float_follows]. now rewrite H1, H2, H3. }
      now rewrite Hf.
  - rewrite (scan_magnitude_none_app body rest Hb Hd Em).
    destruct (starts_with "NaN" whole) eqn:E1.
    { apply starts_with_eq in E1. intros [= <- Hdrop].
      change (drop 3 whole = "") in Hdrop.
      assert (whole = "NaN")
        by (transitivity ("NaN" ++ drop 3 whole);
            [exact E1 | now rewrite Hdrop]).
      subst whole. reflexivity. }
    destruct (starts_with "Infinity" whole) eqn:E2.
    { apply starts_with_eq in E2. intros [= <- Hdrop].
      change (drop 8 whole = "") in Hdrop.
      assert (whole = "Infinity")
        by (transitivity ("Infinity" ++ drop 8 whole);
            [exact E2 | now rewrite Hdrop]).
      subst whole. reflexivity. }
    destruct (starts_with "-Infinity" whole) eqn:E3; [|discriminate].
    apply starts_with_eq in E3. intros [= <- Hdrop].
    change (drop 9 whole = "") in Hdrop.
    assert (whole = "-Infinity")
      by (transitivity ("-Infinity" ++ drop 9 whole);
            [exact E3 | now rewrite Hdrop]).
    subst whole. reflexivity.
Qed.

(** A number that is all of [s] is the number at the head of [s ++ rest],
    when [rest] cannot go on with it. *)
Lemma scan_number_app (s rest : string) (v : json) :
  ends_number rest ->
  scan_number s = Ok (v, EmptyString) ->
  scan_number (s ++ rest) = Ok (v, rest).
Proof.
  intros Hr. destruct s as [|c s]; [discriminate|].
  unfold scan_number. cbn [append].
  destruct (Ascii.eqb c "-") eqn:Ec.
  - destruct s as [|d s]; [apply Ascii.eqb_eq in Ec; subst c; discriminate|].
    change (String c (String d s ++ rest)) with (String c (String d s) ++ rest).
    apply scan_number_tail; [exact Hr | discriminate].
  - change (String c (s ++ rest)) with (String c s ++ rest).
    apply scan_number_tail; [exact Hr | discriminate].
Qed.

Lemma digit_not_plus (c : ascii) : is_digit c = true -> Ascii.eqb c "+" = false.
Proof.
  destruct c as [[|] [|] [|] [|] [|] [|] [|] [|]]; simpl; intros H;
    try discriminate; reflexivity.
Qed.

Lemma span_digits_only (ds : string) :
  string_forall is_digit ds = true -> span_digits ds = (ds, EmptyString).
Proof.
  intros H. rewrite <- (append_nil_r ds) at 1.
  now apply span_digits_all.
Qed.

(** The exponent written as a sign and digits is read back. *)
Lemma scan_exp_digits (E0 : Z) :
  scan_exp ("e" ++ (if (E0 <? 0)%Z then "-" else "") ++ digits_of (Z.abs E0))
  = (E0, EmptyString).
Proof.
  destruct (digits_of_head (Z.abs E0)) as (c & r & E & Hc).
  pose proof (digits_of_all (Z.abs E0)) as Hall.
  pose proof (number_of_digits (Z.abs E0) (Z.abs_nonneg E0)) as Hnum.
  cbn [append scan_exp Ascii.eqb Bool.eqb orb].
  destruct (E0 <? 0)%Z eqn:Es; cbn [append].
  - rewrite Ascii.eqb_refl, (span_digits_only _ Hall), E. cbn [is_empty].
    rewrite <- E, Hnum. apply Z.ltb_lt in Es. f_equal. lia.
  - rewrite E, (digit_not_minus _ Hc), (digit_not_plus _ Hc), <- E.
    rewrite (span_digits_only _ Hall), E. cbn [is_empty].
    rewrite <- E, Hnum. apply Z.ltb_ge in Es. f_equal. lia.
Qed.

Lemma scan_exact (neg : bool) (X E0 : Z) :
  (0 < X)%Z ->
  scan_number ((if neg then "-" else "") ++ digits_of X ++ "e"
                 ++ (if (E0 <? 0)%Z then "-" else "") ++ digits_of (Z.abs E0))
  = Ok (JFloat (float_of_decimal neg X E0), EmptyString).
Proof.
  intros HX.
  set (tail := "e" ++ (if (E0 <? 0)%Z then "-" else "") ++ digits_of (Z.abs E0)).
  assert (Ht : exists t, tail = String "e" t) by (now eexists).
  assert (Hm : scan_magnitude (digits_of X ++ tail) = Some (Z.to_N X, tail)).
  { apply scan_magnitude_digits. destruct Ht as [t ->]. reflexivity. }
  assert (Hf : float_follows tail = true).
  { unfold tail. destruct (digits_of_head (Z.abs E0)) as (c & r & E & Hc).
    rewrite E. destruct (E0 <? 0)%Z; cbn [append float_follows Ascii.eqb Bool.eqb orb andb];
      rewrite Hc; reflexivity. }
  assert (Hfr : scan_frac tail = (EmptyString, tail))
    by (destruct Ht as [t ->]; reflexivity).
  assert (Hex : scan_exp tail = (E0, EmptyString)) by apply scan_exp_digits.
  assert (Hval : float_of_literal neg (Z.of_N (Z.to_N X)) "" E0
                 = float_of_decimal neg X E0).
  { unfold float_of_literal. cbn [String.length Z.of_nat].
    rewrite Z2N.id by lia. change (number_of "") with 0%Z.
    change (10 ^ 0)%Z with 1%Z. f_equal; lia. }
  destruct (digits_of_head X) as (c & r & E & Hc).
  unfold scan_number. destruct neg; cbn [append].
  - rewrite Ascii.eqb_refl, Hm, Hf, Hfr, Hex, Hval. reflexivity.
  - rewrite E. cbn [append]. rewrite (digit_not_minus _ Hc).
    change (String c (r ++ tail)) with (String c r ++ tail). rewrite <- E.
    rewrite Hm, Hf, Hfr, Hex, Hval. reflexivity.
Qed.

Lemma exact_literal_reads (neg : bool) (m e : Z) :
  float_ok (FNum neg m e) = true ->
  scan_number (exact_literal neg m e) = Ok (JFloat (FNum neg m e), EmptyString).
Proof.
  intros H. pose proof (float_of_exact_decimal neg m e H) as Hv.
  unfold exact_literal. destruct (exact_decimal m e) as [X E0] eqn:Ee.
  cbn [fst snd] in Hv. rewrite <- Hv. apply scan_exact.
  apply float_ok_num in H as (Hm & He & _).
  unfold exact_decimal in Ee. destruct (0 <=? e)%Z eqn:E0';
    injection Ee as <- <-.
  - apply Z.mul_pos_pos; [lia | apply Z.pow_pos_nonneg; [lia | now apply Z.leb_le]].
  - apply Z.mul_pos_pos; [lia | apply Z.pow_pos_nonneg; lia].
Qed.

Lemma pyfloat_eqb_eq (x y : pyfloat) : pyfloat_eqb x y = true -> x = y.
Proof.
  destruct x as [|a|a|a m e], y as [|b|b|b m' e']; cbn; try discriminate;
    try reflexivity.
  - intros H. apply Bool.eqb_prop in H. now subst.
  - intros H. apply Bool.eqb_prop in H. now subst.
  - intros H. apply andb_true_iff in H as [H He]. apply andb_true_iff in H as [Hb Hm].
    apply Bool.eqb_prop in Hb. apply Z.eqb_eq in Hm, He. now subst.
Qed.

Lemma reads_as_scan (x : pyfloat) (s : string) :
  reads_as x s = true -> scan_number s = Ok (JFloat x, EmptyString).
Proof.
  unfold reads_as. destruct (scan_number s) as [[v r]|e]; [|discriminate].
  destruct v; try discriminate. destruct r; [|discriminate].
  intros H. apply pyfloat_eqb_eq in H. now subst.
Qed.

Lemma first_reading_as_reads (x : pyfloat) (cands : list string) (last : string) :
  scan_number last = Ok (JFloat x, EmptyString) ->
  scan_number (first_reading_as x cands last) = Ok (JFloat x, EmptyString).
Proof.
  intros Hl. induction cands as [|s cands IH]; cbn [first_reading_as]; [exact Hl|].
  destruct (reads_as x s) eqn:E; [now apply reads_as_scan | exact IH].
Qed.

(** What [repr] writes for a float of the format reads as that float. *)
Lemma float_repr_reads (x : pyfloat) :
  float_ok x = true ->
  scan_number (float_repr x) = Ok (JFloat x, EmptyString).
Proof.
  destruct x as [|[|]|[|]|neg m e]; intros H; try reflexivity.
  cbn [float_repr]. apply first_reading_as_reads. now apply exact_literal_reads.
Qed.

Lemma scan_number_start (s : string) (v : json) (r : string) :
  scan_number s = Ok (v, r) ->
  exists c s', s = String c s' /\ number_start c = true.
Proof.
  destruct s as [|c s']; [discriminate|]. intros H. exists c, s'. split; [reflexivity|].
  destruct c as [[|] [|] [|] [|] [|] [|] [|] [|]]; try reflexivity;
    cbn in H; discriminate H.
Qed.

Lemma parse_value_number_start (f : nat) (c : ascii) (r : string) :
  number_start c = true ->
  parse_value (S f) (String c r) = scan_number (String c r).
Proof.
  destruct c as [[|] [|] [|] [|] [|] [|] [|] [|]]; simpl; intros H;
    try discriminate; reflexivity.
Qed.

Lemma parse_value_dumps_float (f : nat) (x : pyfloat) (rest : string) :
  float_ok x = true -> delim rest = true ->
  parse_value (S f) (float_repr x ++ rest) = Ok (JFloat x, rest).
Proof.
  intros Hx Hd. pose proof (float_repr_reads x Hx) as Hs.
  destruct (scan_number_start _ _ _ Hs) as (c & s' & E & Hc).
  rewrite <- (scan_number_app _ rest _ (delim_ends_number _ Hd) Hs).
  rewrite E. cbn [append]. now apply parse_value_number_start.
Qed.

Lemma float_of_literal_ok (neg : bool) (n : N) (frac : string) (exp : Z) :
  float_ok (float_of_literal neg (Z.of_N n) frac exp) = true.
Proof.
  unfold float_of_literal, float_of_decimal.
  set (nf := Z.of_nat (String.length frac)).
  set (D := (Z.of_N n * 10 ^ nf + number_of frac)%Z).
  assert (HD : (0 <= D)%Z).
  { unfold D. assert (0 <= number_of frac)%Z.
    { unfold number_of. destruct (NilEmpty.uint_of_string frac); lia. }
    assert (0 <= 10 ^ nf)%Z by (apply Z.pow_nonneg; lia).
    nia. }
  destruct (D =? 0)%Z eqn:E0; [reflexivity|]. apply Z.eqb_neq in E0.
  destruct (310 <=? exp - nf)%Z; [reflexivity|].
  destruct (exp - nf + Z.log2 D <=? -1100)%Z; [reflexivity|].
  destruct (0 <=? exp - nf)%Z eqn:Ee.
  - apply round_ratio_ok; [|lia]. apply Z.leb_le in Ee.
    apply Z.mul_pos_pos; [lia | apply Z.pow_pos_nonneg; lia].
  - apply round_ratio_ok; [lia|]. apply Z.leb_gt in Ee.
    apply Z.pow_pos_nonneg; lia.
Qed.

(** ** Reading back what [dumps] wrote *)

Lemma dumps_start (v : json) :
  exists c r, dumps v = String c r /\ value_start c = true.
Proof.
  destruct v as [|[|]|z|x|s|l|d]; cbn [dumps];
    try (eexists; eexists; split; [reflexivity | reflexivity]).
  - unfold dumps_int.
    destruct (digits_head (Z.abs_N z)) as (c & r & E & Hc).
    destruct (z <? 0)%Z.
    + eexists; eexists; split; [reflexivity | reflexivity].
    + exists c, r. split; [exact E|]. unfold value_start. now rewrite Hc.
  - assert (Hs : forall s v r, scan_number s = Ok (v, r) ->
                   exists c s', s = String c s' /\ value_start c = true).
    { intros s v r H. destruct (scan_number_start s v r H) as (c & s' & -> & Hc).
      exists c, s'. split; [reflexivity|]. revert Hc.
      unfold number_start, value_start.
      destruct (is_digit c), (Ascii.eqb c "-"), (Ascii.eqb c "N"),
        (Ascii.eqb c "I"); cbn; try discriminate;
        intros _; rewrite ?orb_true_r; reflexivity. }
    destruct x as [|[|]|[|]|neg m e];
      try (eexists; eexists; split; [reflexivity | reflexivity]).
    cbn [float_repr].
    assert (Hl : exists c s', exact_literal neg m e = String c s'
                              /\ value_start c = true).
    { unfold exact_literal. destruct (exact_decimal m e) as [X E0].
      destruct (digits_of_head X) as (c & r & E & Hc). destruct neg.
      - eexists; eexists; split; [reflexivity | reflexivity].
      - rewrite E. eexists; eexists; split; [reflexivity|].
        unfold value_start. now rewrite Hc. }
    induction (candidates neg m e) as [|s cands IH]; cbn [first_reading_as];
      [exact Hl|].
    destruct (reads_as (FNum neg m e) s) eqn:Er; [|exact IH].
    apply reads_as_scan in Er. eapply Hs. exact Er.
Qed.

Lemma value_start_facts (c : ascii) :
  value_start c = true ->
  is_json_ws c = false /\ Ascii.eqb c "]" = false /\ Ascii.eqb c "}" = false.
Proof.
  destruct c as [[|] [|] [|] [|] [|] [|] [|] [|]]; simpl; intros H;
    try discriminate; repeat split.
Qed.

Lemma skip_ws_value (v : json) (rest : string) :
  skip_ws (dumps v ++ rest) = dumps v ++ rest.
Proof.
  destruct (dumps_start v) as (c & r & E & Hc). rewrite E. cbn [append skip_ws].
  now rewrite (proj1 (value_start_facts c Hc)).
Qed.

Lemma skip_ws_comma (r : string) : skip_ws (String "," r) = String "," r.
Proof. reflexivity. Qed.

Lemma skip_ws_colon (r : string) : skip_ws (String ":" r) = String ":" r.
Proof. reflexivity. Qed.

Lemma skip_ws_space (r : string) : skip_ws (String " " r) = skip_ws r.
Proof. reflexivity. Qed.

Lemma skip_ws_member (kv : string * json) (rest : string) :
  skip_ws (member_text kv ++ rest) = member_text kv ++ rest.
Proof. reflexivity. Qed.

Lemma join_elems (x : json) (l : list json) (rest : string) :
  join ", " (map dumps (x :: l)) ++ "]" ++ rest = dumps x ++ elems_tail l rest.
Proof.
  revert x. induction l as [|y l IH]; intros x.
  - reflexivity.
  - change (join ", " (map dumps (x :: y :: l)))
      with (dumps x ++ ", " ++ join ", " (map dumps (y :: l))).
    rewrite !append_assoc, IH. reflexivity.
Qed.

Lemma join_members (kv : string * json) (d : dict) (rest : string) :
  join ", " (map member_text (kv :: d)) ++ "}" ++ rest
  = member_text kv ++ members_tail d rest.
Proof.
  revert kv. induction d as [|kv' d IH]; intros kv.
  - reflexivity.
  - change (join ", " (map member_text (kv :: kv' :: d)))
      with (member_text kv ++ ", " ++ join ", " (map member_text (kv' :: d))).
    rewrite !append_assoc, IH. reflexivity.
Qed.

(** *** Unfolding the three mutually recursive functions *)

Lemma parse_elems_eq (f : nat) (s : string) :
  parse_elems (S f) s =
  rbind (parse_value f s) (fun p =>
    match skip_ws (snd p) with
    | String c r =>
        if Ascii.eqb c "]" then Ok ([fst p], r)
        else if Ascii.eqb c "," then
          rbind (parse_elems f (skip_ws r)) (fun q => Ok (fst p :: fst q, snd q))
        else Raise JSONDecodeError
    | EmptyString => Raise JSONDecodeError
    end).
Proof. reflexivity. Qed.

Lemma parse_members_eq (f : nat) (s : string) :
  parse_members (S f) s =
  rbind (expect_string s) (fun k =>
    match skip_ws (snd k) with
    | String c r =>
        if Ascii.eqb c ":" then
          rbind (parse_value f (skip_ws r)) (fun p =>
            match skip_ws (snd p) with
            | String c' r' =>
                if Ascii.eqb c' "}" then Ok ([(fst k, fst p)], r')
                else if Ascii.eqb c' "," then
                  rbind (parse_members f (skip_ws r'))
                        (fun q => Ok ((fst k, fst p) :: fst q, snd q))
                else Raise JSONDecodeError
            | EmptyString => Raise JSONDecodeError
            end)
        else Raise JSONDecodeError
    | EmptyString => Raise JSONDecodeError
    end).
Proof. reflexivity. Qed.

Lemma parse_value_array (f : nat) (r : string) :
  parse_value (S f) (String "[" r) =
  match skip_ws r with
  | String c' r' =>
      if Ascii.eqb c' "]" then Ok (JList [], r')
      else rbind (parse_elems f (skip_ws r)) (fun p => Ok (JList (fst p), snd p))
  | EmptyString => Raise JSONDecodeError
  end.
Proof. reflexivity. Qed.

Lemma parse_value_object (f : nat) (r : string) :
  parse_value (S f) (String "{" r) =
  match skip_ws r with
  | String c' r' =>
      if Ascii.eqb c' "}" then Ok (JDict [], r')
      else rbind (parse_members f (skip_ws r))
                 (fun p => Ok (JDict (dict_of_pairs (fst p)), snd p))
  | EmptyString => Raise JSONDecodeError
  end.
Proof. reflexivity. Qed.

Lemma parse_value_string (f : nat) (r : string) :
  parse_value (S f) (String dquote r) =
  rbind (scan_string r) (fun p => Ok (JStr (fst p), snd p)).
Proof. reflexivity. Qed.

Lemma parse_elems_dumps (x : json) (l : list json) :
  reads_back x -> Forall reads_back l ->
  wf_json x = true -> forallb wf_json l = true ->
  forall f rest, elems_size (x :: l) <= f ->
  parse_elems f (dumps x ++ elems_tail l rest) = Ok (x :: l, rest).
Proof.
  intros Hx Hl. revert x Hx. induction Hl as [|y l Hy Hl IH];
    intros x Hx Wx Wl f rest Hf;
    (destruct f as [|f]; [cbn in Hf; lia|]); cbn in Hf;
    rewrite parse_elems_eq.
  - cbn [elems_tail].
    rewrite (Hx Wx f ("]" ++ rest) ltac:(lia) eq_refl). reflexivity.
  - cbn [forallb] in Wl. apply andb_true_iff in Wl as [Wy Wl].
    cbn [elems_tail].
    rewrite (Hx Wx f (", " ++ dumps y ++ elems_tail l rest) ltac:(lia) eq_refl).
    cbn [rbind snd fst append]. rewrite skip_ws_comma.
    cbn [Ascii.eqb Bool.eqb]. rewrite skip_ws_space, skip_ws_value.
    rewrite (IH y Hy Wy Wl f rest ltac:(unfold elems_size in *; cbn; lia)).
    reflexivity.
Qed.

Lemma parse_members_dumps (kv : string * json) (d : dict) :
  reads_back (snd kv) -> Forall (fun p => reads_back (snd p)) d ->
  wf_json (snd kv) = true -> forallb (fun p => wf_json (snd p)) d = true ->
  forall f rest, members_size (kv :: d) <= f ->
  parse_members f (member_text kv ++ members_tail d rest) = Ok (kv :: d, rest).
Proof.
  intros Hx Hl. revert kv Hx. induction Hl as [|kv' d Hy Hl IH];
    intros [k x] Hx Wx Wl f rest Hf;
    (destruct f as [|f]; [cbn in Hf; lia|]); cbn in Hf; cbn [fst snd] in *;
    rewrite parse_members_eq; unfold member_text at 1; cbn [fst snd];
    rewrite !append_assoc, expect_string_encode;
    cbn [rbind snd fst append]; rewrite skip_ws_colon;
    cbn [Ascii.eqb Bool.eqb]; rewrite skip_ws_space, skip_ws_value.
  - cbn [members_tail].
    rewrite (Hx Wx f ("}" ++ rest) ltac:(lia) eq_refl). reflexivity.
  - cbn [forallb] in Wl. apply andb_true_iff in Wl as [Wy Wl].
    cbn [members_tail].
    rewrite (Hx Wx f (", " ++ member_text kv' ++ members_tail d rest)
               ltac:(lia) eq_refl).
    cbn [rbind snd fst append]. rewrite skip_ws_comma.
    cbn [Ascii.eqb Bool.eqb]. rewrite skip_ws_space, skip_ws_member.
    rewrite (IH kv' Hy Wy Wl f rest ltac:(unfold members_size in *; cbn; lia)).
    reflexivity.
Qed.

(** *** A list of pairs with distinct keys is the dict it builds *)

Lemma dict_set_fresh (k : string) (v : json) (d : dict) :
  existsb (String.eqb k) (map fst d) = false ->
  dict_set k v d = (d ++ [(k, v)])%list.
Proof.
  induction d as [|[k' v'] d IH]; cbn; [reflexivity|].
  intros H. apply orb_false_iff in H as [H1 H2].
  rewrite H1, (IH H2). reflexivity.
Qed.

Lemma existsb_app_false (k : string) (l1 l2 : list string) :
  existsb (String.eqb k) l1 = false -> existsb (String.eqb k) l2 = false ->
  existsb (String.eqb k) (l1 ++ l2)%list = false.
Proof. intros H1 H2. now rewrite existsb_app, H1, H2. Qed.

Lemma fold_dict_set_nodup (d acc : dict) :
  nodupb (map fst d) = true ->
  (forall k, In k (map fst d) -> existsb (String.eqb k) (map fst acc) = false) ->
  fold_left (fun a kv => dict_set (fst kv) (snd kv) a) d acc = (acc ++ d)%list.
Proof.
  revert acc. induction d as [|[k v] d IH]; intros acc Hn Hacc; cbn.
  - now rewrite List.app_nil_r.
  - cbn in Hn. apply andb_true_iff in Hn as [Hk Hn].
    apply negb_true_iff in Hk.
    rewrite dict_set_fresh by (apply Hacc; now left).
    rewrite IH; [now rewrite <- List.app_assoc | exact Hn |].
    intros k' Hin. rewrite map_app. apply existsb_app_false.
    + apply Hacc. now right.
    + cbn. rewrite orb_false_r.
      destruct (String.eqb_spec k' k) as [->|]; [|reflexivity].
      exfalso. rewrite <- not_true_iff_false in Hk. apply Hk.
      apply existsb_exists. exists k. split; [exact Hin | apply String.eqb_refl].
Qed.

Lemma dict_of_pairs_nodup (d : dict) :
  nodupb (map fst d) = true -> dict_of_pairs d = d.
Proof.
  intros H. unfold dict_of_pairs. now rewrite fold_dict_set_nodup.
Qed.

(** *** The round trip of one value *)

Lemma parse_value_dumps (v : json) : reads_back v.
Proof.
  induction v as [|b|z|x|s|l IH|d IH] using json_induction;
    intros W f rest Hf Hd; (destruct f as [|f]; [cbn in Hf; lia|]).
  - reflexivity.
  - destruct b; reflexivity.
  - now apply parse_value_dumps_int.
  - now apply parse_value_dumps_float.
  - cbn [dumps]. unfold encode_str. cbn [append].
    rewrite parse_value_string, append_assoc. cbn [append].
    rewrite scan_string_escape. reflexivity.
  - cbn [dumps]. cbn [append]. rewrite parse_value_array, append_assoc.
    destruct l as [|x l]; [reflexivity|].
    rewrite join_elems, skip_ws_value.
    destruct (dumps_start x) as (c & r & E & Hc).
    destruct (value_start_facts c Hc) as (_ & Hb & _).
    rewrite E at 1. cbn [append]. rewrite Hb.
    inversion IH as [|? ? Hx Hl]; subst.
    cbn [wf_json forallb] in W. apply andb_true_iff in W as [Wx Wl].
    rewrite (parse_elems_dumps x l Hx Hl Wx Wl f rest
               ltac:(cbn in Hf; unfold elems_size; cbn; lia)).
    reflexivity.
  - cbn [dumps]. cbn [append]. rewrite parse_value_object, append_assoc.
    destruct d as [|kv d]; [reflexivity|].
    fold member_text.
    change (fun kv0 : string * json => encode_str (fst kv0) ++ ": " ++ dumps (snd kv0))
      with member_text.
    rewrite join_members, skip_ws_member.
    unfold member_text at 1, encode_str at 1. cbn [append Ascii.eqb Bool.eqb dquote].
    fold dquote. change (String dquote (escape (fst kv) ++ String dquote ""))
      with (encode_str (fst kv)).
    change (encode_str (fst kv) ++ ": " ++ dumps (snd kv)) with (member_text kv).
    inversion IH as [|? ? Hx Hl]; subst.
    cbn [wf_json] in W. apply andb_true_iff in W as [Wn W].
    cbn [forallb] in W. apply andb_true_iff in W as [Wx Wl].
    rewrite (parse_members_dumps kv d Hx Hl Wx Wl f rest
               ltac:(cbn in Hf; unfold members_size; cbn; lia)).
    cbn [rbind fst snd]. now rewrite dict_of_pairs_nodup.
Qed.

(** *** The fuel [loads] gives is enough for what [dumps] wrote *)

Lemma encode_str_length (s : string) : 2 <= String.length (encode_str s).
Proof.
  unfold encode_str. cbn [String.length]. rewrite length_append. cbn. lia.
Qed.

Lemma join_length_cons (x : string) (y : string) (l : list string) :
  String.length (join ", " (x :: y :: l))
  = String.length x + 2 + String.length (join ", " (y :: l)).
Proof.
  change (join ", " (x :: y :: l)) with (x ++ ", " ++ join ", " (y :: l)).
  rewrite !length_append. cbn. lia.
Qed.

Lemma elems_size_le (l : list json) :
  Forall (fun v => size v <= String.length (dumps v)) l ->
  elems_size l <= String.length (join ", " (map dumps l)) + 1.
Proof.
  induction 1 as [|x l Hx Hl IH]; [cbn; lia|].
  destruct l as [|y l].
  - cbn. lia.
  - cbn [map]. rewrite join_length_cons.
    change (elems_size (x :: y :: l)) with (S (size x + elems_size (y :: l))).
    cbn [map] in IH. lia.
Qed.

Lemma members_size_le (d : dict) :
  Forall (fun kv => size (snd kv) <= String.length (dumps (snd kv))) d ->
  members_size d <= String.length (join ", " (map member_text d)) + 1.
Proof.
  assert (Hm : forall kv : string * json,
             size (snd kv) <= String.length (dumps (snd kv)) ->
             size (snd kv) <= String.length (member_text kv)).
  { intros kv H. unfold member_text. rewrite !length_append. lia. }
  induction 1 as [|x l Hx Hl IH]; [cbn; lia|].
  apply Hm in Hx. destruct l as [|y l].
  - cbn [map join members_size fold_right]. lia.
  - cbn [map]. rewrite join_length_cons.
    change (members_size (x :: y :: l))
      with (S (size (snd x) + members_size (y :: l))).
    cbn [map] in IH. lia.
Qed.

Lemma size_le_length (v : json) : size v <= String.length (dumps v).
Proof.
  induction v as [|b|z|x|s|l IH|d IH] using json_induction.
  - cbn. lia.
  - destruct b; cbn; lia.
  - destruct (dumps_start (JInt z)) as (c & r & E & _). rewrite E. cbn. lia.
  - destruct (dumps_start (JFloat x)) as (c & r & E & _). rewrite E. cbn. lia.
  - pose proof (encode_str_length s). cbn [dumps size]. lia.
  - apply elems_size_le in IH. cbn [dumps]. rewrite !length_append.
    change (size (JList l)) with (S (elems_size l)). cbn [String.length]. lia.
  - apply members_size_le in IH. cbn [dumps].
    change (fun kv : string * json => encode_str (fst kv) ++ ": " ++ dumps (snd kv))
      with member_text.
    rewrite !length_append.
    change (size (JDict d)) with (S (members_size d)). cbn [String.length]. lia.
Qed.

(** [json.loads(json.dumps(v)) == v]. *)
Lemma loads_dumps (v : json) : wf_json v = true -> loads (dumps v) = Ok v.
Proof.
  intros W. unfold loads.
  pose proof (skip_ws_value v "") as Hs.
  pose proof (parse_value_dumps v W (loads_fuel (dumps v)) ""
                ltac:(pose proof (size_le_length v); unfold loads_fuel; lia)
                eq_refl) as Hp.
  rewrite append_nil_r in Hs, Hp. rewrite Hs, Hp. reflexivity.
Qed.

(** ** Every value [loads] returns is well formed *)

Lemma existsb_eqb_sym (k : string) (l : list string) :
  existsb (String.eqb k) l = existsb (fun x => String.eqb x k) l.
Proof.
  induction l as [|x l IH]; cbn; [reflexivity|].
  now rewrite IH, String.eqb_sym.
Qed.

Lemma nodupb_snoc (l : list string) (k : string) :
  nodupb l = true -> existsb (String.eqb k) l = false ->
  nodupb (l ++ [k])%list = true.
Proof.
  induction l as [|x l IH]; cbn; [reflexivity|].
  intros Hn Hk. apply andb_true_iff in Hn as [Hx Hn].
  apply orb_false_iff in Hk as [Hkx Hk].
  rewrite (IH Hn Hk), andb_true_r, existsb_app. cbn.
  apply negb_true_iff in Hx. rewrite Hx, orb_false_r. cbn.
  now rewrite String.eqb_sym, Hkx.
Qed.

Lemma dict_set_keys (k : string) (v : json) (d : dict) :
  map fst (dict_set k v d)
  = if existsb (String.eqb k) (map fst d) then map fst d
    else (map fst d ++ [k])%list.
Proof.
  induction d as [|[k' v'] d IH]; cbn; [reflexivity|].
  destruct (String.eqb k k') eqn:E; cbn; [reflexivity|].
  rewrite IH. now destruct (existsb (String.eqb k) (map fst d)).
Qed.

Lemma dict_set_wf (k : string) (v : json) (d : dict) :
  wf_json v = true -> wf_json (JDict d) = true ->
  wf_json (JDict (dict_set k v d)) = true.
Proof.
  cbn [wf_json]. intros Wv W. apply andb_true_iff in W as [Wn Wd].
  apply andb_true_iff. split.
  - rewrite dict_set_keys.
    destruct (existsb (String.eqb k) (map fst d)) eqn:E; [exact Wn|].
    now apply nodupb_snoc.
  - clear Wn. induction d as [|[k' v'] d IH]; cbn in *.
    + now rewrite Wv.
    + apply andb_true_iff in Wd as [W1 W2].
      destruct (String.eqb k k'); cbn; [now rewrite Wv, W2|].
      now rewrite W1, (IH W2).
Qed.

Lemma dict_of_pairs_wf (pairs : list (string * json)) :
  forallb (fun kv => wf_json (snd kv)) pairs = true ->
  wf_json (JDict (dict_of_pairs pairs)) = true.
Proof.
  unfold dict_of_pairs.
  assert (G : forall acc, wf_json (JDict acc) = true ->
              forallb (fun kv => wf_json (snd kv)) pairs = true ->
              wf_json (JDict (fold_left
                 (fun a kv => dict_set (fst kv) (snd kv) a) pairs acc)) = true).
  { induction pairs as [|[k v] pairs IH]; intros acc Wa Wp; cbn [fold_left].
    - exact Wa.
    - cbn [forallb] in Wp. apply andb_true_iff in Wp as [Wv Wp].
      apply IH; [|exact Wp]. now apply dict_set_wf. }
  now apply G.
Qed.

Lemma parse_value_eq (f : nat) (c : ascii) (r : string) :
  parse_value (S f) (String c r) =
  if Ascii.eqb c dquote then
    rbind (scan_string r) (fun p => Ok (JStr (fst p), snd p))
  else if Ascii.eqb c "{" then
    match skip_ws r with
    | String c' r' =>
        if Ascii.eqb c' "}" then Ok (JDict [], r')
        else rbind (parse_members f (skip_ws r))
                   (fun p => Ok (JDict (dict_of_pairs (fst p)), snd p))
    | EmptyString => Raise JSONDecodeError
    end
  else if Ascii.eqb c "[" then
    match skip_ws r with
    | String c' r' =>
        if Ascii.eqb c' "]" then Ok (JList [], r')
        else rbind (parse_elems f (skip_ws r)) (fun p => Ok (JList (fst p), snd p))
    | EmptyString => Raise JSONDecodeError
    end
  else if starts_with "null" (String c r) then Ok (JNull, drop 4 (String c r))
  else if starts_with "true" (String c r) then Ok (JBool true, drop 4 (String c r))
  else if starts_with "false" (String c r) then Ok (JBool false, drop 5 (String c r))
  else scan_number (String c r).
Proof. reflexivity. Qed.

Lemma scan_number_wf (s : string) (v : json) (r : string) :
  scan_number s = Ok (v, r) -> wf_json v = true.
Proof.
  unfold scan_number.
  destruct (match s with
            | EmptyString => (false, s)
            | String c s' => if Ascii.eqb c "-" then (true, s') else (false, s)
            end) as [neg body].
  destruct (scan_magnitude body) as [[n rest]|].
  - destruct (float_follows rest); [|now intros [= <- _]].
    destruct (scan_frac rest) as [frac rest1].
    destruct (scan_exp rest1) as [exp rest2].
    intros [= <- _]. apply float_of_literal_ok.
  - destruct (starts_with "NaN" s); [now intros [= <- _]|].
    destruct (starts_with "Infinity" s); [now intros [= <- _]|].
    destruct (starts_with "-Infinity" s); [now intros [= <- _] | discriminate].
Qed.

Ltac rbind_ok H :=
  match type of H with
  | rbind ?m _ = Ok _ =>
      let E := fresh "E" in
      destruct m as [[? ?]|?] eqn:E; [cbn [rbind fst snd] in H | discriminate H]
  end.

Lemma parse_wf (f : nat) :
  (forall s v r, parse_value f s = Ok (v, r) -> wf_json v = true)
  /\ (forall s l r, parse_elems f s = Ok (l, r) -> forallb wf_json l = true)
  /\ (forall s d r, parse_members f s = Ok (d, r) ->
        forallb (fun kv => wf_json (snd kv)) d = true).
Proof.
  induction f as [|f (IHv & IHe & IHm)]; [repeat split; discriminate|].
  repeat split.
  - intros [|c s] v r H; [discriminate|]. rewrite parse_value_eq in H.
    destruct (Ascii.eqb c dquote).
    { rbind_ok H. now injection H as <- _. }
    destruct (Ascii.eqb c "{").
    { destruct (skip_ws s) as [|c' r'] eqn:Es; [discriminate|].
      destruct (Ascii.eqb c' "}"); [now injection H as <- _|].
      rbind_ok H. injection H as <- _.
      apply dict_of_pairs_wf. eapply IHm. exact E. }
    destruct (Ascii.eqb c "[").
    { destruct (skip_ws s) as [|c' r'] eqn:Es; [discriminate|].
      destruct (Ascii.eqb c' "]"); [now injection H as <- _|].
      rbind_ok H. injection H as <- _. cbn [wf_json]. eapply IHe. exact E. }
    destruct (starts_with "null" _); [now injection H as <- _|].
    destruct (starts_with "true" _); [now injection H as <- _|].
    destruct (starts_with "false" _); [now injection H as <- _|].
    eapply scan_number_wf. exact H.
  - intros s l r H. rewrite parse_elems_eq in H. rbind_ok H.
    destruct (skip_ws s0) as [|c r0]; [discriminate|].
    destruct (Ascii.eqb c "]").
    { injection H as <- _. cbn. now rewrite (IHv _ _ _ E). }
    destruct (Ascii.eqb c ","); [|discriminate].
    rbind_ok H. injection H as <- _. cbn [forallb].
    now rewrite (IHv _ _ _ E), (IHe _ _ _ E0).
  - intros s d r H. rewrite parse_members_eq in H. rbind_ok H.
    destruct (skip_ws s1) as [|c r0]; [discriminate|].
    destruct (Ascii.eqb c ":"); [|discriminate].
    rbind_ok H.
    destruct (skip_ws s2) as [|c' r1]; [discriminate|].
    destruct (Ascii.eqb c' "}").
    { injection H as <- _. cbn. now rewrite (IHv _ _ _ E0). }
    destruct (Ascii.eqb c' ","); [|discriminate].
    rbind_ok H. injection H as <- _. cbn [forallb snd].
    now rewrite (IHv _ _ _ E0), (IHm _ _ _ E1).
Qed.

Lemma loads_wf (s : string) (v : json) : loads s = Ok v -> wf_json v = true.
Proof.
  unfold loads. intros H. rbind_ok H.
  destruct (skip_ws s0); [|discriminate]. injection H as <-.
  eapply (proj1 (parse_wf _)). exact E.
Qed.

(** ** Dictionaries *)

Lemma dict_get_set_same (k : string) (v : json) (d : dict) :
  dict_get k (dict_set k v d) = Some v.
Proof.
  induction d as [|[k' v'] d IH]; cbn.
  - now rewrite String.eqb_refl.
  - destruct (String.eqb k k') eqn:E; cbn; rewrite E; [reflexivity | exact IH].
Qed.

Lemma dict_get_set_other (k k' : string) (v : json) (d : dict) :
  k' <> k -> dict_get k' (dict_set k v d) = dict_get k' d.
Proof.
  intros Hn. induction d as [|[k0 v0] d IH]; cbn.
  - apply String.eqb_neq in Hn. now rewrite Hn.
  - destruct (String.eqb k k0) eqn:E; cbn.
    + apply String.eqb_eq in E. subst k0.
      apply String.eqb_neq in Hn. now rewrite Hn.
    + now rewrite IH.
Qed.

(** Setting a key that was absent keeps every entry. *)
Lemma dict_set_extends (k : string) (v : json) (d : dict) :
  dict_get k d = None -> dict_extends d (dict_set k v d).
Proof.
  intros Hk k' v' H. destruct (String.eqb_spec k' k) as [->|Hn].
  - congruence.
  - now rewrite dict_get_set_other.
Qed.

Lemma dict_extends_refl (d : dict) : dict_extends d d.
Proof. intros k v H. exact H. Qed.

Lemma dict_set_absent (k : string) (v : json) (d : dict) :
  dict_get k d = None -> dict_set k v d = (d ++ [(k, v)])%list.
Proof.
  induction d as [|[k' v'] d IH]; cbn; [reflexivity|].
  destruct (String.eqb k k'); [discriminate|]. intros H. now rewrite IH.
Qed.

(** ** The cache store, run on a world *)

Section Properties.

Variable API_KEY : string.
Variable web : list event -> string -> option dict -> result string.
Variable soup_site : json -> result site_page.
Variable soup_state : json -> result (list (result string)).

Lemma load_cache_run (w : world) :
  load_cache w =
  (match disk w with
   | NoFile | Locked None => Ok (JDict [])
   | Denied => Raise PermissionError
   | File contents | Locked (Some contents) => loads contents
   end, add_trace w [EvOpen "r"]).
Proof. destruct w as [[| |s|[s|]] c i t]; reflexivity. Qed.

Lemma save_cache_run (cache : json) (w : world) :
  save_cache cache w =
  if writable (disk w) then
    (Ok tt, mkWorld (File (dumps cache)) (CACHE_DICT w) (stdin w)
              (trace w ++ [EvOpen "w"; EvWrite (dumps cache)])%list)
  else (Raise PermissionError, add_trace w [EvOpen "w"]).
Proof.
  destruct w as [[| |s|o] c i t]; cbv [save_cache bind log get_disk set_disk raise
    writable disk CACHE_DICT stdin trace add_trace];
    rewrite <- ?List.app_assoc; reflexivity.
Qed.

(** What [load_cache] returns depends on the file only. *)
Lemma load_cache_disk (w w' : world) :
  disk w = disk w' -> fst (load_cache w) = fst (load_cache w').
Proof. intros H. rewrite !load_cache_run. cbn. now rewrite H. Qed.

Lemma load_after_save (cache : json) (w : world) :
  wf_json cache = true -> writable (disk w) = true ->
  fst (save_cache cache w) = Ok tt
  /\ fst (load_cache (snd (save_cache cache w))) = Ok cache.
Proof.
  intros W Hd. rewrite save_cache_run, Hd.
  split; [reflexivity|]. rewrite load_cache_run. cbn. now apply loads_dumps.
Qed.

(** *** [make_url_request_using_cache] *)

Lemma fetch_hit (url : string) (w : world) (d : dict) (v : json) :
  CACHE_DICT w = JDict d -> dict_get url d = Some v ->
  make_url_request_using_cache web url w
  = (Ok v, add_trace w [EvPrint "Using cache"]).
Proof.
  destruct w as [f c i t]. cbn [CACHE_DICT]. intros -> Hv.
  cbv [make_url_request_using_cache bind get_CACHE_DICT lift keys_contain
       dict_mem CACHE_DICT]. rewrite Hv.
  cbv [print log getitem fst snd disk CACHE_DICT stdin trace add_trace].
  now rewrite Hv.
Qed.

Lemma fetch_miss (url : string) (w : world) (d : dict) :
  CACHE_DICT w = JDict d -> dict_get url d = None ->
  make_url_request_using_cache web url w =
  match web (trace w ++ [EvPrint "Fetching"])%list url None with
  | Raise e => (Raise e, add_trace w [EvPrint "Fetching"; EvGet url None])
  | Ok text =>
      let cache' := JDict (fetched url text d) in
      if writable (disk w) then
        (Ok (JStr text),
         mkWorld (File (dumps cache')) cache' (stdin w)
           (trace w ++ [EvPrint "Fetching"; EvGet url None; EvOpen "w";
                        EvWrite (dumps cache')])%list)
      else
        (Raise PermissionError,
         mkWorld (disk w) cache' (stdin w)
           (trace w ++ [EvPrint "Fetching"; EvGet url None; EvOpen "w"])%list)
  end.
Proof.
  destruct w as [f c i t]. cbn [CACHE_DICT]. intros -> Hv.
  cbv [make_url_request_using_cache bind get_CACHE_DICT lift keys_contain
       dict_mem CACHE_DICT]. rewrite Hv.
  cbv [print log requests_get fst snd disk CACHE_DICT stdin trace add_trace].
  destruct (web (t ++ [EvPrint "Fetching"])%list url None) as [text|e];
    [| rewrite <- ?List.app_assoc; reflexivity].
  cbv [setitem set_CACHE_DICT get_CACHE_DICT disk CACHE_DICT stdin trace].
  rewrite save_cache_run.
  cbv [disk CACHE_DICT stdin trace add_trace fetched].
  destruct (writable f); rewrite <- ?List.app_assoc; cbn [List.app];
    try reflexivity;
    cbv [getitem CACHE_DICT]; now rewrite dict_get_set_same.
Qed.

(** *** [make_request_with_cache_api] *)

Lemma stored_not_denied (w : world) (d : dict) : stored w d -> disk w <> Denied.
Proof.
  unfold stored. rewrite load_cache_run. cbn. intros H E. rewrite E in H.
  discriminate.
Qed.

Lemma stored_wf (w : world) (d : dict) : stored w d -> wf_json (JDict d) = true.
Proof.
  unfold stored. rewrite load_cache_run. cbn.
  destruct (disk w) as [| |s|[s|]];
    [now intros [= <-] | discriminate | apply loads_wf | apply loads_wf
    | now intros [= <-]].
Qed.

Lemma api_hit (url : string) (site : NationalSite.t) (w : world) (d : dict)
      (v : json) :
  stored w d -> dict_get (NationalSite.name site) d = Some v ->
  make_request_with_cache_api API_KEY web url site w
  = (Ok v, add_trace w [EvOpen "r"; EvPrint "Using cache"]).
Proof.
  unfold stored. intros Hs Hv.
  cbv [make_request_with_cache_api bind]. rewrite load_cache_run in *.
  cbn [fst] in Hs. rewrite Hs.
  cbv [lift contains dict_mem]. rewrite Hv.
  cbv [print log getitem add_trace disk CACHE_DICT stdin trace].
  rewrite Hv, <- List.app_assoc. reflexivity.
Qed.

Lemma api_miss (url : string) (site : NationalSite.t) (w : world) (d : dict) :
  stored w d -> dict_get (NationalSite.name site) d = None ->
  let params := api_params API_KEY site in
  let asked := [EvOpen "r"; EvPrint "Fetching"; EvGet url (Some params)] in
  make_request_with_cache_api API_KEY web url site w =
  match web (trace w ++ [EvOpen "r"; EvPrint "Fetching"])%list url (Some params) with
  | Raise e => (Raise e, add_trace w asked)
  | Ok body =>
      match loads body with
      | Raise e => (Raise e, add_trace w asked)
      | Ok response =>
          let cache' := JDict (dict_set (NationalSite.name site) response d) in
          if writable (disk w) then
            (Ok response,
             mkWorld (File (dumps cache')) (CACHE_DICT w) (stdin w)
               (trace w ++ asked ++ [EvOpen "w"; EvWrite (dumps cache')])%list)
          else (Raise PermissionError, add_trace w (asked ++ [EvOpen "w"]))
      end
  end.
Proof.
  intros Hs Hv params asked.
  unfold stored in Hs.
  cbv [make_request_with_cache_api bind]. rewrite load_cache_run in *.
  cbn [fst] in Hs. rewrite Hs.
  cbv [lift contains dict_mem]. rewrite Hv.
  cbv [print log requests_get add_trace disk CACHE_DICT stdin trace fst snd].
  fold (disk w) (CACHE_DICT w) (stdin w) (trace w).
  rewrite <- !List.app_assoc. cbn [List.app]. fold params.
  destruct (web _ url (Some params)) as [body|e]; [|reflexivity].
  destruct (loads body) as [response|e]; [|reflexivity].
  cbv [setitem]. rewrite save_cache_run. cbn [disk CACHE_DICT stdin trace].
  destruct (writable (disk w));
    [cbv [getitem]; rewrite dict_get_set_same |];
    unfold add_trace; cbn [disk CACHE_DICT stdin trace];
    rewrite <- !List.app_assoc; reflexivity.
Qed.

(** ** The fetcher: hits, misses and what they leave behind *)

Lemma gets_app (l l' : list event) : gets (l ++ l')%list = gets l + gets l'.
Proof. unfold gets. now rewrite filter_app, length_app. Qed.

(** C3. With a mapping as cache: a key that is present is answered with the
    stored value and no request is made; a key that is absent costs exactly
    one request, and when the request answers and the file can be written
    the answer is returned, stored under the key as the newest entry and
    written to the file (from which [load_cache] reads the new mapping
    back), after which the same key is answered from the mapping without
    another request. *)
Theorem fetch_uses_cache_then_network (url : string) (w : world) (d : dict) :
  CACHE_DICT w = JDict d ->
  let run := make_url_request_using_cache web url w in
  (forall v, dict_get url d = Some v ->
     fst run = Ok v
     /\ gets (trace (snd run)) = gets (trace w)
     /\ CACHE_DICT (snd run) = JDict d)
  /\ (dict_get url d = None ->
      gets (trace (snd run)) = S (gets (trace w))
      /\ forall text,
          web (trace w ++ [EvPrint "Fetching"])%list url None = Ok text ->
          writable (disk w) = true ->
          let d' := (d ++ [(url, JStr text)])%list in
          fst run = Ok (JStr text)
          /\ CACHE_DICT (snd run) = JDict d'
          /\ dict_get url d' = Some (JStr text)
          /\ disk (snd run) = File (dumps (JDict d'))
          /\ (wf_json (JDict d) = true -> stored (snd run) d')
          /\ let again := make_url_request_using_cache web url (snd run) in
             fst again = Ok (JStr text)
             /\ gets (trace (snd again)) = gets (trace (snd run))).
Proof.
  intros Hc run. split.
  - intros v Hv. subst run. rewrite (fetch_hit url w d v Hc Hv).
    cbn [fst snd add_trace trace CACHE_DICT]. rewrite gets_app. cbn.
    repeat split; [lia | exact Hc].
  - intros Hn. subst run. rewrite (fetch_miss url w d Hc Hn). split.
    + destruct (web _ url None) as [text|e]; [destruct (writable (disk w))|];
        cbn [snd trace add_trace]; rewrite gets_app; cbn; lia.
    + intros text Hweb Hd d'. rewrite Hweb, Hd.
      assert (Ed : fetched url text d = d') by (now apply dict_set_absent).
      assert (Hg : dict_get url d' = Some (JStr text))
        by (rewrite <- Ed; apply dict_get_set_same).
      cbv zeta. rewrite Ed.
      assert (Hst : forall w', disk w' = File (dumps (JDict d')) ->
                               wf_json (JDict d) = true -> stored w' d').
      { intros w' Hw' W. unfold stored. rewrite load_cache_run, Hw'. cbn [fst].
        apply loads_dumps. rewrite <- Ed. now apply dict_set_wf. }
      cbn [fst snd CACHE_DICT disk].
      match goal with
      | |- context [make_url_request_using_cache web url ?w'] =>
          rewrite (fetch_hit url w' d' (JStr text) eq_refl Hg)
      end.
      cbn [fst snd add_trace trace]. rewrite (gets_app _ [EvPrint _]). cbn.
      repeat split; try assumption; try lia; now apply Hst.
Qed.

(** C10. On a hit the file is left as it was and the only thing that
    happens is the trace line; whenever the file is opened for writing
    during the call, the key was absent. *)
Theorem hit_never_saves (url : string) (w : world) (d : dict) :
  CACHE_DICT w = JDict d ->
  let run := make_url_request_using_cache web url w in
  (dict_mem url d = true ->
     disk (snd run) = disk w
     /\ trace (snd run) = (trace w ++ [EvPrint "Using cache"])%list)
  /\ (forall evs, trace (snd run) = (trace w ++ evs)%list ->
        (In (EvOpen "w") evs \/ exists c, In (EvWrite c) evs) ->
        dict_mem url d = false).
Proof.
  intros Hc run. unfold dict_mem.
  destruct (dict_get url d) as [v|] eqn:Hv.
  - subst run. rewrite (fetch_hit url w d v Hc Hv). cbn [snd add_trace disk trace].
    split; [now split|].
    intros evs He Hin. apply app_inv_head in He. subst evs.
    destruct Hin as [[H|[]] | [c [H|[]]]]; discriminate.
  - split; [discriminate | reflexivity].
Qed.

(** C9. Neither fetch removes or changes an entry.  For the page fetch the
    mapping is the object passed as [cache], and where the file agreed with
    it before the call, as it does wherever the program calls, the mapping
    held by the file keeps its entries too; for the API fetch the mapping is
    the one held by the file, read before and after the call. *)
Theorem cache_only_grows :
  (forall url w d,
      CACHE_DICT w = JDict d ->
      let w' := snd (make_url_request_using_cache web url w) in
      (exists d', CACHE_DICT w' = JDict d' /\ dict_extends d d')
      /\ (stored w d -> exists d', stored w' d' /\ dict_extends d d'))
  /\ (forall url site w d,
      stored w d ->
      exists d',
        stored (snd (make_request_with_cache_api API_KEY web url site w)) d'
        /\ dict_extends d d').
Proof.
  assert (Hsame : forall w d evs, stored w d -> stored (add_trace w evs) d).
  { intros w d evs Hs. unfold stored. now rewrite <- (load_cache_disk w). }
  split.
  - intros url w d Hc w'. subst w'. destruct (dict_get url d) as [v|] eqn:Hv.
    + rewrite (fetch_hit url w d v Hc Hv). cbn [snd]. split.
      * exists d. split; [exact Hc | apply dict_extends_refl].
      * intros Hs. exists d. split; [now apply Hsame | apply dict_extends_refl].
    + rewrite (fetch_miss url w d Hc Hv).
      destruct (web _ url None) as [text|e]; cbn [snd]; split.
      * exists (fetched url text d).
        split; [now destruct (writable (disk w)) | now apply dict_set_extends].
      * intros Hs. pose proof (stored_wf w d Hs) as W.
        destruct (writable (disk w)).
        -- exists (fetched url text d). split; [|now apply dict_set_extends].
           unfold stored. rewrite load_cache_run. cbn [fst snd disk].
           now apply loads_dumps, dict_set_wf.
        -- exists d. split; [|apply dict_extends_refl].
           unfold stored in *. rewrite load_cache_run in *. exact Hs.
      * exists d. split; [exact Hc | apply dict_extends_refl].
      * intros Hs. exists d. split; [now apply Hsame | apply dict_extends_refl].
  - intros url site w d Hs.
    destruct (dict_get (NationalSite.name site) d) as [v|] eqn:Hv.
    + rewrite (api_hit url site w d v Hs Hv). exists d.
      split; [now apply Hsame | apply dict_extends_refl].
    + rewrite (api_miss url site w d Hs Hv).
      destruct (web _ url _) as [body|e];
        [destruct (loads body) as [response|e] eqn:El;
         [destruct (writable (disk w))|] |];
        try (exists d; split; [now apply Hsame | apply dict_extends_refl]).
      exists (dict_set (NationalSite.name site) response d). split.
      * unfold stored. rewrite load_cache_run. cbn [fst snd disk].
        apply loads_dumps, dict_set_wf;
          [now apply loads_wf in El | now apply stored_wf in Hs].
      * now apply dict_set_extends.
Qed.

(** C8. The query of the API fetch is the six parameters below, with the
    site's zip code as [origin]; the answer is looked up under the site's
    name and, after a request whose body decodes, stored under the site's
    name when the file can be written; when it cannot, the call raises
    after the request and the file is as it was. *)
Theorem api_fetch_params_and_key (url : string) (site : NationalSite.t)
        (w : world) (d : dict) :
  stored w d ->
  let run := make_request_with_cache_api API_KEY web url site w in
  let params : dict :=
    [("key", JStr API_KEY);
     ("origin", JStr (NationalSite.zipcode site));
     ("radius", JInt 10);
     ("maxMatches", JInt 10);
     ("ambiguities", JStr "ignore");
     ("outFormat", JStr "json")] in
  let asked := [EvOpen "r"; EvPrint "Fetching"; EvGet url (Some params)] in
  api_params API_KEY site = params
  /\ (forall v, dict_get (NationalSite.name site) d = Some v ->
        fst run = Ok v /\ gets (trace (snd run)) = gets (trace w))
  /\ (dict_get (NationalSite.name site) d = None ->
        (exists evs, trace (snd run) = (trace w ++ asked ++ evs)%list
                     /\ gets evs = 0)
        /\ forall body response,
            web (trace w ++ [EvOpen "r"; EvPrint "Fetching"])%list url (Some params)
            = Ok body ->
            loads body = Ok response ->
            (writable (disk w) = true ->
             fst run = Ok response
             /\ stored (snd run) (dict_set (NationalSite.name site) response d))
            /\ (writable (disk w) = false ->
                fst run = Raise PermissionError /\ disk (snd run) = disk w)).
Proof.
  intros Hs run params asked. split; [reflexivity|]. split.
  - intros v Hv. subst run. rewrite (api_hit url site w d v Hs Hv).
    cbn [fst snd add_trace trace]. rewrite gets_app. cbn. split; [reflexivity | lia].
  - intros Hn. subst run params asked.
    rewrite (api_miss url site w d Hs Hn). cbv zeta. unfold api_params. split.
    + destruct (web _ url _) as [body|e];
        [destruct (loads body) as [response|e];
         [destruct (writable (disk w))|] |];
        try (exists []; cbn [snd add_trace trace]; rewrite List.app_nil_r;
             split; reflexivity);
        eexists; cbn [snd trace add_trace]; split; reflexivity.
    + intros body response Hweb Hl. rewrite Hweb, Hl.
      split; intros Hw; rewrite Hw; cbn [fst snd add_trace disk];
        (split; [reflexivity|]); [|reflexivity].
      unfold stored. rewrite load_cache_run. cbn [fst snd disk].
      apply loads_dumps, dict_set_wf;
        [now apply loads_wf in Hl | now apply stored_wf in Hs].
Qed.

End Properties.

(** ** The decoder consumes what it reads *)

Lemma skip_ws_length (s : string) : String.length (skip_ws s) <= String.length s.
Proof.
  induction s as [|c s IH]; cbn; [lia|]. destruct (is_json_ws c); cbn; lia.
Qed.

Lemma rcons_ok (c : ascii) (r : result (string * string)) (x rest : string) :
  rcons c r = Ok (x, rest) -> exists x', r = Ok (x', rest).
Proof.
  destruct r as [[x' rest']|e]; [|discriminate].
  cbn. intros [= _ <-]. now exists x'.
Qed.

Lemma rcons_raises (c : ascii) (r : result (string * string)) (e : exn) :
  rcons c r = Raise e -> r = Raise e.
Proof. destruct r as [[? ?]|?]; [discriminate | trivial]. Qed.

(** The two facts about [scan_string], for texts of bounded length: a
    result leaves a shorter text, and a failure is the decoder's own. *)
Lemma scan_string_bounded (n : nat) :
  forall s, String.length s <= n ->
  (forall x r, scan_string s = Ok (x, r) -> String.length r < String.length s)
  /\ (forall e, scan_string s = Raise e -> decoder_exn e = true).
Proof.
  induction n as [|n IH]; intros s Hl.
  - destruct s; [|cbn in Hl; lia].
    split; [discriminate | now intros e [= <-]].
  - destruct s as [|c s1]; [split; [discriminate | now intros e [= <-]]|].
    cbn [String.length] in Hl. cbn [scan_string String.length].
    destruct (Ascii.eqb c dquote).
    { split; [intros x r [= _ <-]; lia | discriminate]. }
    destruct (Ascii.eqb c backslash).
    + destruct s1 as [|e0 s2]; [split; [discriminate | now intros e [= <-]]|].
      cbn [String.length] in *.
      destruct (Ascii.eqb e0 "u").
      * destruct s2 as [|h1 [|h2 [|h3 [|h4 s3]]]];
          try (split; [discriminate | now intros e [= <-]]).
        cbn [String.length] in *.
        destruct (hex4 h1 h2 h3 h4) as [m|];
          [|split; [discriminate | now intros e [= <-]]].
        destruct (m <? 256)%N; [|split; [discriminate | now intros e [= <-]]].
        destruct (IH s3 ltac:(lia)) as [IHo IHr]. split.
        -- intros x r H. apply rcons_ok in H as [x' H]. apply IHo in H. lia.
        -- intros e H. apply rcons_raises in H. now apply IHr.
      * destruct (unescape e0); [|split; [discriminate | now intros e [= <-]]].
        destruct (IH s2 ltac:(lia)) as [IHo IHr]. split.
        -- intros x r H. apply rcons_ok in H as [x' H]. apply IHo in H. lia.
        -- intros e H. apply rcons_raises in H. now apply IHr.
    + destruct (code c <? 32)%N; [split; [discriminate | now intros e [= <-]]|].
      destruct (IH s1 ltac:(lia)) as [IHo IHr]. split.
      * intros x r H. apply rcons_ok in H as [x' H]. apply IHo in H. lia.
      * intros e H. apply rcons_raises in H. now apply IHr.
Qed.

Lemma expect_string_length (s x r : string) :
  expect_string s = Ok (x, r) -> String.length r < String.length s.
Proof.
  destruct s as [|c s]; cbn; [discriminate|].
  destruct (Ascii.eqb c dquote); [|discriminate].
  intros H. apply (scan_string_bounded _ s (le_n _)) in H. lia.
Qed.

Lemma expect_string_raises (s : string) (e : exn) :
  expect_string s = Raise e -> decoder_exn e = true.
Proof.
  destruct s as [|c r]; cbn; [now intros [= <-]|].
  destruct (Ascii.eqb c dquote); [|now intros [= <-]].
  apply (scan_string_bounded _ r (le_n _)).
Qed.

Lemma span_digits_length (s : string) :
  String.length (snd (span_digits s)) <= String.length s.
Proof.
  induction s as [|c s IH]; cbn; [lia|].
  destruct (is_digit c); [|cbn; lia].
  destruct (span_digits s) as [ds rest]. cbn in *. lia.
Qed.

Lemma scan_magnitude_length (s : string) (n : N) (rest : string) :
  scan_magnitude s = Some (n, rest) -> String.length rest < String.length s.
Proof.
  destruct s as [|c s]; [discriminate|]. unfold scan_magnitude.
  destruct (Ascii.eqb c "0"); [intros [= _ <-]; cbn; lia|].
  destruct (is_digit c) eqn:Ec; [|discriminate].
  pose proof (span_digits_length s) as Hl.
  cbn [span_digits]. rewrite Ec. destruct (span_digits s) as [ds r].
  destruct (NilEmpty.uint_of_string _); [|discriminate].
  intros [= _ <-]. cbn in *. lia.
Qed.

Lemma drop_length (n : nat) (s : string) :
  n <= String.length s -> String.length (drop n s) = String.length s - n.
Proof.
  revert s. induction n as [|n IH]; intros [|c s] H; cbn in *; try lia.
  now apply IH; lia.
Qed.

Lemma starts_with_length (p s : string) :
  starts_with p s = true -> String.length p <= String.length s.
Proof.
  revert s. induction p as [|a p IH]; intros [|b s]; cbn; try lia; try discriminate.
  intros H. apply andb_true_iff in H as [_ H]. apply IH in H. lia.
Qed.

Lemma drop_prefix_length (p s : string) :
  starts_with p s = true ->
  String.length (drop (String.length p) s) + String.length p = String.length s.
Proof.
  intros H. pose proof (starts_with_length p s H).
  rewrite drop_length; lia.
Qed.

Lemma scan_frac_length (s : string) :
  String.length (snd (scan_frac s)) <= String.length s.
Proof.
  destruct s as [|c s]; cbn [scan_frac snd]; [lia|].
  destruct (Ascii.eqb c "."); [|cbn; lia].
  pose proof (span_digits_length s) as Hl.
  destruct (span_digits s) as [ds r]. destruct (is_empty ds); cbn in *; lia.
Qed.

Lemma scan_exp_length (s : string) :
  String.length (snd (scan_exp s)) <= String.length s.
Proof.
  destruct s as [|c s]; cbn [scan_exp snd]; [lia|].
  destruct (Ascii.eqb c "e" || Ascii.eqb c "E"); [|cbn; lia].
  assert (H : forall neg body,
             String.length body <= String.length s ->
             String.length
               (snd (let (ds, rest) := span_digits body in
                     if is_empty ds then (0%Z, String c s)
                     else ((if neg : bool then - number_of ds else number_of ds)%Z,
                           rest)))
             <= String.length (String c s)).
  { intros neg body Hb. pose proof (span_digits_length body) as Hl.
    destruct (span_digits body) as [ds r]. destruct (is_empty ds); cbn in *; lia. }
  destruct s as [|d s']; [apply (H false ""); cbn; lia|].
  destruct (Ascii.eqb d "-"); [apply (H true s'); cbn; lia|].
  destruct (Ascii.eqb d "+");
    [apply (H false s') | apply (H false (String d s'))]; cbn; lia.
Qed.

Lemma scan_number_length (s : string) (v : json) (r : string) :
  scan_number s = Ok (v, r) -> String.length r < String.length s.
Proof.
  unfold scan_number.
  destruct (match s with
            | EmptyString => (false, s)
            | String c s' => if Ascii.eqb c "-" then (true, s') else (false, s)
            end) as [neg body] eqn:Eb.
  assert (Hb : String.length body <= String.length s).
  { destruct s as [|c s']; [injection Eb as _ <-; lia|].
    destruct (Ascii.eqb c "-"); injection Eb as _ <-; cbn; lia. }
  destruct (scan_magnitude body) as [[n rest]|] eqn:Em.
  - apply scan_magnitude_length in Em.
    destruct (float_follows rest); [|intros [= _ <-]; lia].
    pose proof (scan_frac_length rest) as Hf.
    destruct (scan_frac rest) as [frac rest1].
    pose proof (scan_exp_length rest1) as He.
    destruct (scan_exp rest1) as [exp rest2].
    intros [= _ <-]. cbn [snd] in *. lia.
  - destruct (starts_with "NaN" s) eqn:E1.
    { apply drop_prefix_length in E1. change (String.length "NaN") with 3 in E1.
      intros H. injection H as _ Hr. change (drop 3 s = r) in Hr.
      subst r. lia. }
    destruct (starts_with "Infinity" s) eqn:E2.
    { apply drop_prefix_length in E2. change (String.length "Infinity") with 8 in E2.
      intros H. injection H as _ Hr. change (drop 8 s = r) in Hr.
      subst r. lia. }
    destruct (starts_with "-Infinity" s) eqn:E3; [|discriminate].
    apply drop_prefix_length in E3. change (String.length "-Infinity") with 9 in E3.
    intros H. injection H as _ Hr. change (drop 9 s = r) in Hr.
      subst r. lia.
Qed.

Lemma scan_number_raises (s : string) (e : exn) :
  scan_number s = Raise e -> decoder_exn e = true.
Proof.
  unfold scan_number.
  destruct (match s with
            | EmptyString => (false, s)
            | String c s' => if Ascii.eqb c "-" then (true, s') else (false, s)
            end) as [neg body].
  destruct (scan_magnitude body) as [[n rest]|].
  - destruct (float_follows rest); [|discriminate].
    destruct (scan_frac rest) as [frac rest1].
    destruct (scan_exp rest1) as [exp rest2]. discriminate.
  - destruct (starts_with "NaN" s); [discriminate|].
    destruct (starts_with "Infinity" s); [discriminate|].
    destruct (starts_with "-Infinity" s); [discriminate | now intros [= <-]].
Qed.

Ltac rbind_ok_in H :=
  match type of H with
  | rbind ?m _ = Ok _ =>
      let E := fresh "E" in
      destruct m as [[? ?]|?] eqn:E; [cbn [rbind fst snd] in H | discriminate H]
  end.

Ltac ws_ok_in H c r :=
  match type of H with
  | match skip_ws ?x with _ => _ end = _ =>
      let L := fresh "L" in
      pose proof (skip_ws_length x) as L;
      destruct (skip_ws x) as [|c r]; [discriminate H|];
      cbn [String.length] in L
  end.

Lemma parse_consumes (f : nat) :
  (forall s v r, parse_value f s = Ok (v, r) ->
                 String.length r < String.length s)
  /\ (forall s l r, parse_elems f s = Ok (l, r) ->
                    String.length r < String.length s)
  /\ (forall s d r, parse_members f s = Ok (d, r) ->
                    String.length r < String.length s).
Proof.
  induction f as [|f (IHv & IHe & IHm)]; [repeat split; discriminate|].
  repeat split.
  - intros [|c s] v r H; [discriminate|]. rewrite parse_value_eq in H.
    cbn [String.length].
    destruct (Ascii.eqb c dquote).
    { rbind_ok_in H. injection H as _ <-.
      apply (scan_string_bounded _ s (le_n _)) in E. lia. }
    destruct (Ascii.eqb c "{").
    { pose proof (skip_ws_length s) as L.
      destruct (skip_ws s) as [|c' r'] eqn:Es; [discriminate|].
      cbn [String.length] in L.
      destruct (Ascii.eqb c' "}"); [injection H as _ <-; lia|].
      rbind_ok_in H. injection H as _ <-. apply IHm in E. cbn in E. lia. }
    destruct (Ascii.eqb c "[").
    { pose proof (skip_ws_length s) as L.
      destruct (skip_ws s) as [|c' r'] eqn:Es; [discriminate|].
      cbn [String.length] in L.
      destruct (Ascii.eqb c' "]"); [injection H as _ <-; lia|].
      rbind_ok_in H. injection H as _ <-. apply IHe in E. cbn in E. lia. }
    destruct (starts_with "null" _) eqn:E1.
    { apply (drop_prefix_length "null") in E1. injection H as _ <-.
      cbn in *. lia. }
    destruct (starts_with "true" _) eqn:E2.
    { apply (drop_prefix_length "true") in E2. injection H as _ <-.
      cbn in *. lia. }
    destruct (starts_with "false" _) eqn:E3.
    { apply (drop_prefix_length "false") in E3. injection H as _ <-.
      cbn in *. lia. }
    apply scan_number_length in H. cbn in H. lia.
  - intros s l r H. rewrite parse_elems_eq in H. rbind_ok_in H.
    apply IHv in E. ws_ok_in H c r0.
    destruct (Ascii.eqb c "]"); [injection H as _ <-; lia|].
    destruct (Ascii.eqb c ","); [|discriminate].
    rbind_ok_in H. injection H as _ <-. apply IHe in E0.
    pose proof (skip_ws_length r0). lia.
  - intros s d r H. rewrite parse_members_eq in H. rbind_ok_in H.
    apply expect_string_length in E. ws_ok_in H c r0.
    destruct (Ascii.eqb c ":"); [|discriminate].
    rbind_ok_in H. apply IHv in E0. pose proof (skip_ws_length r0).
    ws_ok_in H c' r1.
    destruct (Ascii.eqb c' "}"); [injection H as _ <-; lia|].
    destruct (Ascii.eqb c' ","); [|discriminate].
    rbind_ok_in H. injection H as _ <-. apply IHm in E1.
    pose proof (skip_ws_length r1). lia.
Qed.

(** ** With the fuel of [loads] the decoder fails only as a decoder *)

Ltac rbind_raise_in H lem :=
  match type of H with
  | rbind ?m _ = Raise _ =>
      let E := fresh "E" in
      destruct m as [[? ?]|?] eqn:E;
      [cbn [rbind fst snd] in H
      | cbn [rbind] in H; injection H as <-; eapply lem; [|exact E]]
  end.

Ltac ws_raise_in H c r :=
  match type of H with
  | match skip_ws ?x with _ => _ end = _ =>
      let L := fresh "L" in
      pose proof (skip_ws_length x) as L;
      destruct (skip_ws x) as [|c r]; [now injection H as <-|];
      cbn [String.length] in L
  end.

Lemma parse_raises (f : nat) :
  (forall s e, 2 * String.length s + 1 <= f ->
               parse_value f s = Raise e -> decoder_exn e = true)
  /\ (forall s e, 2 * String.length s + 2 <= f ->
                  parse_elems f s = Raise e -> decoder_exn e = true)
  /\ (forall s e, 2 * String.length s + 2 <= f ->
                  parse_members f s = Raise e -> decoder_exn e = true).
Proof.
  induction f as [|f (IHv & IHe & IHm)]; [repeat split; intros; lia|].
  destruct (parse_consumes f) as (Cv & Ce & Cm).
  repeat split.
  - intros [|c s] e Hf H; [cbn in H; now injection H as <-|].
    rewrite parse_value_eq in H. cbn [String.length] in Hf.
    destruct (Ascii.eqb c dquote).
    { destruct (scan_string s) as [[? ?]|?] eqn:E; [discriminate|].
      injection H as <-. now apply (scan_string_bounded _ s (le_n _)). }
    destruct (Ascii.eqb c "{").
    { pose proof (skip_ws_length s) as Ls.
      destruct (skip_ws s) as [|c' r'] eqn:Es; [now injection H as <-|].
      destruct (Ascii.eqb c' "}"); [discriminate|].
      rbind_raise_in H IHm; [discriminate|]. lia. }
    destruct (Ascii.eqb c "[").
    { pose proof (skip_ws_length s) as Ls.
      destruct (skip_ws s) as [|c' r'] eqn:Es; [now injection H as <-|].
      destruct (Ascii.eqb c' "]"); [discriminate|].
      rbind_raise_in H IHe; [discriminate|]. lia. }
    destruct (starts_with "null" _); [discriminate|].
    destruct (starts_with "true" _); [discriminate|].
    destruct (starts_with "false" _); [discriminate|].
    eapply scan_number_raises. exact H.
  - intros s e Hf H. rewrite parse_elems_eq in H.
    rbind_raise_in H IHv; [|lia].
    apply Cv in E. ws_raise_in H c r0.
    destruct (Ascii.eqb c "]"); [discriminate|].
    destruct (Ascii.eqb c ","); [|now injection H as <-].
    pose proof (skip_ws_length r0).
    rbind_raise_in H IHe; [discriminate|]. lia.
  - intros s e Hf H. rewrite parse_members_eq in H.
    destruct (expect_string s) as [[k rk]|e'] eqn:Ek;
      [cbn [rbind fst snd] in H
      | injection H as <-; now apply expect_string_raises in Ek].
    apply expect_string_length in Ek. ws_raise_in H c r0.
    destruct (Ascii.eqb c ":"); [|now injection H as <-].
    pose proof (skip_ws_length r0).
    rbind_raise_in H IHv; [|lia].
    apply Cv in E. ws_raise_in H c' r1.
    destruct (Ascii.eqb c' "}"); [discriminate|].
    destruct (Ascii.eqb c' ","); [|now injection H as <-].
    pose proof (skip_ws_length r1).
    rbind_raise_in H IHm; [discriminate|]. lia.
Qed.

(** [loads] fails with [JSONDecodeError], or on a text outside the model;
    in particular the recursion bound is never what stops it. *)
Lemma loads_raises (s : string) (e : exn) :
  loads s = Raise e -> decoder_exn e = true.
Proof.
  unfold loads. intros H. pose proof (skip_ws_length s) as L.
  rbind_raise_in H (proj1 (parse_raises (loads_fuel s)));
    [|unfold loads_fuel; lia].
  match type of H with
  | match skip_ws ?x with _ => _ end = _ => destruct (skip_ws x)
  end; [discriminate | now injection H as <-].
Qed.

(** ** The cache file *)

(** A value compared with a copy of itself: equal, unless a NaN occurs in
    it. *)
Lemma float_eq_self (x : pyfloat) :
  float_eq x x = match x with FNan => false | _ => true end.
Proof.
  destruct x as [|a|a|a m e]; cbn; try reflexivity.
  - apply Bool.eqb_reflx.
  - now rewrite Bool.eqb_reflx, !Z.eqb_refl.
Qed.

Lemma dict_get_head_nodup (d : dict) :
  nodupb (map fst d) = true ->
  forall kv, In kv d -> dict_get (fst kv) d = Some (snd kv).
Proof.
  induction d as [|[k v] d IH]; intros W kv Hin; [destruct Hin|].
  cbn [map fst nodupb] in W. apply andb_true_iff in W as [Hk W].
  cbn [dict_get]. destruct Hin as [<-|Hin].
  - cbn [fst snd]. now rewrite String.eqb_refl.
  - destruct (String.eqb (fst kv) k) eqn:E; [|now apply IH].
    apply String.eqb_eq in E. subst k. exfalso.
    apply negb_true_iff in Hk.
    assert (existsb (String.eqb (fst kv)) (map fst d) = true).
    { apply existsb_exists. exists (fst kv).
      split; [now apply in_map | apply String.eqb_refl]. }
    congruence.
Qed.

Lemma py_eq_self (v : json) : wf_json v = true -> py_eq v v = nan_free v.
Proof.
  induction v as [|b|z|x|s|l IH|d IH] using json_induction; intros W.
  - reflexivity.
  - cbn. apply Bool.eqb_reflx.
  - cbn. apply Z.eqb_refl.
  - cbn [py_eq nan_free]. rewrite float_eq_self. now destruct x.
  - cbn. apply String.eqb_refl.
  - cbn [py_eq nan_free]. cbn [wf_json] in W.
    induction IH as [|x l Hx Hl IHl]; [reflexivity|].
    cbn [forallb] in *. apply andb_true_iff in W as [Wx Wl].
    now rewrite (Hx Wx), (IHl Wl).
  - cbn [py_eq nan_free]. rewrite Nat.eqb_refl. cbn [andb wf_json] in *.
    apply andb_true_iff in W as [Wn Wd].
    pose proof (dict_get_head_nodup d Wn) as Hget.
    apply eq_true_iff_eq. rewrite !forallb_forall. split; intros H kv Hin.
    + specialize (H kv Hin). rewrite (Hget kv Hin) in H.
      rewrite Forall_forall in IH. rewrite <- (IH kv Hin); [exact H|].
      rewrite forallb_forall in Wd. now apply Wd.
    + rewrite (Hget kv Hin). rewrite Forall_forall in IH.
      rewrite (IH kv Hin); [now apply H|].
      rewrite forallb_forall in Wd. now apply Wd.
Qed.


(** C5, as stated, fails: a NaN is saved and read back, and the mapping
    read is not equal to the one saved. *)
Lemma saved_nan_is_not_read_back_equal :
  ~ (forall (d : dict) (w : world),
        wf_json (JDict d) = true -> writable (disk w) = true ->
        exists d',
          fst (load_cache (snd (save_cache (JDict d) w))) = Ok (JDict d')
          /\ py_eq (JDict d) (JDict d') = true).
Proof.
  intros H.
  destruct (H [("a", JFloat FNan)] empty_world eq_refl eq_refl) as (d' & Hl & He).
  injection Hl as <-. discriminate He.
Qed.

(** C4, as the code has it.  [load_cache] returns the empty mapping when the
    file is missing or holds the empty object; it raises exactly when
    [open] fails otherwise or the decoder rejects the contents, with that
    exception; and it never raises [FileNotFoundError]. *)
Theorem load_cache_outcomes (w : world) :
  (fst (load_cache w) = Ok (JDict []) <->
     disk w = NoFile \/ disk w = Locked None
     \/ exists s, (disk w = File s \/ disk w = Locked (Some s))
                  /\ loads s = Ok (JDict []))
  /\ (forall e, fst (load_cache w) = Raise e <->
        (disk w = Denied /\ e = PermissionError)
        \/ exists s, (disk w = File s \/ disk w = Locked (Some s))
                     /\ loads s = Raise e)
  /\ fst (load_cache w) <> Raise FileNotFoundError.
Proof.
  rewrite load_cache_run. cbn [fst].
  destruct (disk w) as [| |s|[s|]] eqn:E;
    (split; [|split; [intros e|]]); try split; intros;
    repeat match goal with
           | H : _ \/ _ |- _ => destruct H
           | H : exists _, _ |- _ => destruct H
           | H : _ /\ _ |- _ => destruct H
           | H : File _ = File _ |- _ => injection H as <-
           | H : Locked _ = Locked _ |- _ => injection H as <-
           | H : loads _ = Raise FileNotFoundError |- _ =>
               apply loads_raises in H
           end;
    try discriminate; try congruence; eauto 6;
    try (injection H as <-; now left);
    try (intros H; apply loads_raises in H; discriminate).
Qed.

(** C4, as stated, fails: a file that exists and holds the empty object is
    loaded as the empty mapping. *)
Lemma load_cache_empty_object_file :
  ~ (forall w, fst (load_cache w) = Ok (JDict []) <-> disk w = NoFile).
Proof.
  intros H.
  destruct (H (mkWorld (File "{}") JNull [] [])) as [H1 _].
  discriminate (H1 eq_refl).
Qed.

(** A file whose contents are not JSON makes [load_cache] raise. *)
Example load_cache_malformed_file :
  fst (load_cache (mkWorld (File "{oops") JNull [] [])) = Raise JSONDecodeError.
Proof. reflexivity. Qed.

(** ** The phone of a site *)

(** C7, as the code has it.  The constructor removes the newlines at both
    ends of the phone and nothing else, so the stored phone neither begins
    nor ends with a newline, also for the sites [get_site_instance]
    returns. *)
Theorem phone_has_no_surrounding_newline :
  (forall category name address zipcode phone url,
      NationalSite.phone (NationalSite.init category name address zipcode phone url)
      = strip_chars is_newline phone
      /\ no_surrounding is_newline
           (NationalSite.phone
              (NationalSite.init category name address zipcode phone url)))
  /\ (forall web soup_site site_url w site w',
      get_site_instance web soup_site site_url w = (Ok site, w') ->
      no_surrounding is_newline (NationalSite.phone site)).
Proof.
  split.
  - intros. split; [reflexivity | apply strip_chars_no_surrounding].
  - intros web soup_site site_url w site w' H.
    unfold get_site_instance, bind in H.
    destruct (load_cache w) as [[c|e] w1]; [|discriminate].
    destruct (set_CACHE_DICT c w1) as [[u|e] w2]; [|discriminate].
    destruct (make_url_request_using_cache web site_url w2) as [[t|e] w3];
      [|discriminate].
    unfold lift in H. destruct (soup_site t) as [page|e]; [|discriminate].
    injection H as <- _. apply strip_chars_no_surrounding.
Qed.

(** The sites listed for a state are built by the same constructor, from
    the phone of the site just parsed, and all carry their url. *)
Lemma listed_sites_phone_and_url
      (web : list event -> string -> option dict -> result string)
      (soup_site : json -> result site_page) (links : list (result string)) :
  forall w sites w',
    sites_of_links web soup_site links w = (Ok sites, w') ->
    Forall (fun site =>
              no_surrounding is_newline (NationalSite.phone site)
              /\ NationalSite.url site <> None) sites.
Proof.
  induction links as [|link links IH]; intros w sites w' H.
  - injection H as <- _. constructor.
  - cbn [sites_of_links] in H. unfold bind at 1, lift at 1 in H.
    destruct link as [path|e]; [|discriminate].
    unfold bind at 1 in H.
    destruct (get_site_instance web soup_site _ w) as [[sitei|e] w1];
      [|discriminate].
    unfold bind at 1 in H.
    destruct (sites_of_links web soup_site links w1) as [[rest|e] w2] eqn:E;
      [|discriminate].
    injection H as <- _. constructor.
    + split; [apply strip_chars_no_surrounding | discriminate].
    + now apply (IH w1 rest w2).
Qed.

(** C7, as stated, fails: blanks around the phone stay. *)
Lemma phone_keeps_surrounding_blanks :
  ~ (forall category name address zipcode phone url,
        no_surrounding is_space
          (NationalSite.phone
             (NationalSite.init category name address zipcode phone url))).
Proof.
  intros H.
  destruct (H "National Park" "Isle Royale" "Houghton, MI" "49931"
              " (906) 482-0984 " None) as [H1 _].
  discriminate (H1 " "%char eq_refl).
Qed.

(** ** Flattening an API answer *)

(** C2, at an entry without either category field: the fallback after the
    first lookup is not guarded, so the entry raises [KeyError] and with it
    the whole answer; and a blank second field is kept blank. *)
Theorem category_fallback_is_unguarded :
  flatten_member entry_no_category = Raise KeyError
  /\ make_nearby_instance_list (answer_of [entry_no_category]) = Raise KeyError
  /\ member_category entry_blank_ext = Ok "".
Proof. repeat split. Qed.

Lemma flatten_without_category (name : json) (fields : dict) :
  dict_get "group_sic_code_name" fields = None ->
  dict_get "group_sic_code_name_ext" fields = None ->
  flatten_member (JDict [("name", name); ("fields", JDict fields)])
  = Raise KeyError.
Proof.
  intros H1 H2. unfold flatten_member, member_category. cbn.
  now rewrite H1, H2.
Qed.

(** The address of an entry never raises, and is the sentinel whenever the
    entry has no text under [fields.address] or a blank one. *)
Lemma street_address_or_sentinel (member : json) :
  member_street_address member =
  Ok (match address_text member with
      | Some s => if String.eqb (strip s) "" then "no address" else strip s
      | None => "no address"
      end).
Proof.
  unfold member_street_address, address_text.
  destruct (getitem member "fields") as [fields|e]; [|reflexivity].
  cbn [rbind]. destruct (getitem fields "address") as [[| | | |s| |]|e];
    try reflexivity.
  cbn. now destruct (String.eqb (strip s) "").
Qed.

Lemma flatten_members_cons (member : json) (rest : list json)
      (place : NearbyPlace.t) :
  flatten_member member = Ok place ->
  flatten_members (member :: rest)
  = rbind (flatten_members rest) (fun places => Ok (place :: places)).
Proof. intros H. cbn [flatten_members]. now rewrite H. Qed.

(** C6, at an entry without [fields.address] that also lacks the category
    fields: no record is produced and the entry after it is not reached. *)
Theorem missing_address_entry_can_abort :
  address_text entry_no_category = None
  /\ make_nearby_instance_list (answer_of [entry_no_category; entry_complete])
     = Raise KeyError
  /\ is_ok (flatten_member entry_complete) = true.
Proof. repeat split. Qed.

(** Where the category is found, the entry without an address is flattened
    with the sentinel and the entries after it follow. *)
Example missing_address_entry_flattened :
  make_nearby_instance_list (answer_of [entry_no_address; entry_complete])
  = Ok [NearbyPlace.mk (JStr "Ranger III Dock") "Marinas" "no address" "Houghton";
        NearbyPlace.mk (JStr "Suomi Restaurant") "Restaurants" "54 Huron St"
          "Houghton"].
Proof. reflexivity. Qed.

(** ** The selection prompt *)

Lemma digit_is_numeric (s : string) :
  string_forall is_digit s = true -> string_forall is_numeric_char s = true.
Proof.
  induction s as [|c s IH]; [trivial|]. cbn [string_forall].
  intros H. apply andb_true_iff in H as [Hc Hs].
  rewrite (IH Hs), andb_true_r. unfold is_numeric_char, is_digit in *.
  now rewrite Hc.
Qed.

Lemma str_of_nat_digits (k : nat) : string_forall is_digit (str_of_nat k) = true.
Proof. apply digits_all. Qed.

Lemma str_of_nat_nonempty (k : nat) : is_empty (str_of_nat k) = false.
Proof.
  unfold str_of_nat. destruct (digits_head (N.of_nat k)) as (c & r & E & _).
  now rewrite E.
Qed.

Lemma str_of_nat_isnumeric (k : nat) : isnumeric (str_of_nat k) = true.
Proof.
  unfold isnumeric.
  now rewrite str_of_nat_nonempty, (digit_is_numeric _ (str_of_nat_digits k)).
Qed.

Lemma int_of_str_of_nat (k : nat) : int_of_numeric (str_of_nat k) = Ok (Z.of_nat k).
Proof.
  unfold int_of_numeric. rewrite str_of_nat_digits, str_of_nat_nonempty.
  unfold str_of_nat. rewrite NilEmpty.usu, DecimalN.Unsigned.of_to.
  cbn. now rewrite nat_N_Z.
Qed.

Lemma digits_not_word (s : string) (c : ascii) (word : string) :
  string_forall is_digit s = true -> is_digit c = false ->
  String.eqb s (String c word) = false.
Proof.
  intros Hs Hc. destruct s as [|x s]; [reflexivity|].
  cbn [string_forall] in Hs. apply andb_true_iff in Hs as [Hx _].
  cbn [String.eqb]. destruct (Ascii.eqb_spec x c) as [->|]; [congruence | reflexivity].
Qed.

Lemma str_of_nat_not_word (k : nat) (c : ascii) (word : string) :
  is_digit c = false -> String.eqb (str_of_nat k) (String c word) = false.
Proof. apply digits_not_word, str_of_nat_digits. Qed.

Lemma lower_digits (s : string) :
  string_forall is_digit s = true -> lower s = s.
Proof.
  induction s as [|c s IH]; [reflexivity|]. cbn [string_forall lower].
  intros H. apply andb_true_iff in H as [Hc Hs]. rewrite (IH Hs). f_equal.
  destruct c as [[|] [|] [|] [|] [|] [|] [|] [|]]; try discriminate; reflexivity.
Qed.

Lemma py_index_last {A} (l : list A) (x : A) : py_index (l ++ [x])%list (-1) = Ok x.
Proof.
  unfold py_index. rewrite length_app. cbn [List.length Z.ltb Z.compare].
  replace (-1 + Z.of_nat (List.length l + 1))%Z with (Z.of_nat (List.length l))
    by lia.
  replace (0 <=? Z.of_nat (List.length l))%Z with true
    by (symmetry; apply Z.leb_le; lia).
  replace (Z.of_nat (List.length l) <? Z.of_nat (List.length l + 1))%Z with true
    by (symmetry; apply Z.ltb_lt; lia).
  rewrite Nat2Z.id, nth_error_app2, Nat.sub_diag by lia. reflexivity.
Qed.

Lemma py_index_nth {A} (l : list A) (k : nat) (x : A) :
  nth_error l k = Some x -> py_index l (Z.of_nat (S k) - 1) = Ok x.
Proof.
  intros H. assert (Hk : k < List.length l) by (apply nth_error_Some; congruence).
  unfold py_index. replace (Z.of_nat (S k) - 1)%Z with (Z.of_nat k) by lia.
  replace (Z.of_nat k <? 0)%Z with false by (symmetry; apply Z.ltb_ge; lia).
  replace (0 <=? Z.of_nat k)%Z with true by (symmetry; apply Z.leb_le; lia).
  replace (Z.of_nat k <? Z.of_nat (List.length l))%Z with true
    by (symmetry; apply Z.ltb_lt; lia).
  now rewrite Nat2Z.id, H.
Qed.

Section Selection.

Variable API_KEY : string.
Variable web : list event -> string -> option dict -> result string.
Variable soup_site : json -> result site_page.

Local Abbreviation body := (selection_body API_KEY web soup_site).
Local Abbreviation show := (show_detail API_KEY web soup_site).

(** C1, at the input ["0"]: it passes the one-sided range test and, by
    Python's negative indices, the last site of the list is fetched and
    shown; with an empty list the lookup raises [IndexError]. *)
Theorem zero_selects_the_last_site :
  (forall sites last w,
      body (sites ++ [last])%list "0" w = (show last ;; ret Again) w)
  /\ (forall w, body [] "0" w = (Raise IndexError, w)).
Proof.
  split.
  - intros sites last w. unfold selection_body, detail_search.
    cbn [String.eqb Ascii.eqb Bool.eqb isnumeric is_empty negb andb
         string_forall].
    change (isnumeric "0") with true. change (int_of_numeric "0") with (Ok 0%Z).
    unfold bind at 1, lift at 1.
    replace (0 <=? Z.of_nat (List.length (sites ++ [last])%list))%Z with true
      by (symmetry; apply Z.leb_le; lia).
    cbn [andb]. change (0 - 1)%Z with (-1)%Z. rewrite py_index_last.
    reflexivity.
  - intros w. reflexivity.
Qed.

(** The inputs ["1"] to ["N"] show the site of that number. *)
Lemma number_in_range_selects (sites : list NationalSite.t) (k : nat)
      (site : NationalSite.t) (w : world) :
  nth_error sites k = Some site ->
  body sites (str_of_nat (S k)) w = (show site ;; ret Again) w.
Proof.
  intros H. assert (Hk : k < List.length sites) by (apply nth_error_Some; congruence).
  unfold selection_body, detail_search.
  rewrite (str_of_nat_not_word (S k) "b" "ack" eq_refl).
  rewrite (str_of_nat_not_word (S k) "e" "xit" eq_refl).
  rewrite str_of_nat_isnumeric. unfold bind at 1, lift at 1.
  rewrite int_of_str_of_nat.
  replace (Z.of_nat (S k) <=? Z.of_nat (List.length sites))%Z with true
    by (symmetry; apply Z.leb_le; lia).
  cbn [andb]. now rewrite (py_index_nth _ _ _ H).
Qed.

(** A number above the length of the list is rejected: two lines are
    printed and nothing else happens. *)
Lemma number_above_range_rejected (sites : list NationalSite.t) (k : nat)
      (w : world) :
  List.length sites < k -> body sites (str_of_nat k) w = rejected w.
Proof.
  intros Hk. unfold selection_body.
  rewrite (str_of_nat_not_word k "b" "ack" eq_refl).
  rewrite (str_of_nat_not_word k "e" "xit" eq_refl).
  rewrite str_of_nat_isnumeric. unfold bind at 1, lift at 1.
  rewrite int_of_str_of_nat.
  replace (Z.of_nat k <=? Z.of_nat (List.length sites))%Z with false
    by (symmetry; apply Z.leb_gt; lia).
  cbn [andb]. unfold rejected, invalid_input, bind, print, log, ret, add_trace.
  cbn. now rewrite <- List.app_assoc.
Qed.

(** A line that is not numeric, and is neither word, is rejected too. *)
Lemma non_numeric_rejected (sites : list NationalSite.t) (option : string)
      (w : world) :
  isnumeric option = false -> option <> "back" -> option <> "exit" ->
  body sites option w = rejected w.
Proof.
  intros Hn Hb He. unfold selection_body.
  apply String.eqb_neq in Hb, He. rewrite Hb, He, Hn.
  unfold rejected, invalid_input, bind, print, log, ret, add_trace.
  cbn. now rewrite <- List.app_assoc.
Qed.

(** A turn of the loop reads the line, lower-cases it and leaves a number
    as it is. *)
Lemma turn_with_number (sites : list NationalSite.t) (k : nat)
      (site : NationalSite.t) (w : world) (rest : list string) :
  stdin w = str_of_nat (S k) :: rest ->
  nth_error sites k = Some site ->
  selection_turn API_KEY web soup_site sites w
  = (show site ;; ret Again)
      (mkWorld (disk w) (CACHE_DICT w) rest
         (trace w ++ [EvInput selection_prompt])%list).
Proof.
  intros Hin Hk. unfold selection_turn, input, bind at 1 2, log.
  cbn [stdin disk CACHE_DICT trace]. rewrite Hin.
  rewrite (lower_digits _ (str_of_nat_digits (S k))).
  now apply number_in_range_selects.
Qed.

End Selection.

(** ** The statements above, at the sample data *)

Lemma fetch_uses_cache_then_network_witness :
  CACHE_DICT empty_world = JDict []
  /\ fst (make_url_request_using_cache sample_web URL empty_world)
     = Ok (JStr "<html>Isle Royale</html>")
  /\ gets (trace (snd (make_url_request_using_cache sample_web URL empty_world)))
     = 1.
Proof.
  split; [reflexivity|].
  destruct (fetch_uses_cache_then_network sample_web URL empty_world [] eq_refl)
    as [_ Hmiss].
  destruct (Hmiss eq_refl) as [Hone Hrest].
  destruct (Hrest "<html>Isle Royale</html>" eq_refl eq_refl) as [Hret _].
  split; [exact Hret | exact Hone].
Defined.

Lemma hit_never_saves_witness :
  CACHE_DICT warm_world = JDict warm
  /\ disk (snd (make_url_request_using_cache sample_web URL warm_world))
     = disk warm_world.
Proof.
  split; [reflexivity|].
  destruct (hit_never_saves sample_web URL warm_world warm eq_refl) as [Hhit _].
  exact (proj1 (Hhit eq_refl)).
Defined.

Lemma cache_only_grows_witness :
  CACHE_DICT warm_world = JDict warm
  /\ stored warm_world warm
  /\ (exists d',
         stored (snd (make_url_request_using_cache sample_web
                        "https://www.nps.gov/state/mi/index.htm" warm_world)) d'
         /\ dict_extends warm d')
  /\ (exists d',
         stored (snd (make_request_with_cache_api "key" near_web places_url
                        isle_royale warm_world)) d'
         /\ dict_extends warm d').
Proof.
  assert (Hs : stored warm_world warm) by (vm_compute; reflexivity).
  split; [reflexivity|]. split; [exact Hs|].
  split.
  - destruct (cache_only_grows "key" sample_web) as [Hpage _].
    exact (proj2 (Hpage "https://www.nps.gov/state/mi/index.htm" warm_world warm
                    eq_refl) Hs).
  - destruct (cache_only_grows "key" near_web) as [_ Hapi]. now apply Hapi.
Defined.

Lemma api_fetch_params_and_key_witness :
  stored empty_world []
  /\ writable (disk empty_world) = true
  /\ loads (dumps (answer_of [entry_near])) = Ok (answer_of [entry_near])
  /\ fst (make_request_with_cache_api "key" near_web places_url isle_royale
            empty_world)
     = Ok (answer_of [entry_near])
  /\ stored (snd (make_request_with_cache_api "key" near_web places_url
                    isle_royale empty_world))
       [("Isle Royale", answer_of [entry_near])].
Proof.
  assert (Hs : stored empty_world []) by reflexivity.
  assert (Hl : loads (dumps (answer_of [entry_near])) = Ok (answer_of [entry_near]))
    by (apply loads_dumps; reflexivity).
  split; [exact Hs|]. split; [reflexivity|]. split; [exact Hl|].
  destruct (api_fetch_params_and_key "key" near_web places_url isle_royale
              empty_world [] Hs) as (_ & _ & Hmiss).
  destruct (Hmiss eq_refl) as [_ Hrest].
  exact (proj1 (Hrest (dumps (answer_of [entry_near])) (answer_of [entry_near])
                  eq_refl Hl) eq_refl).
Defined.


Lemma phone_has_no_surrounding_newline_witness :
  (exists w', get_site_instance sample_web sample_soup_site URL empty_world
              = (Ok parsed_isle_royale, w'))
  /\ no_surrounding is_newline (NationalSite.phone parsed_isle_royale).
Proof.
  assert (H : exists w', get_site_instance sample_web sample_soup_site URL
                           empty_world = (Ok parsed_isle_royale, w'))
    by (eexists; vm_compute; reflexivity).
  split; [exact H|]. destruct H as [w' H].
  exact (proj2 phone_has_no_surrounding_newline _ _ _ _ _ _ H).
Defined.

(** The selection loop on sample input: with two sites listed, ["0"] makes
    the program fetch the second one, and the only lines printed are those
    of the places found. *)
Example zero_fetches_the_second_site :
  let run := selection_body "key" sample_web sample_soup_site
               [isle_royale; keweenaw] "0" empty_world in
  fst run = Ok Again
  /\ filter is_get (trace (snd run))
     = [EvGet "https://www.nps.gov/kewe/index.htm" None;
        EvGet places_url (Some (api_params "key" parsed_isle_royale))].
Proof. vm_compute. split; reflexivity. Qed.

(** The sites of a state, on the sample pages: one site per link, each with
    the url it was read from. *)
Example sites_for_state_run :
  let run := get_sites_for_state sample_web sample_soup_site sample_soup_state
               "https://www.nps.gov/state/mi/index.htm" empty_world in
  option_map (map NationalSite.url) (match fst run with
                                     | Ok sites => Some sites
                                     | Raise _ => None
                                     end)
  = Some [Some "https://www.nps.gov/isro/index.htm";
          Some "https://www.nps.gov/kewe/index.htm"]
  /\ gets (trace (snd run)) = 3.
Proof. vm_compute. split; reflexivity. Qed.

(** Numeric characters that are not decimal digits pass [isnumeric] and make
    [int] raise. *)
Example superscript_two_raises :
  fst (selection_body "key" sample_web sample_soup_site [isle_royale]
         (String "178" "") empty_world) = Raise ValueError.
Proof. reflexivity. Qed.

(** A run of the loop: a number above the range, a word, a valid number,
    then ["BACK"]. *)
Example selection_loop_run :
  let w := mkWorld NoFile (JDict []) ["3"; "north"; "1"; "BACK"] [] in
  let run := selection_loop "key" sample_web sample_soup_site 5
               [isle_royale; keweenaw] w in
  fst run = Ok GoBack
  /\ stdin (snd run) = []
  /\ gets (trace (snd run)) = 2.
Proof. vm_compute. repeat split. Qed.

(** * The rest of the program *)

(** ** Flattening, field by field *)

Lemma field_or_sentinel (member : json) (k sentinel : string) :
  try_except
    (rbind (getitem member "fields") (fun fields =>
     rbind (getitem fields k) (fun v =>
     rbind (strip_value v) (fun text =>
     if String.eqb text "" then Ok sentinel else Ok text))))
    (Ok sentinel)
  = Ok (or_sentinel sentinel (field_text member k)).
Proof.
  unfold field_text, or_sentinel.
  destruct (getitem member "fields") as [fields|e]; [|reflexivity].
  cbn [rbind]. destruct (getitem fields k) as [[| | | |s| |]|e]; try reflexivity.
  cbn. now destruct (String.eqb (strip s) "").
Qed.

Lemma or_sentinel_clean (sentinel : string) (text : option string) :
  sentinel <> "" -> no_surrounding is_space sentinel ->
  or_sentinel sentinel text <> "" /\ no_surrounding is_space (or_sentinel sentinel text).
Proof.
  intros Hn Hs. unfold or_sentinel. destruct text as [s|]; [|now split].
  destruct (String.eqb_spec (strip s) ""); [now split|].
  split; [assumption | apply strip_chars_no_surrounding].
Qed.

Lemma flatten_member_fields (member : json) (place : NearbyPlace.t) :
  flatten_member member = Ok place ->
  getitem member "name" = Ok (NearbyPlace.name place)
  /\ member_category member = Ok (NearbyPlace.category place)
  /\ NearbyPlace.street_address place
     = or_sentinel "no address" (field_text member "address")
  /\ NearbyPlace.city_name place
     = or_sentinel "no city" (field_text member "city").
Proof.
  unfold flatten_member, member_street_address, member_city_name.
  rewrite !field_or_sentinel.
  destruct (getitem member "name") as [n|e]; [|discriminate].
  destruct (member_category member) as [c|e]; [|discriminate].
  cbn. intros [= <-]. repeat split.
Qed.

(** X1. In every place the flattening returns, the street address and the
    city are the stripped text of the entry or, where that is missing,
    not a string or blank, the sentinel: they are never empty and never
    begin or end with white space. *)
Theorem flattened_address_and_city_are_clean (member : json)
        (place : NearbyPlace.t) :
  flatten_member member = Ok place ->
  let address := NearbyPlace.street_address place in
  let city := NearbyPlace.city_name place in
  address = or_sentinel "no address" (field_text member "address")
  /\ city = or_sentinel "no city" (field_text member "city")
  /\ address <> "" /\ city <> ""
  /\ no_surrounding is_space address /\ no_surrounding is_space city.
Proof.
  intros H. apply flatten_member_fields in H as (_ & _ & Ha & Hc).
  cbv zeta. rewrite Ha, Hc.
  assert (Sa : no_surrounding is_space "no address")
    by (split; intros c [= <-]; reflexivity).
  assert (Sc : no_surrounding is_space "no city")
    by (split; intros c [= <-]; reflexivity).
  destruct (or_sentinel_clean "no address" (field_text member "address")
              ltac:(discriminate) Sa) as [A1 A2].
  destruct (or_sentinel_clean "no city" (field_text member "city")
              ltac:(discriminate) Sc) as [C1 C2].
  exact (conj eq_refl (conj eq_refl (conj A1 (conj C1 (conj A2 C2))))).
Qed.

(** X2. The category of an entry: the stripped text of the first field, or
    the sentinel where that text is blank; without a text under the first
    field, the stripped text of the second, blank or not; without either,
    an exception.  An entry is flattened exactly when it has a name and a
    text under one of the two fields. *)
Theorem category_by_cases (member : json) :
  match field_text member "group_sic_code_name",
        field_text member "group_sic_code_name_ext" with
  | Some s, _ => member_category member = Ok (or_sentinel "no category" (Some s))
  | None, Some s => member_category member = Ok (strip s)
  | None, None => is_ok (member_category member) = false
  end
  /\ is_ok (flatten_member member)
     = is_ok (getitem member "name")
       && (is_some (field_text member "group_sic_code_name")
           || is_some (field_text member "group_sic_code_name_ext")).
Proof.
  assert (Hc : match field_text member "group_sic_code_name",
                     field_text member "group_sic_code_name_ext" with
               | Some s, _ =>
                   member_category member = Ok (or_sentinel "no category" (Some s))
               | None, Some s => member_category member = Ok (strip s)
               | None, None => is_ok (member_category member) = false
               end).
  { unfold member_category, field_text, or_sentinel.
    destruct (getitem member "fields") as [fields|e]; [|reflexivity].
    cbn [rbind].
    destruct (getitem fields "group_sic_code_name") as [[| | | |s| |]|e];
      cbn [rbind strip_value try_except];
      try (destruct (getitem fields "group_sic_code_name_ext")
             as [[| | | |s'| |]|e']; reflexivity).
    now destruct (String.eqb (strip s) ""). }
  split; [exact Hc|].
  unfold flatten_member, member_street_address, member_city_name.
  rewrite !field_or_sentinel.
  destruct (getitem member "name") as [n|e]; [|reflexivity].
  cbn [rbind is_ok andb].
  destruct (field_text member "group_sic_code_name") as [s|];
    [|destruct (field_text member "group_sic_code_name_ext") as [s|]];
    cbn [is_some orb]; try (rewrite Hc; reflexivity).
  destruct (member_category member); [discriminate | reflexivity].
Qed.

Lemma flatten_members_shape (members : list json) :
  forall places,
    flatten_members members = Ok places ->
    Forall2 (fun member place => flatten_member member = Ok place) members places.
Proof.
  induction members as [|m members IH]; intros places H.
  - injection H as <-. constructor.
  - cbn [flatten_members] in H.
    destruct (flatten_member m) as [p|e] eqn:Em; [|discriminate].
    cbn [rbind] in H.
    destruct (flatten_members members) as [ps|e]; [|discriminate].
    injection H as <-. constructor; [exact Em | now apply IH].
Qed.

(** X3. When [make_nearby_instance_list] returns, it returns one place per
    item of ["searchResults"], in the order of the items, each with the
    name of its item. *)
Theorem one_place_per_entry (nearby_dict : json) (places : list NearbyPlace.t) :
  make_nearby_instance_list nearby_dict = Ok places ->
  exists members,
    rbind (getitem nearby_dict "searchResults") iterate = Ok members
    /\ List.length places = List.length members
    /\ Forall2 (fun member place =>
                  getitem member "name" = Ok (NearbyPlace.name place))
         members places.
Proof.
  unfold make_nearby_instance_list. intros H.
  destruct (getitem nearby_dict "searchResults") as [results|e]; [|discriminate].
  cbn [rbind] in *. destruct (iterate results) as [members|e]; [|discriminate].
  cbn [rbind] in H. exists members. split; [reflexivity|].
  apply flatten_members_shape in H. split.
  - symmetry. eapply Forall2_length. exact H.
  - eapply Forall2_impl; [|exact H].
    intros m p Hm. now apply flatten_member_fields in Hm.
Qed.

(** ** Printing the places *)

Lemma add_trace_nil (w : world) : add_trace w [] = w.
Proof. destruct w. unfold add_trace. cbn. now rewrite List.app_nil_r. Qed.

Lemma add_trace_app (w : world) (l l' : list event) :
  add_trace (add_trace w l) l' = add_trace w (l ++ l')%list.
Proof. unfold add_trace. cbn. now rewrite List.app_assoc. Qed.

Lemma print_run (line : string) (w : world) :
  print line w = (Ok tt, add_trace w [EvPrint line]).
Proof. reflexivity. Qed.

Lemma print_places_run (places : list NearbyPlace.t) (w : world) :
  print_places places w
  = (if Nat.eqb (List.length (named_prefix places)) (List.length places)
     then Ok tt else Raise TypeError,
     add_trace w (map place_line (named_prefix places))).
Proof.
  revert w. induction places as [|p places IH]; intros w.
  - cbn. now rewrite add_trace_nil.
  - cbn [print_places named_prefix]. unfold bind at 1, lift at 1.
    unfold NearbyPlace.info at 1.
    destruct (NearbyPlace.name p) as [| | | |n| |] eqn:En;
      try (cbn; now rewrite add_trace_nil).
    unfold bind at 1. rewrite print_run, IH, add_trace_app.
    cbn [List.length Nat.eqb map List.app]. f_equal. f_equal. f_equal.
    unfold place_line, NearbyPlace.info. now rewrite En.
Qed.

(** X4. [print_places] prints one line per place for as long as the names
    are strings; at the first name that is not (a number or [null] in the
    API answer) it raises [TypeError], with the lines before it printed and
    none after. *)
Theorem places_printed_up_to_first_unnamed (places : list NearbyPlace.t)
        (w : world) :
  print_places places w
  = (if Nat.eqb (List.length (named_prefix places)) (List.length places)
     then Ok tt else Raise TypeError,
     add_trace w (map place_line (named_prefix places))).
Proof.
  exact (print_places_run places w).
Qed.

(** ** Reloading and fetching a page *)

Section Pages.

Variable web : list event -> string -> option dict -> result string.
Variable soup_site : json -> result site_page.
Variable soup_state : json -> result (list (result string)).
Variable soup_index : json -> result (list (result string * string)).

Lemma fetch_page_run (url : string) (w : world) :
  fetch_page web url w =
  match fst (load_cache w) with
  | Ok c => make_url_request_using_cache web url (reloaded w c)
  | Raise e => (Raise e, add_trace w [EvOpen "r"])
  end.
Proof.
  unfold fetch_page, bind. rewrite load_cache_run. cbn [fst].
  destruct (disk w) as [| |s|[s|]]; try reflexivity;
    destruct (loads s); reflexivity.
Qed.

(** The page functions are the fetch followed by the reading of the page. *)
Lemma get_site_instance_run (url : string) (w : world) :
  get_site_instance web soup_site url w =
  (rbind (fst (fetch_page web url w)) (fun text =>
   rbind (soup_site text) (fun page => Ok (site_of_page page))),
   snd (fetch_page web url w)).
Proof.
  unfold get_site_instance, fetch_page, bind.
  destruct (load_cache w) as [[c|e] w1]; [|reflexivity].
  destruct (set_CACHE_DICT c w1) as [[u|e] w2]; [|reflexivity].
  destruct (make_url_request_using_cache web url w2) as [[t|e] w3]; [|reflexivity].
  unfold lift, ret. cbn [fst snd rbind]. now destruct (soup_site t).
Qed.

Lemma get_sites_for_state_run (url : string) (w : world) :
  get_sites_for_state web soup_site soup_state url w =
  match fetch_page web url w with
  | (Ok text, w1) =>
      match soup_state text with
      | Ok links => sites_of_links web soup_site links w1
      | Raise e => (Raise e, w1)
      end
  | (Raise e, w1) => (Raise e, w1)
  end.
Proof.
  unfold get_sites_for_state, fetch_page, bind.
  destruct (load_cache w) as [[c|e] w1]; [|reflexivity].
  destruct (set_CACHE_DICT c w1) as [[u|e] w2]; [|reflexivity].
  destruct (make_url_request_using_cache web url w2) as [[t|e] w3]; [|reflexivity].
  unfold lift. now destruct (soup_state t).
Qed.

Lemma build_state_url_dict_run (w : world) :
  build_state_url_dict web soup_index w =
  (rbind (fst (fetch_page web URL w)) (fun text =>
   rbind (soup_index text) (fun items => states_of_items items [])),
   snd (fetch_page web URL w)).
Proof.
  unfold build_state_url_dict, fetch_page, bind.
  change (base_url ++ "/index.htm") with URL.
  destruct (load_cache w) as [[c|e] w1]; [|reflexivity].
  destruct (set_CACHE_DICT c w1) as [[u|e] w2]; [|reflexivity].
  destruct (make_url_request_using_cache web URL w2) as [[t|e] w3]; [|reflexivity].
  unfold lift. cbn [fst snd rbind]. now destruct (soup_index t).
Qed.

Lemma stored_reloaded (w : world) (d : dict) (evs : list event) :
  stored w d -> stored (add_trace (reloaded w (JDict d)) evs) d.
Proof. intros H. unfold stored. now rewrite <- (load_cache_disk w). Qed.

Lemma stored_written (w : world) (d : dict) :
  wf_json (JDict d) = true -> disk w = File (dumps (JDict d)) -> stored w d.
Proof.
  intros W H. unfold stored. rewrite load_cache_run, H. cbn [fst].
  now apply loads_dumps.
Qed.

Lemma fetch_page_hit (url : string) (w : world) (d : dict) (v : json) :
  stored w d -> dict_get url d = Some v ->
  fetch_page web url w
  = (Ok v, add_trace (reloaded w (JDict d)) [EvPrint "Using cache"]).
Proof.
  intros Hs Hv. rewrite fetch_page_run. unfold stored in Hs. rewrite Hs.
  exact (fetch_hit web url (reloaded w (JDict d)) d v eq_refl Hv).
Qed.

Lemma fetch_page_miss (url : string) (w : world) (d : dict) :
  stored w d -> dict_get url d = None ->
  fetch_page web url w =
  match web (trace w ++ [EvOpen "r"; EvPrint "Fetching"])%list url None with
  | Raise e =>
      (Raise e, add_trace (reloaded w (JDict d)) [EvPrint "Fetching"; EvGet url None])
  | Ok text =>
      let cache' := JDict (fetched url text d) in
      if writable (disk w) then
        (Ok (JStr text),
         mkWorld (File (dumps cache')) cache' (stdin w)
           (trace w ++ [EvOpen "r"; EvPrint "Fetching"; EvGet url None;
                        EvOpen "w"; EvWrite (dumps cache')])%list)
      else
        (Raise PermissionError,
         mkWorld (disk w) cache' (stdin w)
           (trace w ++ [EvOpen "r"; EvPrint "Fetching"; EvGet url None;
                        EvOpen "w"])%list)
  end.
Proof.
  intros Hs Hv.
  rewrite fetch_page_run. unfold stored in Hs. rewrite Hs.
  rewrite (fetch_miss web url (reloaded w (JDict d)) d eq_refl Hv).
  unfold reloaded. cbn [trace disk stdin CACHE_DICT].
  rewrite <- !List.app_assoc. cbn [List.app].
  destruct (web _ url None) as [text|e]; [|reflexivity].
  cbv zeta. destruct (writable (disk w));
    rewrite <- ?List.app_assoc; reflexivity.
Qed.

(** After a page was fetched, the mapping in memory and the one in the
    file are the same, and hold the page under its url. *)
Lemma fetch_page_ok (url : string) (w w' : world) (v : json) :
  fetch_page web url w = (Ok v, w') ->
  exists d', stored w' d' /\ CACHE_DICT w' = JDict d'
             /\ dict_get url d' = Some v.
Proof.
  intros H.
  destruct (fst (load_cache w)) as [c|e] eqn:El;
    [|rewrite fetch_page_run, El in H; discriminate].
  destruct c as [| | | | | |d];
    try (rewrite fetch_page_run, El in H;
         unfold make_url_request_using_cache, bind in H; discriminate).
  assert (Hs : stored w d) by exact El.
  destruct (dict_get url d) as [v0|] eqn:Hv.
  - rewrite (fetch_page_hit url w d v0 Hs Hv) in H. injection H as <- <-.
    exists d. split; [now apply stored_reloaded|]. now split.
  - rewrite (fetch_page_miss url w d Hs Hv) in H.
    destruct (web _ url None) as [text|e]; [|discriminate].
    cbv zeta in H. destruct (writable (disk w)); [|discriminate].
    injection H as <- <-. exists (fetched url text d).
    split; [|split; [reflexivity | apply dict_get_set_same]].
    apply stored_written; [|reflexivity].
    apply dict_set_wf; [reflexivity | now apply stored_wf in Hs].
Qed.

Lemma fetch_page_again (url : string) (w : world) (d : dict) (v : json) :
  stored w d -> CACHE_DICT w = JDict d -> dict_get url d = Some v ->
  fetch_page web url w = (Ok v, add_trace w [EvOpen "r"; EvPrint "Using cache"]).
Proof.
  intros Hs Hc Hv. rewrite (fetch_page_hit url w d v Hs Hv).
  unfold add_trace, reloaded. cbn. rewrite <- Hc, <- List.app_assoc.
  reflexivity.
Qed.

(** X5. A site that was fetched and parsed is afterwards read from the
    cache: the same call again returns the same site, opens the file for
    reading, prints the trace line and does nothing else; no request is
    made. *)
Theorem site_is_fetched_once (url : string) (w w' : world)
        (site : NationalSite.t) :
  get_site_instance web soup_site url w = (Ok site, w') ->
  get_site_instance web soup_site url w'
  = (Ok site, add_trace w' [EvOpen "r"; EvPrint "Using cache"]).
Proof.
  intros H. rewrite get_site_instance_run in H.
  destruct (fetch_page web url w) as [[v|e] w1] eqn:Ef; [|discriminate].
  cbn [fst snd rbind] in H. injection H as Hsite <-.
  destruct (fetch_page_ok url w w1 v Ef) as (d' & Hs & Hc & Hv).
  rewrite get_site_instance_run, (fetch_page_again url w1 d' v Hs Hc Hv).
  cbn [fst snd rbind]. now rewrite Hsite.
Qed.

End Pages.

(** ** What the operations leave alone *)

Lemma keeps_stdin_ret {A} (a : A) : keeps_stdin (ret a).
Proof. intros w. reflexivity. Qed.

Lemma keeps_stdin_raise {A} (e : exn) : keeps_stdin (@raise A e).
Proof. intros w. reflexivity. Qed.

Lemma keeps_stdin_lift {A} (r : result A) : keeps_stdin (lift r).
Proof. intros w. reflexivity. Qed.

Lemma keeps_stdin_log (e : event) : keeps_stdin (log e).
Proof. intros w. reflexivity. Qed.

Lemma keeps_stdin_print (line : string) : keeps_stdin (print line).
Proof. intros w. reflexivity. Qed.

Lemma keeps_stdin_get_disk : keeps_stdin get_disk.
Proof. intros w. reflexivity. Qed.

Lemma keeps_stdin_set_disk (f : file_state) : keeps_stdin (set_disk f).
Proof. intros w. reflexivity. Qed.

Lemma keeps_stdin_get_cache : keeps_stdin get_CACHE_DICT.
Proof. intros w. reflexivity. Qed.

Lemma keeps_stdin_set_cache (c : json) : keeps_stdin (set_CACHE_DICT c).
Proof. intros w. reflexivity. Qed.

Lemma keeps_stdin_get (web : list event -> string -> option dict -> result string)
      (url : string) (params : option dict) :
  keeps_stdin (requests_get web url params).
Proof. intros w. reflexivity. Qed.

Lemma keeps_stdin_bind {A B} (m : M A) (k : A -> M B) :
  keeps_stdin m -> (forall a, keeps_stdin (k a)) -> keeps_stdin (bind m k).
Proof.
  intros Hm Hk w. unfold bind. specialize (Hm w).
  destruct (m w) as [[a|e] w1]; cbn [snd] in *; [|exact Hm].
  now rewrite Hk.
Qed.

Create HintDb stdin_kept discriminated.

#[local] Hint Resolve keeps_stdin_ret keeps_stdin_raise keeps_stdin_lift
  keeps_stdin_log keeps_stdin_print keeps_stdin_get_disk keeps_stdin_set_disk
  keeps_stdin_get_cache keeps_stdin_set_cache keeps_stdin_get : stdin_kept.

(** Splits a computation along its binds and branches, down to the
    operations known to the database. *)
Ltac stdin_kept :=
  repeat first
    [ solve [auto with stdin_kept]
    | apply keeps_stdin_bind; [|intros ?]
    | match goal with
      | |- keeps_stdin (if ?b then _ else _) => destruct b
      | |- keeps_stdin (match ?x with _ => _ end) => destruct x
      | |- keeps_stdin (let _ := _ in _) => cbv zeta
      end ].

Lemma keeps_stdin_load_cache : keeps_stdin load_cache.
Proof. unfold load_cache. stdin_kept. Qed.

Lemma keeps_stdin_save_cache (cache : json) : keeps_stdin (save_cache cache).
Proof. unfold save_cache. stdin_kept. Qed.

#[local] Hint Resolve keeps_stdin_load_cache keeps_stdin_save_cache : stdin_kept.

Section Frames.

Variable API_KEY : string.
Variable web : list event -> string -> option dict -> result string.
Variable soup_site : json -> result site_page.
Variable soup_state : json -> result (list (result string)).

Lemma keeps_stdin_fetch (url : string) :
  keeps_stdin (make_url_request_using_cache web url).
Proof. unfold make_url_request_using_cache. stdin_kept. Qed.

Lemma keeps_stdin_site (url : string) :
  keeps_stdin (get_site_instance web soup_site url).
Proof.
  pose proof keeps_stdin_fetch. unfold get_site_instance. stdin_kept.
Qed.

Lemma keeps_stdin_links (links : list (result string)) :
  keeps_stdin (sites_of_links web soup_site links).
Proof.
  pose proof keeps_stdin_site.
  induction links as [|link links IH]; cbn [sites_of_links]; stdin_kept.
Qed.

Lemma keeps_stdin_state (url : string) :
  keeps_stdin (get_sites_for_state web soup_site soup_state url).
Proof.
  pose proof keeps_stdin_fetch. pose proof keeps_stdin_links.
  unfold get_sites_for_state. stdin_kept.
Qed.

Lemma keeps_stdin_api (url : string) (site : NationalSite.t) :
  keeps_stdin (make_request_with_cache_api API_KEY web url site).
Proof. unfold make_request_with_cache_api. stdin_kept. Qed.

Lemma keeps_stdin_places (places : list NearbyPlace.t) :
  keeps_stdin (print_places places).
Proof. induction places as [|p places IH]; cbn [print_places]; stdin_kept. Qed.

Lemma keeps_stdin_show (site : NationalSite.t) :
  keeps_stdin (show_detail API_KEY web soup_site site).
Proof.
  pose proof keeps_stdin_site. pose proof keeps_stdin_api.
  pose proof keeps_stdin_places.
  unfold show_detail, get_site_instance_at, get_nearby_places. stdin_kept.
Qed.

Lemma keeps_stdin_body (sites : list NationalSite.t) (option : string) :
  keeps_stdin (selection_body API_KEY web soup_site sites option).
Proof.
  pose proof keeps_stdin_show.
  unfold selection_body, detail_search, invalid_input. stdin_kept.
Qed.

Lemma keeps_stdin_print_sites (sites : list NationalSite.t) :
  forall i, keeps_stdin (print_sites i sites).
Proof. induction sites as [|s sites IH]; intros i; cbn [print_sites]; stdin_kept. Qed.

End Frames.

(** ** The two loops *)

Lemma input_run (prompt : string) (w : world) :
  input prompt w =
  match stdin w with
  | [] => (Raise EOFError, add_trace w [EvInput prompt])
  | line :: rest =>
      (Ok line,
       mkWorld (disk w) (CACHE_DICT w) rest (trace w ++ [EvInput prompt])%list)
  end.
Proof. destruct w as [f c [|line rest] t]; reflexivity. Qed.

Section Loops.

Variable API_KEY : string.
Variable web : list event -> string -> option dict -> result string.
Variable soup_site : json -> result site_page.
Variable soup_state : json -> result (list (result string)).
Variable soup_index : json -> result (list (result string * string)).

Local Abbreviation turn := (selection_turn API_KEY web soup_site).
Local Abbreviation inner := (selection_loop API_KEY web soup_site).
Local Abbreviation outer_turn := (state_turn web soup_site soup_state).
Local Abbreviation outer := (main_loop API_KEY web soup_site soup_state).

(** A turn of either loop reads exactly one line, when it comes back. *)
Lemma selection_turn_reads (sites : list NationalSite.t) (w w' : world)
      (o : outcome) :
  turn sites w = (Ok o, w') -> exists line, stdin w = line :: stdin w'.
Proof.
  unfold selection_turn, bind. rewrite input_run.
  destruct (stdin w) as [|line rest]; [discriminate|].
  pose proof (keeps_stdin_body API_KEY web soup_site sites (lower line)
                (mkWorld (disk w) (CACHE_DICT w) rest
                   (trace w ++ [EvInput selection_prompt])%list)) as Hk.
  intros H. rewrite H in Hk. cbn in Hk. exists line. now rewrite Hk.
Qed.

Lemma state_turn_reads (states : str_dict) (w w' : world) (e : entered) :
  outer_turn states w = (Ok e, w') -> exists line, stdin w = line :: stdin w'.
Proof.
  unfold state_turn, bind at 1. rewrite input_run.
  destruct (stdin w) as [|line rest]; [discriminate|].
  set (w1 := mkWorld (disk w) (CACHE_DICT w) rest
               (trace w ++ [EvInput state_prompt])%list).
  intros H. exists line. f_equal.
  assert (Hk : keeps_stdin
                 (if String.eqb (lower line) "exit" then ret Leave
                  else match str_dict_get (lower line) states with
                       | Some state_url =>
                           bind (get_sites_for_state web soup_site soup_state
                                   state_url) (fun sites_list =>
                           bind (print dashes) (fun _ =>
                           bind (print ("List of national sites in "
                                          ++ lower (lower line))) (fun _ =>
                           bind (print dashes) (fun _ =>
                           bind (print_sites 0 sites_list) (fun _ =>
                           ret (Enter sites_list))))))
                       | None =>
                           bind (print ("[Error] Enter proper state name " ++ nl))
                                (fun _ => ret Unknown)
                       end)).
  { pose proof (keeps_stdin_state web soup_site soup_state).
    pose proof keeps_stdin_print_sites. stdin_kept. }
  specialize (Hk w1). cbv zeta in H. rewrite H in Hk. exact (eq_sym Hk).
Qed.

Lemma selection_loop_fuel (sites : list NationalSite.t) (f1 : nat) :
  forall f2 w,
    List.length (stdin w) < f1 -> List.length (stdin w) < f2 ->
    inner f1 sites w = inner f2 sites w
    /\ List.length (stdin (snd (inner f1 sites w))) <= List.length (stdin w).
Proof.
  induction f1 as [|f1 IH]; intros f2 w H1 H2; [lia|].
  destruct f2 as [|f2]; [lia|].
  cbn [selection_loop]. unfold bind.
  destruct (turn sites w) as [[o|e] w1] eqn:Et.
  - apply selection_turn_reads in Et as Hr. destruct Hr as [line Hr].
    assert (Hl : List.length (stdin w) = S (List.length (stdin w1)))
      by (rewrite Hr; reflexivity).
    destruct o; cbn [snd ret]; try (split; [reflexivity | lia]).
    destruct (IH f2 w1 ltac:(lia) ltac:(lia)) as [He Hle].
    split; [exact He | lia].
  - split; [reflexivity|]. cbn [snd].
    unfold selection_turn, bind in Et. rewrite input_run in Et.
    destruct (stdin w) as [|line rest] eqn:Es.
    + injection Et as _ <-. cbn. now rewrite Es.
    + pose proof (keeps_stdin_body API_KEY web soup_site sites (lower line)
                    (mkWorld (disk w) (CACHE_DICT w) rest
                       (trace w ++ [EvInput selection_prompt])%list)) as Hk.
      rewrite Et in Hk. cbn in Hk. rewrite Hk. cbn. lia.
Qed.

Lemma main_loop_fuel (states : str_dict) (f1 : nat) :
  forall f2 w,
    List.length (stdin w) < f1 -> List.length (stdin w) < f2 ->
    outer f1 states w = outer f2 states w.
Proof.
  induction f1 as [|f1 IH]; intros f2 w H1 H2; [lia|].
  destruct f2 as [|f2]; [lia|].
  cbn [main_loop]. unfold bind at 1 3.
  destruct (outer_turn states w) as [[e|x] w1] eqn:Et; [|reflexivity].
  apply state_turn_reads in Et as [line Hr].
  assert (Hl : List.length (stdin w) = S (List.length (stdin w1)))
    by (rewrite Hr; reflexivity).
  destruct e as [| |sites]; [reflexivity | apply IH; lia |].
  destruct (selection_loop_fuel sites f1 f2 w1 ltac:(lia) ltac:(lia)) as [He Hle].
  unfold bind. rewrite <- He.
  destruct (inner f1 sites w1) as [[o|x] w2]; [|reflexivity].
  cbn [snd] in Hle. destruct o; try reflexivity; apply IH; lia.
Qed.


End Loops.

(** ** The state names *)

Lemma lower_char_idem (c : ascii) : lower_char (lower_char c) = lower_char c.
Proof. destruct c as [[|] [|] [|] [|] [|] [|] [|] [|]]; reflexivity. Qed.

Lemma lower_idem (s : string) : lower (lower s) = lower s.
Proof.
  induction s as [|c s IH]; [reflexivity|].
  cbn [lower]. now rewrite lower_char_idem, IH.
Qed.

Lemma starts_with_append (p s : string) : starts_with p (p ++ s) = true.
Proof.
  induction p as [|c p IH]; [reflexivity|].
  cbn. now rewrite Ascii.eqb_refl, IH.
Qed.

Lemma str_dict_get_set_same (k v : string) (d : str_dict) :
  str_dict_get k (str_dict_set k v d) = Some v.
Proof.
  induction d as [|[k' v'] d IH]; cbn.
  - now rewrite String.eqb_refl.
  - destruct (String.eqb k k') eqn:E; cbn; rewrite E; [reflexivity | exact IH].
Qed.

Lemma str_dict_get_set_other (k k' v : string) (d : str_dict) :
  k' <> k -> str_dict_get k' (str_dict_set k v d) = str_dict_get k' d.
Proof.
  intros Hn. induction d as [|[k0 v0] d IH]; cbn.
  - apply String.eqb_neq in Hn. now rewrite Hn.
  - destruct (String.eqb k k0) eqn:E; cbn.
    + apply String.eqb_eq in E. subst k0.
      apply String.eqb_neq in Hn. now rewrite Hn.
    + now rewrite IH.
Qed.

Lemma states_of_items_app (a b : list (result string * string)) :
  forall acc, states_of_items (a ++ b)%list acc
              = rbind (states_of_items a acc) (states_of_items b).
Proof.
  induction a as [|[href text] a IH]; intros acc; [reflexivity|].
  cbn [List.app states_of_items]. destruct href as [path|e]; [|reflexivity].
  cbn [rbind]. apply IH.
Qed.

Lemma states_of_items_keeps (items : list (result string * string)) (k : string) :
  forall acc states,
    states_of_items items acc = Ok states ->
    (forall h t, In (h, t) items -> lower t <> k) ->
    str_dict_get k states = str_dict_get k acc.
Proof.
  induction items as [|[href text] items IH]; intros acc states H Hk.
  - now injection H as <-.
  - cbn [states_of_items] in H. destruct href as [path|e]; [|discriminate].
    cbn [rbind] in H. rewrite (IH _ _ H).
    + apply str_dict_get_set_other. intros E.
      now apply (Hk (Ok path) text (or_introl eq_refl)).
    + intros h t Hin. apply (Hk h t). now right.
Qed.

Lemma states_of_items_entries (items : list (result string * string)) :
  forall acc states,
    states_of_items items acc = Ok states ->
    forall k v,
      str_dict_get k states = Some v ->
      str_dict_get k acc = Some v
      \/ (lower k = k /\ starts_with base_url v = true).
Proof.
  induction items as [|[href text] items IH]; intros acc states H k v Hg.
  - injection H as <-. now left.
  - cbn [states_of_items] in H. destruct href as [path|e]; [|discriminate].
    cbn [rbind] in H. destruct (IH _ _ H k v Hg) as [Hacc|Hnew]; [|now right].
    destruct (String.eqb_spec k (lower text)) as [->|Hn].
    + rewrite str_dict_get_set_same in Hacc. injection Hacc as <-.
      right. split; [apply lower_idem | exact (starts_with_append base_url path)].
    + left. now rewrite str_dict_get_set_other in Hacc.
Qed.

(** X7. In the dict the loop over the state list builds, every name is in
    lower case and every url begins with the site's address; an item is
    found under its name typed in any letter case, with the link of the
    last item of that name. *)
Theorem states_are_found_in_any_case
        (pre post : list (result string * string)) (href text : string)
        (states : str_dict) :
  states_of_items (pre ++ (Ok href, text) :: post)%list [] = Ok states ->
  (forall h t, In (h, t) post -> lower t <> lower text) ->
  (forall line, lower line = lower text ->
                str_dict_get (lower line) states = Some (base_url ++ href))
  /\ (forall k v, str_dict_get k states = Some v ->
                  lower k = k /\ starts_with base_url v = true).
Proof.
  intros H Hlast. split.
  - intros line ->. rewrite states_of_items_app in H.
    destruct (states_of_items pre []) as [acc|e]; [|discriminate].
    cbn [rbind states_of_items] in H.
    rewrite (states_of_items_keeps post (lower text) _ _ H Hlast).
    apply str_dict_get_set_same.
  - intros k v Hg.
    destruct (states_of_items_entries _ _ _ H k v Hg) as [Hacc|Hnew];
      [discriminate | exact Hnew].
Qed.

Section StateIndex.

Variable web : list event -> string -> option dict -> result string.
Variable soup_index : json -> result (list (result string * string)).

(** X8. The dict [build_state_url_dict] returns is built from the items of
    the index page it fetched, cached under the index url from then on in
    memory and in the file; its names are in lower case and its urls begin
    with the site's address. *)
Theorem state_dict_of_the_index_page (w w' : world) (states : str_dict) :
  build_state_url_dict web soup_index w = (Ok states, w') ->
  (exists text items d,
      stored w' d /\ CACHE_DICT w' = JDict d /\ dict_get URL d = Some text
      /\ soup_index text = Ok items
      /\ states_of_items items [] = Ok states)
  /\ (forall k v, str_dict_get k states = Some v ->
                  lower k = k /\ starts_with base_url v = true).
Proof.
  intros H. rewrite build_state_url_dict_run in H.
  destruct (fetch_page web URL w) as [[text|e] w1] eqn:Ef; [|discriminate].
  cbn [fst snd rbind] in H. injection H as H <-.
  destruct (soup_index text) as [items|e] eqn:Ei; [|discriminate].
  cbn [rbind] in H.
  destruct (fetch_page_ok web URL w w1 text Ef) as (d & Hs & Hc & Hv).
  split.
  - exists text, items, d. repeat split; assumption.
  - intros k v Hg.
    destruct (states_of_items_entries _ _ _ H k v Hg) as [Hacc|Hnew];
      [discriminate | exact Hnew].
Qed.

End StateIndex.

(** ** Requests that fail, files that cannot be read *)

Section Failures.

Variable API_KEY : string.
Variable web : list event -> string -> option dict -> result string.
Variable soup_site : json -> result site_page.
Variable soup_state : json -> result (list (result string)).
Variable soup_index : json -> result (list (result string * string)).

(** X9. When the request for a page that is not cached fails, the call
    raises the exception of the request, and the mapping in memory and the
    file are as they were after the reload: nothing is stored. *)
Theorem failed_page_request_stores_nothing (url : string) (w : world) (d : dict)
        (e : exn) :
  stored w d ->
  dict_get url d = None ->
  web (trace w ++ [EvOpen "r"; EvPrint "Fetching"])%list url None = Raise e ->
  let run := get_site_instance web soup_site url w in
  fst run = Raise e
  /\ disk (snd run) = disk w
  /\ CACHE_DICT (snd run) = JDict d
  /\ gets (trace (snd run)) = S (gets (trace w)).
Proof.
  intros Hs Hv Hw run. subst run.
  rewrite get_site_instance_run, (fetch_page_miss web url w d Hs Hv), Hw.
  cbn [fst snd rbind add_trace reloaded disk CACHE_DICT trace].
  repeat split. rewrite !gets_app. cbn. lia.
Qed.

(** X10. When the request to the API fails, or its body is not JSON, the call
    raises that exception and the file is left as it was. *)
Theorem failed_places_request_stores_nothing (site : NationalSite.t) (w : world)
        (d : dict) (e : exn) :
  stored w d ->
  dict_get (NationalSite.name site) d = None ->
  rbind (web (trace w ++ [EvOpen "r"; EvPrint "Fetching"])%list places_url
           (Some (api_params API_KEY site))) loads = Raise e ->
  let run := get_nearby_places API_KEY web site w in
  fst run = Raise e
  /\ disk (snd run) = disk w
  /\ gets (trace (snd run)) = S (gets (trace w)).
Proof.
  intros Hs Hv Hw run. subst run. unfold get_nearby_places.
  fold places_url.
  rewrite (api_miss API_KEY web places_url site w d Hs Hv). cbv zeta.
  destruct (web _ places_url _) as [body|e']; cbn [rbind] in Hw.
  - rewrite Hw. cbn [fst snd add_trace disk trace].
    repeat split. rewrite gets_app. cbn. lia.
  - injection Hw as <-. cbn [fst snd add_trace disk trace].
    repeat split. rewrite gets_app. cbn. lia.
Qed.

Lemma fetch_page_unreadable (url : string) (w : world) :
  (forall d, ~ stored w d) ->
  exists e,
    fst (fetch_page web url w) = Raise e
    /\ trace (snd (fetch_page web url w)) = (trace w ++ [EvOpen "r"])%list
    /\ disk (snd (fetch_page web url w)) = disk w.
Proof.
  intros Hn. rewrite fetch_page_run.
  destruct (fst (load_cache w)) as [c|e] eqn:El; [|now exists e].
  destruct c as [| | | | | |d]; try (now exists AttributeError).
  now destruct (Hn d).
Qed.

(** X11. When the cache file cannot be read as an object (it cannot be
    opened, is not JSON, or holds another JSON value), the program ends
    with an exception right after opening the file: nothing is asked,
    nothing is requested, and the file is left as it is. *)
Theorem unreadable_cache_stops_the_program (fuel : nat) (w : world) :
  (forall d, ~ stored w d) ->
  let run := main API_KEY web soup_site soup_state soup_index fuel w in
  is_ok (fst run) = false
  /\ trace (snd run) = (trace w ++ [EvOpen "r"])%list
  /\ disk (snd run) = disk w.
Proof.
  intros Hn run. subst run. unfold main, bind.
  rewrite build_state_url_dict_run.
  destruct (fetch_page_unreadable URL w Hn) as (e & He & Ht & Hd).
  rewrite He. cbn [rbind snd fst is_ok]. now repeat split.
Qed.

(** X12. A page fetch that misses writes the mapping it was given, with the
    new page, over the file, whatever the file held: an entry that was in
    the file only is gone afterwards.  (The program reloads the file before
    every fetch.) *)
Theorem page_fetch_writes_the_given_mapping (url text : string) (w : world)
        (d : dict) :
  CACHE_DICT w = JDict d ->
  wf_json (JDict d) = true ->
  dict_get url d = None ->
  web (trace w ++ [EvPrint "Fetching"])%list url None = Ok text ->
  writable (disk w) = true ->
  let w' := snd (make_url_request_using_cache web url w) in
  stored w' (d ++ [(url, JStr text)])%list
  /\ forall k, k <> url -> dict_get k d = None ->
               dict_get k (d ++ [(url, JStr text)])%list = None.
Proof.
  intros Hc W Hv Hw Hd w'. subst w'.
  rewrite (fetch_miss web url w d Hc Hv), Hw, Hd. cbv zeta.
  rewrite <- (dict_set_absent url (JStr text) d Hv). split.
  - apply stored_written; [now apply dict_set_wf | reflexivity].
  - intros k Hk Hn. now rewrite dict_get_set_other.
Qed.

(** X13. The two fetches share one mapping: for a site whose name is the url
    of a page that was fetched, [get_nearby_places] makes no request and
    returns what is stored under that url, the page the site of that url
    is parsed from. *)
Theorem site_named_like_a_page_gets_the_page (url : string) (w w' : world)
        (parsed site : NationalSite.t) :
  get_site_instance web soup_site url w = (Ok parsed, w') ->
  NationalSite.name site = url ->
  exists page,
    get_nearby_places API_KEY web site w'
    = (Ok page, add_trace w' [EvOpen "r"; EvPrint "Using cache"])
    /\ rbind (soup_site page) (fun p => Ok (site_of_page p)) = Ok parsed.
Proof.
  intros H Hn. rewrite get_site_instance_run in H.
  destruct (fetch_page web url w) as [[v|e] w1] eqn:Ef; [|discriminate].
  cbn [fst snd rbind] in H. injection H as Hp <-.
  destruct (fetch_page_ok web url w w1 v Ef) as (d & Hs & _ & Hv).
  exists v. split; [|exact Hp].
  unfold get_nearby_places. apply (api_hit API_KEY web _ site w1 d v Hs).
  now rewrite Hn.
Qed.

Lemma api_ok_stored (url : string) (site : NationalSite.t) (w w' : world)
      (answer : json) :
  make_request_with_cache_api API_KEY web url site w = (Ok answer, w') ->
  exists d, stored w d.
Proof.
  intros H. unfold stored.
  unfold make_request_with_cache_api, bind at 1 in H.
  rewrite load_cache_run in H. cbn [fst].
  rewrite load_cache_run. cbn [fst].
  destruct (match disk w with
            | NoFile | Locked None => Ok (JDict [])
            | Denied => Raise PermissionError
            | File contents | Locked (Some contents) => loads contents
            end) as [c|e]; [|discriminate].
  destruct c as [| | | |s|l|d]; [| | | | | |now exists d]; exfalso; revert H;
    unfold bind, lift, contains, print, log, requests_get, getitem, setitem;
    cbn;
    repeat match goal with
           | |- context [match ?x with _ => _ end] => destruct x; cbn
           end;
    discriminate.
Qed.

(** X14. An answer of the API that was fetched for a site is afterwards read
    from the file: the same call again returns the same answer and makes
    no request. *)
Theorem places_are_fetched_once (site : NationalSite.t) (w w' : world)
        (answer : json) :
  get_nearby_places API_KEY web site w = (Ok answer, w') ->
  get_nearby_places API_KEY web site w'
  = (Ok answer, add_trace w' [EvOpen "r"; EvPrint "Using cache"]).
Proof.
  unfold get_nearby_places. intros H.
  destruct (api_ok_stored _ site w w' answer H) as [d Hs].
  destruct (dict_get (NationalSite.name site) d) as [v|] eqn:Hv.
  - rewrite (api_hit API_KEY web _ site w d v Hs Hv) in H. injection H as <- <-.
    apply (api_hit API_KEY web _ site _ d v); [|exact Hv].
    unfold stored. now rewrite <- (load_cache_disk w).
  - rewrite (api_miss API_KEY web _ site w d Hs Hv) in H. cbv zeta in H.
    destruct (web _ _ _) as [body|e]; [|discriminate].
    destruct (loads body) as [response|e] eqn:El; [|discriminate].
    destruct (writable (disk w)); [|discriminate].
    injection H as <- <-.
    apply (api_hit API_KEY web _ site _
             (dict_set (NationalSite.name site) response d) response);
      [|apply dict_get_set_same].
    apply stored_written; [|reflexivity].
    apply dict_set_wf; [now apply loads_wf in El | now apply stored_wf in Hs].
Qed.

End Failures.

(** ** The entries of the file, across the program *)

Lemma dict_extends_trans (d1 d2 d3 : dict) :
  dict_extends d1 d2 -> dict_extends d2 d3 -> dict_extends d1 d3.
Proof. intros H12 H23 k v H. apply H23, H12, H. Qed.

Lemma keeps_entries_disk {A} (m : M A) :
  (forall w, disk (snd (m w)) = disk w) -> keeps_entries m.
Proof.
  intros Hd w d Hs. exists d. split; [|apply dict_extends_refl].
  unfold stored. now rewrite (load_cache_disk _ w (Hd w)).
Qed.

Lemma keeps_entries_bind {A B} (m : M A) (k : A -> M B) :
  keeps_entries m -> (forall a, keeps_entries (k a)) -> keeps_entries (bind m k).
Proof.
  intros Hm Hk w d Hs. unfold bind. destruct (Hm w d Hs) as (d1 & Hs1 & He1).
  destruct (m w) as [[a|e] w1]; cbn [snd] in *; [|now exists d1].
  destruct (Hk a w1 d1 Hs1) as (d2 & Hs2 & He2).
  exists d2. split; [exact Hs2 | now apply (dict_extends_trans d d1 d2)].
Qed.

Lemma keeps_entries_ret {A} (a : A) : keeps_entries (ret a).
Proof. now apply keeps_entries_disk. Qed.

Lemma keeps_entries_raise {A} (e : exn) : keeps_entries (@raise A e).
Proof. now apply keeps_entries_disk. Qed.

Lemma keeps_entries_lift {A} (r : result A) : keeps_entries (lift r).
Proof. now apply keeps_entries_disk. Qed.

Lemma keeps_entries_print (line : string) : keeps_entries (print line).
Proof. now apply keeps_entries_disk. Qed.

Lemma keeps_entries_set_cache (c : json) : keeps_entries (set_CACHE_DICT c).
Proof. now apply keeps_entries_disk. Qed.

Lemma keeps_entries_input (prompt : string) : keeps_entries (input prompt).
Proof.
  apply keeps_entries_disk. intros w. rewrite input_run. now destruct (stdin w).
Qed.

Lemma keeps_entries_load_cache : keeps_entries load_cache.
Proof. apply keeps_entries_disk. intros w. now rewrite load_cache_run. Qed.

Create HintDb entries_kept discriminated.

#[local] Hint Resolve keeps_entries_ret keeps_entries_raise keeps_entries_lift
  keeps_entries_print keeps_entries_set_cache keeps_entries_input
  keeps_entries_load_cache : entries_kept.

Ltac entries_kept :=
  repeat first
    [ solve [auto with entries_kept]
    | apply keeps_entries_bind; [|intros ?]
    | match goal with
      | |- keeps_entries (if ?b then _ else _) => destruct b
      | |- keeps_entries (match ?x with _ => _ end) => destruct x
      | |- keeps_entries (let _ := _ in _) => cbv zeta
      end ].

Section Entries.

Variable API_KEY : string.
Variable web : list event -> string -> option dict -> result string.
Variable soup_site : json -> result site_page.
Variable soup_state : json -> result (list (result string)).
Variable soup_index : json -> result (list (result string * string)).

Lemma keeps_entries_fetch_page (url : string) : keeps_entries (fetch_page web url).
Proof.
  intros w d Hs. destruct (dict_get url d) as [v|] eqn:Hv.
  - rewrite (fetch_page_hit web url w d v Hs Hv). exists d.
    split; [now apply stored_reloaded | apply dict_extends_refl].
  - rewrite (fetch_page_miss web url w d Hs Hv).
    destruct (web _ url None) as [text|e].
    + cbv zeta. destruct (writable (disk w)).
      * exists (fetched url text d). split; [|now apply dict_set_extends].
        apply stored_written; [|reflexivity].
        apply dict_set_wf; [reflexivity | now apply stored_wf in Hs].
      * exists d. split; [|apply dict_extends_refl].
        unfold stored. now rewrite <- (load_cache_disk w).
    + exists d. split; [now apply stored_reloaded | apply dict_extends_refl].
Qed.

Lemma keeps_entries_site (url : string) :
  keeps_entries (get_site_instance web soup_site url).
Proof.
  intros w d Hs. rewrite get_site_instance_run. cbn [snd].
  now apply keeps_entries_fetch_page.
Qed.

Lemma keeps_entries_index : keeps_entries (build_state_url_dict web soup_index).
Proof.
  intros w d Hs. rewrite build_state_url_dict_run. cbn [snd].
  now apply keeps_entries_fetch_page.
Qed.

Lemma keeps_entries_links (links : list (result string)) :
  keeps_entries (sites_of_links web soup_site links).
Proof.
  pose proof keeps_entries_site.
  induction links as [|link links IH]; cbn [sites_of_links]; entries_kept.
Qed.

Lemma keeps_entries_state (url : string) :
  keeps_entries (get_sites_for_state web soup_site soup_state url).
Proof.
  intros w d Hs. rewrite get_sites_for_state_run.
  destruct (keeps_entries_fetch_page url w d Hs) as (d1 & Hs1 & He1).
  destruct (fetch_page web url w) as [[text|e] w1]; cbn [snd] in *;
    [|now exists d1].
  destruct (soup_state text) as [links|e]; [|now exists d1].
  destruct (keeps_entries_links links w1 d1 Hs1) as (d2 & Hs2 & He2).
  exists d2. split; [exact Hs2 | now apply (dict_extends_trans d d1 d2)].
Qed.

Lemma keeps_entries_api (url : string) (site : NationalSite.t) :
  keeps_entries (make_request_with_cache_api API_KEY web url site).
Proof.
  intros w d Hs.
  destruct (dict_get (NationalSite.name site) d) as [v|] eqn:Hv.
  - rewrite (api_hit API_KEY web url site w d v Hs Hv). exists d.
    split; [|apply dict_extends_refl].
    unfold stored. now rewrite <- (load_cache_disk w).
  - rewrite (api_miss API_KEY web url site w d Hs Hv). cbv zeta.
    destruct (web _ url _) as [body|e];
      [destruct (loads body) as [response|e] eqn:El;
       [destruct (writable (disk w))|] |];
      try (exists d; split; [|apply dict_extends_refl];
           unfold stored; now rewrite <- (load_cache_disk w)).
    exists (dict_set (NationalSite.name site) response d).
    split; [|now apply dict_set_extends].
    apply stored_written; [|reflexivity].
    apply dict_set_wf; [now apply loads_wf in El | now apply stored_wf in Hs].
Qed.

Lemma keeps_entries_places (places : list NearbyPlace.t) :
  keeps_entries (print_places places).
Proof. induction places as [|p places IH]; cbn [print_places]; entries_kept. Qed.

Lemma keeps_entries_print_sites (sites : list NationalSite.t) :
  forall i, keeps_entries (print_sites i sites).
Proof.
  induction sites as [|s sites IH]; intros i; cbn [print_sites]; entries_kept.
Qed.

Lemma keeps_entries_body (sites : list NationalSite.t) (option : string) :
  keeps_entries (selection_body API_KEY web soup_site sites option).
Proof.
  pose proof keeps_entries_site. pose proof keeps_entries_api.
  pose proof keeps_entries_places.
  unfold selection_body, detail_search, invalid_input, show_detail,
    get_site_instance_at, get_nearby_places.
  entries_kept.
Qed.

Lemma keeps_entries_selection_loop (sites : list NationalSite.t) (fuel : nat) :
  keeps_entries (selection_loop API_KEY web soup_site fuel sites).
Proof.
  pose proof keeps_entries_body.
  induction fuel as [|fuel IH]; cbn [selection_loop]; unfold selection_turn;
    entries_kept.
Qed.

Lemma keeps_entries_main_loop (states : str_dict) (fuel : nat) :
  keeps_entries (main_loop API_KEY web soup_site soup_state fuel states).
Proof.
  pose proof keeps_entries_state. pose proof keeps_entries_print_sites.
  pose proof keeps_entries_selection_loop.
  induction fuel as [|fuel IH]; cbn [main_loop]; unfold state_turn;
    entries_kept.
Qed.


End Entries.

(** ** Counting the requests *)

Lemma requests_none {A} (m : M A) (n : nat) :
  (forall w, gets (trace (snd (m w))) = gets (trace w)) -> requests_at_most n m.
Proof. intros H w. rewrite H. lia. Qed.

Lemma requests_ret {A} (a : A) n : requests_at_most n (ret a).
Proof. now apply requests_none. Qed.

Lemma requests_raise {A} (e : exn) n : requests_at_most n (@raise A e).
Proof. now apply requests_none. Qed.

Lemma requests_lift {A} (r : result A) n : requests_at_most n (lift r).
Proof. now apply requests_none. Qed.

Lemma requests_print (line : string) n : requests_at_most n (print line).
Proof.
  apply requests_none. intros w. rewrite print_run.
  cbn [snd add_trace trace]. rewrite gets_app. cbn. lia.
Qed.

Lemma requests_get_cache n : requests_at_most n get_CACHE_DICT.
Proof. now apply requests_none. Qed.

Lemma requests_set_cache (c : json) n : requests_at_most n (set_CACHE_DICT c).
Proof. now apply requests_none. Qed.

Lemma requests_input (prompt : string) n : requests_at_most n (input prompt).
Proof.
  apply requests_none. intros w. rewrite input_run.
  destruct (stdin w); cbn [snd add_trace trace]; rewrite gets_app; cbn; lia.
Qed.

Lemma requests_load_cache n : requests_at_most n load_cache.
Proof.
  apply requests_none. intros w. rewrite load_cache_run.
  cbn [snd add_trace trace]. rewrite gets_app. cbn. lia.
Qed.

Lemma requests_save_cache (cache : json) n : requests_at_most n (save_cache cache).
Proof.
  apply requests_none. intros w. rewrite save_cache_run.
  destruct (writable (disk w)); cbn [snd add_trace trace]; rewrite gets_app;
    cbn; lia.
Qed.

Lemma requests_one (web : list event -> string -> option dict -> result string)
      (url : string) (params : option dict) n :
  requests_at_most (S n) (requests_get web url params).
Proof.
  intros w. unfold requests_get, log. cbn [snd trace]. rewrite gets_app.
  cbn. lia.
Qed.

Lemma requests_bind_free {A B} (m : M A) (k : A -> M B) n :
  requests_at_most 0 m -> (forall a, requests_at_most n (k a)) ->
  requests_at_most n (bind m k).
Proof.
  intros Hm Hk w. unfold bind. specialize (Hm w).
  destruct (m w) as [[a|e] w1]; cbn [snd] in *; [|lia].
  specialize (Hk a w1). lia.
Qed.

Lemma requests_bind_one {A B} (m : M A) (k : A -> M B) n :
  requests_at_most 1 m -> (forall a, requests_at_most n (k a)) ->
  requests_at_most (S n) (bind m k).
Proof.
  intros Hm Hk w. unfold bind. specialize (Hm w).
  destruct (m w) as [[a|e] w1]; cbn [snd] in *; [|lia].
  specialize (Hk a w1). lia.
Qed.

Lemma requests_bind_last {A B} (m : M A) (k : A -> M B) n :
  requests_at_most n m -> (forall a, requests_at_most 0 (k a)) ->
  requests_at_most n (bind m k).
Proof.
  intros Hm Hk w. unfold bind. specialize (Hm w).
  destruct (m w) as [[a|e] w1]; cbn [snd] in *; [|lia].
  specialize (Hk a w1). lia.
Qed.

Create HintDb requests_made discriminated.

#[local] Hint Resolve requests_ret requests_raise requests_lift requests_print
  requests_get_cache requests_set_cache requests_input requests_load_cache
  requests_save_cache requests_one : requests_made.

Ltac requests_made :=
  repeat first
    [ solve [auto with requests_made]
    | apply requests_bind_free; [solve [auto with requests_made] | intros ?]
    | apply requests_bind_one; [solve [auto with requests_made] | intros ?]
    | apply requests_bind_last; [solve [auto with requests_made] | intros ?]
    | match goal with
      | |- requests_at_most _ (if ?b then _ else _) => destruct b
      | |- requests_at_most _ (match ?x with _ => _ end) => destruct x
      | |- requests_at_most _ (let _ := _ in _) => cbv zeta
      end
    | apply requests_bind_last; [|intros ?] ].

Section Requests.

Variable API_KEY : string.
Variable web : list event -> string -> option dict -> result string.
Variable soup_site : json -> result site_page.
Variable soup_state : json -> result (list (result string)).

Lemma requests_fetch (url : string) n :
  requests_at_most (S n) (make_url_request_using_cache web url).
Proof. unfold make_url_request_using_cache. requests_made. Qed.

Lemma requests_site (url : string) n :
  requests_at_most (S n) (get_site_instance web soup_site url).
Proof. pose proof requests_fetch. unfold get_site_instance. requests_made. Qed.

Lemma requests_api (url : string) (site : NationalSite.t) n :
  requests_at_most (S n) (make_request_with_cache_api API_KEY web url site).
Proof. unfold make_request_with_cache_api. requests_made. Qed.

Lemma requests_site_at (url : option string) n :
  requests_at_most (S n) (get_site_instance_at web soup_site url).
Proof.
  unfold get_site_instance_at. destruct url as [u|];
    [apply requests_site | requests_made].
Qed.

Lemma requests_nearby (site : NationalSite.t) n :
  requests_at_most (S n) (get_nearby_places API_KEY web site).
Proof. apply requests_api. Qed.

Lemma requests_places (places : list NearbyPlace.t) n :
  requests_at_most n (print_places places).
Proof.
  induction places as [|p places IH]; cbn [print_places]; requests_made.
Qed.

Lemma requests_links (links : list (result string)) :
  requests_at_most (List.length links) (sites_of_links web soup_site links).
Proof.
  pose proof requests_site.
  induction links as [|link links IH]; cbn [sites_of_links List.length];
    requests_made.
Qed.

(** X16. One turn of the site prompt makes at most two requests, one for the
    page of the site and one to the API, whatever was typed. *)
Theorem a_selection_makes_two_requests_at_most (sites : list NationalSite.t)
        (option : string) (w : world) :
  gets (trace (snd (selection_body API_KEY web soup_site sites option w)))
  <= gets (trace w) + 2.
Proof.
  revert w. change (requests_at_most 2
                      (selection_body API_KEY web soup_site sites option)).
  pose proof requests_site_at. pose proof requests_nearby.
  pose proof requests_places.
  unfold selection_body, detail_search, invalid_input, show_detail.
  requests_made.
Qed.

End Requests.

(** ** The sites of a state *)

Lemma lstrip_clean (p : ascii -> bool) (s : string) :
  (forall c, first_char s = Some c -> p c = false) -> lstrip p s = s.
Proof.
  destruct s as [|c s]; [reflexivity|]. cbn. intros H. now rewrite (H c eq_refl).
Qed.

Lemma rstrip_clean (p : ascii -> bool) (s : string) :
  (forall c, last_char s = Some c -> p c = false) -> rstrip p s = s.
Proof.
  induction s as [|c s IH]; [reflexivity|]. intros H. cbn [rstrip].
  destruct s as [|c' s].
  - cbn. now rewrite (H c eq_refl).
  - rewrite IH by (intros x Hx; apply H; exact Hx). reflexivity.
Qed.

Lemma strip_chars_idem (p : ascii -> bool) (s : string) :
  strip_chars p (strip_chars p s) = strip_chars p s.
Proof.
  destruct (strip_chars_no_surrounding p s) as [Hf Hl].
  unfold strip_chars at 1. now rewrite (lstrip_clean p _ Hf), (rstrip_clean p _ Hl).
Qed.

(** The copy made of a site when it is listed is the site, with the url. *)
Lemma init_again (category name address zipcode phone : string)
      (u0 u : option string) :
  let site := NationalSite.init category name address zipcode phone u0 in
  NationalSite.init (NationalSite.category site) (NationalSite.name site)
    (NationalSite.address site) (NationalSite.zipcode site)
    (NationalSite.phone site) u
  = with_url site u.
Proof.
  cbv zeta. unfold NationalSite.init, with_url. cbn -[strip_chars].
  now rewrite strip_chars_idem.
Qed.

Section Listing.

Variable web : list event -> string -> option dict -> result string.
Variable soup_site : json -> result site_page.
Variable soup_state : json -> result (list (result string)).

Lemma get_site_instance_page (url : string) (w w' : world) (site : NationalSite.t) :
  get_site_instance web soup_site url w = (Ok site, w') ->
  exists text page,
    fetch_page web url w = (Ok text, w')
    /\ soup_site text = Ok page /\ site = site_of_page page.
Proof.
  rewrite get_site_instance_run. intros [= H Hw].
  destruct (fetch_page web url w) as [[text|e] w1]; [|discriminate].
  cbn [fst snd rbind] in *. subst w1.
  destruct (soup_site text) as [page|e] eqn:Ep; [|discriminate].
  injection H as <-. now exists text, page.
Qed.

Lemma listed_from_extends (d d' : dict) (link : result string)
      (site : NationalSite.t) :
  dict_extends d d' ->
  listed_from soup_site d link site -> listed_from soup_site d' link site.
Proof.
  intros He (path & text & page & Hl & Hg & Hp & Hsite).
  exists path, text, page. repeat split; try assumption. now apply He.
Qed.

Lemma sites_of_links_listed (links : list (result string)) :
  forall w d sites w',
    stored w d ->
    sites_of_links web soup_site links w = (Ok sites, w') ->
    exists d', stored w' d' /\ dict_extends d d'
               /\ Forall2 (listed_from soup_site d') links sites.
Proof.
  induction links as [|link links IH]; intros w d sites w' Hs H.
  - injection H as <- <-. exists d.
    split; [exact Hs|]. split; [apply dict_extends_refl | constructor].
  - cbn [sites_of_links] in H. unfold bind at 1, lift at 1 in H.
    destruct link as [path|e]; [|discriminate].
    unfold bind at 1 in H.
    destruct (get_site_instance web soup_site _ w) as [[sitei|e] w1] eqn:Es;
      [|discriminate].
    unfold bind at 1 in H.
    destruct (sites_of_links web soup_site links w1) as [[rest|e] w2] eqn:E;
      [|discriminate].
    injection H as <- <-.
    apply get_site_instance_page in Es as (text & page & Hf & Hp & ->).
    destruct (keeps_entries_fetch_page
                web (base_url ++ path ++ "index.htm") w d Hs)
      as (d1 & Hs1 & He1).
    rewrite Hf in Hs1. cbn [snd] in Hs1.
    destruct (fetch_page_ok web _ w w1 text Hf) as (d1' & Hs1' & _ & Hg).
    assert (d1' = d1) by (unfold stored in *; congruence). subst d1'.
    destruct (IH w1 d1 rest w2 Hs1 E) as (d2 & Hs2 & He2 & Hall).
    exists d2. split; [exact Hs2|].
    split; [now apply (dict_extends_trans d d1 d2)|].
    constructor; [|exact Hall].
    exists path, text, page. repeat split; try assumption.
    + now apply He2.
    + apply init_again.
Qed.

(** X17. When [get_sites_for_state] returns, the page it read is the one
    fetched for the url it was given, which the file holds under that url
    afterwards, and it returns one site per heading of that page, in the
    order of the page: each heading has a link, the file holds a page under
    the url built from that link, and the site is that page as
    [get_site_instance] reads it, with that url.  The call made at most one
    request for the state page and one per site. *)
Theorem sites_follow_the_headings (url : string) (w w' : world)
        (sites : list NationalSite.t) :
  get_sites_for_state web soup_site soup_state url w = (Ok sites, w') ->
  (exists d' text links,
      fst (fetch_page web url w) = Ok text
      /\ stored w' d' /\ dict_get url d' = Some text
      /\ soup_state text = Ok links
      /\ Forall2 (listed_from soup_site d') links sites)
  /\ gets (trace w') <= gets (trace w) + 1 + List.length sites.
Proof.
  intros H. rewrite get_sites_for_state_run in H.
  assert (Hf : requests_at_most 1 (fetch_page web url)).
  { pose proof (requests_fetch web). unfold fetch_page. requests_made. }
  specialize (Hf w).
  destruct (fetch_page web url w) as [[text|e] w1] eqn:Ef; [|discriminate].
  destruct (soup_state text) as [links|e] eqn:El; [|discriminate].
  pose proof (requests_links web soup_site links w1) as Hr. rewrite H in Hr.
  destruct (fetch_page_ok web url w w1 text Ef) as (d1 & Hs1 & _ & Hg).
  destruct (sites_of_links_listed links w1 d1 sites w' Hs1 H)
    as (d2 & Hs2 & He2 & Hall).
  pose proof (Forall2_length Hall) as Hlen. cbn [fst snd] in *. split.
  - exists d2, text, links. repeat split; try assumption. now apply He2.
  - lia.
Qed.

End Listing.

(** ** The prompts *)

Lemma print_sites_run (sites : list NationalSite.t) :
  forall i w, print_sites i sites w = (Ok tt, add_trace w (site_lines i sites)).
Proof.
  induction sites as [|site sites IH]; intros i w; cbn [print_sites site_lines].
  - unfold ret. now rewrite add_trace_nil.
  - unfold bind. rewrite print_run, IH, add_trace_app. reflexivity.
Qed.

Lemma site_lines_nth (sites : list NationalSite.t) :
  forall i k site,
    nth_error sites k = Some site ->
    nth_error (site_lines i sites) k = Some (site_line (i + k) site).
Proof.
  induction sites as [|s sites IH]; intros i k site H.
  - destruct k; discriminate.
  - destruct k as [|k]; cbn in H |- *.
    + injection H as ->. now rewrite Nat.add_0_r.
    + rewrite (IH (S i) k site H). do 2 f_equal. lia.
Qed.

Section Prompts.

Variable API_KEY : string.
Variable web : list event -> string -> option dict -> result string.
Variable soup_site : json -> result site_page.
Variable soup_state : json -> result (list (result string)).

Local Abbreviation outer := (main_loop API_KEY web soup_site soup_state).

Lemma state_turn_unknown (states : str_dict) (line : string)
      (rest : list string) (w : world) :
  not_a_state states line -> stdin w = line :: rest ->
  state_turn web soup_site soup_state states w
  = (Ok Unknown,
     mkWorld (disk w) (CACHE_DICT w) rest (trace w ++ unknown_turn)%list).
Proof.
  intros [He Hn] Hin. unfold state_turn, bind at 1. rewrite input_run, Hin.
  apply String.eqb_neq in He. rewrite He, Hn.
  unfold bind. rewrite print_run. unfold ret, add_trace, unknown_turn.
  cbn [disk CACHE_DICT stdin trace]. now rewrite <- List.app_assoc.
Qed.

Lemma state_turn_exit (states : str_dict) (line : string)
      (rest : list string) (w : world) :
  lower line = "exit" -> stdin w = line :: rest ->
  state_turn web soup_site soup_state states w
  = (Ok Leave, after_input state_prompt rest w).
Proof.
  intros He Hin. unfold state_turn, bind at 1. rewrite input_run, Hin, He.
  reflexivity.
Qed.

(** X18. At the state prompt, names that are not in the dict are answered
    with the error line and the prompt again, and [exit], in any letter
    case, ends the program: nothing after it is read, and up to there no
    request is made and the cache, in memory and in the file, is not
    touched. *)
Theorem exit_after_unknown_names (states : str_dict) (names : list string) :
  forall (line : string) (rest : list string) (w : world) (fuel : nat),
    Forall (not_a_state states) names ->
    lower line = "exit" ->
    stdin w = (names ++ line :: rest)%list ->
    List.length names < fuel ->
    outer fuel states w
    = (Ok tt,
       mkWorld (disk w) (CACHE_DICT w) rest
         (trace w ++ unknown_turns names ++ [EvInput state_prompt])%list).
Proof.
  induction names as [|name names IH]; intros line rest w fuel Hall He Hin Hf;
    (destruct fuel as [|fuel]; [cbn in Hf; lia|]); cbn [main_loop].
  - unfold bind. now rewrite (state_turn_exit states line rest w He Hin).
  - inversion Hall as [|? ? Hn Hrest]; subst.
    assert (Hf' : List.length names < fuel) by (cbn in Hf; lia).
    unfold bind.
    rewrite (state_turn_unknown states name (names ++ line :: rest)%list w Hn Hin).
    rewrite (IH line rest
               (mkWorld (disk w) (CACHE_DICT w) (names ++ line :: rest)%list
                  (trace w ++ unknown_turn)%list) fuel Hrest He eq_refl Hf').
    cbn [disk CACHE_DICT trace unknown_turns flat_map].
    now rewrite <- !List.app_assoc.
Qed.

(** X19. A known state, typed in any letter case, is answered with a
    header and one line per site [get_sites_for_state] returned, numbered
    from 1 in the order of the list; the number on the line of a site is
    the input that selects it at the next prompt. *)
Theorem listed_number_selects_the_site (states : str_dict) (line url : string)
        (rest : list string) (w w' : world) (sites : list NationalSite.t) :
  stdin w = line :: rest ->
  lower line <> "exit" ->
  str_dict_get (lower line) states = Some url ->
  get_sites_for_state web soup_site soup_state url
    (after_input state_prompt rest w) = (Ok sites, w') ->
  state_turn web soup_site soup_state states w
  = (Ok (Enter sites),
     add_trace w' (listing_header line ++ site_lines 0 sites)%list)
  /\ forall k site,
      nth_error sites k = Some site ->
      nth_error (site_lines 0 sites) k = Some (site_line k site)
      /\ forall w0,
          selection_body API_KEY web soup_site sites (str_of_nat (k + 1)) w0
          = bind (show_detail API_KEY web soup_site site)
                 (fun _ => ret Again) w0.
Proof.
  intros Hin He Hs Hget. split.
  - unfold state_turn, bind at 1. rewrite input_run, Hin.
    apply String.eqb_neq in He. rewrite He, Hs.
    unfold bind at 1. fold (after_input state_prompt rest w). rewrite Hget.
    unfold bind. rewrite !print_run, print_sites_run, !add_trace_app.
    rewrite lower_idem. reflexivity.
  - intros k site Hk. split.
    + exact (site_lines_nth sites 0 k site Hk).
    + intros w0. rewrite Nat.add_1_r.
      exact (number_in_range_selects API_KEY web soup_site sites k site w0 Hk).
Qed.

Lemma selection_turn_word (sites : list NationalSite.t) (line : string)
      (rest : list string) (w : world) :
  stdin w = line :: rest ->
  (lower line = "back" ->
   selection_turn API_KEY web soup_site sites w
   = (Ok GoBack, after_input selection_prompt rest w))
  /\ (lower line = "exit" ->
      selection_turn API_KEY web soup_site sites w
      = (Ok GoExit, after_input selection_prompt rest w)).
Proof.
  intros Hin. split; intros Hl;
    unfold selection_turn, bind; rewrite input_run, Hin;
    fold (after_input selection_prompt rest w);
    unfold selection_body; rewrite Hl; reflexivity.
Qed.

(** X20. At the site prompt, [exit] ends the program and [back] returns to
    the state prompt, in any letter case; neither makes a request or
    touches the cache, and after [back] the program goes on at the state
    prompt with the same dict of states. *)
Theorem leaving_the_site_prompt (states : str_dict) (w w1 : world)
        (sites : list NationalSite.t) (line : string) (rest : list string)
        (fuel : nat) :
  state_turn web soup_site soup_state states w = (Ok (Enter sites), w1) ->
  stdin w1 = line :: rest ->
  (lower line = "exit" ->
   outer (S (S fuel)) states w
   = (Ok tt, after_input selection_prompt rest w1))
  /\ (lower line = "back" ->
      outer (S (S fuel)) states w
      = outer (S fuel) states (after_input selection_prompt rest w1)).
Proof.
  intros Ht Hin.
  destruct (selection_turn_word sites line rest w1 Hin) as [Hb He].
  split; intros Hl.
  - cbn [main_loop selection_loop]. unfold bind at 1. rewrite Ht.
    unfold bind. rewrite (He Hl). reflexivity.
  - change (outer (S (S fuel)) states w)
      with (bind (state_turn web soup_site soup_state states)
              (fun e => match e with
                        | Leave => ret tt
                        | Unknown => outer (S fuel) states
                        | Enter sites_list =>
                            bind (selection_loop API_KEY web soup_site (S fuel)
                                    sites_list)
                              (fun o => match o with
                                        | GoExit => ret tt
                                        | _ => outer (S fuel) states
                                        end)
                        end) w).
    unfold bind at 1. rewrite Ht. cbn [selection_loop].
    unfold bind at 1 2. rewrite (Hb Hl). reflexivity.
Qed.

End Prompts.

(** ** The detail of a site *)

Section Detail.

Variable API_KEY : string.
Variable web : list event -> string -> option dict -> result string.
Variable soup_site : json -> result site_page.

(** X21. The detail of a selected site: once its page and the places near
    it were fetched, the places are flattened before anything is printed.
    If the flattening raises, nothing is printed; otherwise the header
    with the stripped name of the site as parsed from its page is
    printed, then one line per place up to the first whose name is not a
    string. *)
Theorem detail_is_printed_after_both_fetches (site park : NationalSite.t)
        (answer : json) (w w1 w2 : world) :
  get_site_instance_at web soup_site (NationalSite.url site) w = (Ok park, w1) ->
  get_nearby_places API_KEY web park w1 = (Ok answer, w2) ->
  show_detail API_KEY web soup_site site w
  = match make_nearby_instance_list answer with
    | Ok places =>
        (if Nat.eqb (List.length (named_prefix places)) (List.length places)
         then Ok tt else Raise TypeError,
         add_trace w2 (detail_header (NationalSite.name park)
                         ++ map place_line (named_prefix places))%list)
    | Raise e => (Raise e, w2)
    end.
Proof.
  intros Hsite Hplaces. unfold show_detail, bind at 1. rewrite Hsite.
  cbv zeta. unfold bind at 1. rewrite Hplaces.
  unfold bind at 1, lift.
  destruct (make_nearby_instance_list answer) as [places|e]; [|reflexivity].
  unfold bind. rewrite !print_run, print_places_run, !add_trace_app.
  reflexivity.
Qed.

End Detail.

(** ** The properties of the rest of the program, on the sample data *)

Lemma flattened_address_and_city_are_clean_witness :
  flatten_member entry_no_address
  = Ok (NearbyPlace.init (JStr "Ranger III Dock") "Marinas" "no address"
          "Houghton")
  /\ no_surrounding is_space "no address"
  /\ no_surrounding is_space "Houghton".
Proof.
  split; [reflexivity|].
  pose proof (flattened_address_and_city_are_clean entry_no_address
                (NearbyPlace.init (JStr "Ranger III Dock") "Marinas"
                   "no address" "Houghton") eq_refl) as H.
  exact (proj2 (proj2 (proj2 (proj2 H)))).
Defined.

Lemma one_place_per_entry_witness :
  make_nearby_instance_list (answer_of [entry_complete; entry_blank_ext])
  = Ok sample_places
  /\ exists members,
      rbind (getitem (answer_of [entry_complete; entry_blank_ext])
               "searchResults") iterate = Ok members
      /\ List.length sample_places = List.length members
      /\ Forall2 (fun member place =>
                    getitem member "name" = Ok (NearbyPlace.name place))
           members sample_places.
Proof.
  split; [reflexivity|].
  exact (one_place_per_entry (answer_of [entry_complete; entry_blank_ext])
           sample_places eq_refl).
Defined.

Lemma site_is_fetched_once_witness :
  let w' := snd (get_site_instance sample_web sample_soup_site URL empty_world) in
  fst (get_site_instance sample_web sample_soup_site URL empty_world)
  = Ok parsed_isle_royale
  /\ get_site_instance sample_web sample_soup_site URL w'
     = (Ok parsed_isle_royale, add_trace w' [EvOpen "r"; EvPrint "Using cache"]).
Proof.
  split; [reflexivity|].
  exact (site_is_fetched_once sample_web sample_soup_site URL empty_world _
           parsed_isle_royale eq_refl).
Defined.


Lemma states_are_found_in_any_case_witness :
  states_of_items
    [(Ok "/state/mi/index.htm", "Michigan"); (Ok "/state/oh/", "Ohio");
     (Ok "/state/oh/index.htm", "OHIO")] [] = Ok sample_states
  /\ str_dict_get (lower "Ohio") sample_states
     = Some (base_url ++ "/state/oh/index.htm").
Proof.
  split; [reflexivity|].
  refine (proj1 (states_are_found_in_any_case
                   [(Ok "/state/mi/index.htm", "Michigan");
                    (Ok "/state/oh/", "Ohio")] []
                   "/state/oh/index.htm" "OHIO" sample_states eq_refl _)
            "Ohio" eq_refl).
  intros h t [].
Defined.

Lemma state_dict_of_the_index_page_witness :
  let run := build_state_url_dict sample_web sample_soup_index empty_world in
  fst run = Ok sample_states
  /\ exists text items d,
      stored (snd run) d /\ CACHE_DICT (snd run) = JDict d
      /\ dict_get URL d = Some text
      /\ sample_soup_index text = Ok items
      /\ states_of_items items [] = Ok sample_states.
Proof.
  split; [reflexivity|].
  exact (proj1 (state_dict_of_the_index_page sample_web sample_soup_index
                  empty_world _ sample_states eq_refl)).
Defined.

Lemma failed_page_request_stores_nothing_witness :
  let run := get_site_instance no_web sample_soup_site URL empty_world in
  stored empty_world []
  /\ fst run = Raise ConnectionError
  /\ disk (snd run) = NoFile
  /\ CACHE_DICT (snd run) = JDict []
  /\ gets (trace (snd run)) = 1.
Proof.
  split; [reflexivity|].
  exact (failed_page_request_stores_nothing no_web sample_soup_site URL
           empty_world [] ConnectionError eq_refl eq_refl eq_refl).
Defined.

Lemma failed_places_request_stores_nothing_witness :
  let run := get_nearby_places "key" no_web parsed_isle_royale empty_world in
  stored empty_world []
  /\ fst run = Raise ConnectionError
  /\ disk (snd run) = NoFile
  /\ gets (trace (snd run)) = 1.
Proof.
  split; [reflexivity|].
  exact (failed_places_request_stores_nothing "key" no_web parsed_isle_royale
           empty_world [] ConnectionError eq_refl eq_refl eq_refl).
Defined.

Lemma unreadable_cache_stops_the_program_witness :
  let run := main "key" sample_web sample_soup_site sample_soup_state
               sample_soup_index 5 broken_world in
  fst (load_cache broken_world) = Raise JSONDecodeError
  /\ is_ok (fst run) = false
  /\ trace (snd run) = [EvOpen "r"]
  /\ disk (snd run) = File "{oops".
Proof.
  split; [reflexivity|].
  apply (unreadable_cache_stops_the_program "key" sample_web sample_soup_site
           sample_soup_state sample_soup_index 5 broken_world).
  intros d H. discriminate H.
Defined.

Lemma page_fetch_writes_the_given_mapping_witness :
  let url := "https://www.nps.gov/isro/index.htm" in
  let w' := snd (make_url_request_using_cache sample_web url stale_world) in
  stored stale_world warm
  /\ stored w' [(url, JStr "<html>Isle Royale</html>")]
  /\ dict_get URL [(url, JStr "<html>Isle Royale</html>")] = None.
Proof.
  split; [vm_compute; reflexivity|].
  destruct (page_fetch_writes_the_given_mapping sample_web
              "https://www.nps.gov/isro/index.htm" "<html>Isle Royale</html>"
              stale_world [] eq_refl eq_refl eq_refl eq_refl eq_refl)
    as [Hs Hk].
  split; [exact Hs|].
  exact (Hk URL ltac:(discriminate) eq_refl).
Defined.

Lemma site_named_like_a_page_gets_the_page_witness :
  let w' := snd (get_site_instance sample_web sample_soup_site URL empty_world) in
  NationalSite.name oddly_named = URL
  /\ exists page,
      get_nearby_places "key" sample_web oddly_named w'
      = (Ok page, add_trace w' [EvOpen "r"; EvPrint "Using cache"])
      /\ rbind (sample_soup_site page) (fun p => Ok (site_of_page p))
         = Ok parsed_isle_royale.
Proof.
  split; [reflexivity|].
  exact (site_named_like_a_page_gets_the_page "key" sample_web sample_soup_site
           URL empty_world _ parsed_isle_royale oddly_named eq_refl eq_refl).
Defined.

Lemma places_are_fetched_once_witness :
  let w' := snd (get_nearby_places "key" sample_web parsed_isle_royale
                   empty_world) in
  fst (get_nearby_places "key" sample_web parsed_isle_royale empty_world)
  = Ok (answer_of [entry_no_address])
  /\ get_nearby_places "key" sample_web parsed_isle_royale w'
     = (Ok (answer_of [entry_no_address]),
        add_trace w' [EvOpen "r"; EvPrint "Using cache"]).
Proof.
  split; [vm_compute; reflexivity|].
  apply (places_are_fetched_once "key" sample_web parsed_isle_royale
           empty_world).
  vm_compute; reflexivity.
Defined.


Lemma sites_follow_the_headings_witness :
  let url := "https://www.nps.gov/state/mi/index.htm" in
  let run := get_sites_for_state sample_web sample_soup_site sample_soup_state
               url empty_world in
  fst run = Ok sample_sites
  /\ (exists d' text links,
         fst (fetch_page sample_web url empty_world) = Ok text
         /\ stored (snd run) d' /\ dict_get url d' = Some text
         /\ sample_soup_state text = Ok links
         /\ Forall2 (listed_from sample_soup_site d') links sample_sites)
  /\ gets (trace (snd run)) <= 0 + 1 + 2.
Proof.
  split; [vm_compute; reflexivity|].
  refine (sites_follow_the_headings sample_web sample_soup_site
            sample_soup_state "https://www.nps.gov/state/mi/index.htm"
            empty_world _ sample_sites _).
  vm_compute; reflexivity.
Defined.

Lemma exit_after_unknown_names_witness :
  main_loop "key" sample_web sample_soup_site sample_soup_state 3 sample_states
    (typing ["Texas"; "exit "; "EXIT"; "Ohio"])
  = (Ok tt,
     mkWorld NoFile (JDict []) ["Ohio"]
       (unknown_turns ["Texas"; "exit "] ++ [EvInput state_prompt])%list).
Proof.
  apply (exit_after_unknown_names "key" sample_web sample_soup_site
           sample_soup_state sample_states ["Texas"; "exit "] "EXIT" ["Ohio"]
           (typing ["Texas"; "exit "; "EXIT"; "Ohio"]) 3).
  - repeat constructor; intros H; vm_compute in H; discriminate H.
  - reflexivity.
  - reflexivity.
  - cbn; lia.
Defined.

Lemma listed_number_selects_the_site_witness :
  let w' := snd (get_sites_for_state sample_web sample_soup_site
                   sample_soup_state "https://www.nps.gov/state/oh/index.htm"
                   (after_input state_prompt ["1"] (typing ["OHIO"; "1"]))) in
  state_turn sample_web sample_soup_site sample_soup_state sample_states
    (typing ["OHIO"; "1"])
  = (Ok (Enter sample_sites),
     add_trace w' (listing_header "OHIO" ++ site_lines 0 sample_sites)%list).
Proof.
  refine (proj1 (listed_number_selects_the_site "key" sample_web sample_soup_site
                   sample_soup_state sample_states "OHIO"
                   "https://www.nps.gov/state/oh/index.htm" ["1"]
                   (typing ["OHIO"; "1"]) _ sample_sites eq_refl _ eq_refl _)).
  - intros H; vm_compute in H; discriminate H.
  - vm_compute; reflexivity.
Defined.

Lemma leaving_the_site_prompt_witness :
  let w1 := snd (state_turn sample_web sample_soup_site sample_soup_state
                   sample_states (typing ["Ohio"; "Exit"; "Ohio"])) in
  main_loop "key" sample_web sample_soup_site sample_soup_state 2 sample_states
    (typing ["Ohio"; "Exit"; "Ohio"])
  = (Ok tt, after_input selection_prompt ["Ohio"] w1).
Proof.
  refine (proj1 (leaving_the_site_prompt "key" sample_web sample_soup_site
                   sample_soup_state sample_states
                   (typing ["Ohio"; "Exit"; "Ohio"]) _ sample_sites "Exit"
                   ["Ohio"] 0 _ _) eq_refl).
  - vm_compute; reflexivity.
  - vm_compute; reflexivity.
Defined.

Lemma detail_is_printed_after_both_fetches_witness :
  let site := with_url parsed_isle_royale
                (Some "https://www.nps.gov/isro/index.htm") in
  let w2 := snd (get_nearby_places "key" sample_web parsed_isle_royale
                   (snd (get_site_instance sample_web sample_soup_site
                           "https://www.nps.gov/isro/index.htm" empty_world))) in
  show_detail "key" sample_web sample_soup_site site empty_world
  = (Ok tt,
     add_trace w2
       (detail_header "Isle Royale"
          ++ [EvPrint "- Ranger III Dock (Marinas): no address, Houghton"])%list).
Proof.
  refine (detail_is_printed_after_both_fetches "key" sample_web sample_soup_site
            (with_url parsed_isle_royale
               (Some "https://www.nps.gov/isro/index.htm"))
            parsed_isle_royale (answer_of [entry_no_address]) empty_world
            _ _ _ _).
  - vm_compute; reflexivity.
  - vm_compute; reflexivity.
Defined.
